(** * ralphex: progress-file naming, branch names, aligned logging,
      the TUI output buffer, the safe sender and the question bridge.

    A shallow embedding of the Go sources

      - [pkg/progress/progress.go]   (package [progress])
      - [pkg/tui/logger.go], [pkg/tui/tui.go], [pkg/tui/input_collector.go]
                                      (package [tui])
      - [cmd/ralphex/main.go]         (package [main])

    Go strings are byte sequences: a [gostring] is a [list ascii], one
    [ascii] per byte.  Runes are [Z].  The few functions of the Go standard
    library the sources call ([utf8], [strings], [filepath], [time]) are
    modelled in modules of the same name, following the library's code for
    the arguments the call sites pass. *)

From Stdlib Require Import ZArith Lia Ascii String List Bool.
From stdpp Require Import base list gmap strings.

Local Open Scope Z_scope.

(* ================================================================== *)
(** * Part I: definitions                                              *)
(* ================================================================== *)

(** ** Go strings *)

Abbreviation gostring := (list ascii) (only parsing).
Abbreviation rune := Z (only parsing).

(** A Go string literal. *)
Definition str (s : string) : gostring := list_ascii_of_string s.

(** [byte(c)] as an integer, and back (the low eight bits). *)
Definition byteZ (c : ascii) : Z := Z.of_N (N_of_ascii c).
Definition Zbyte (z : Z) : ascii := ascii_of_N (Z.to_N (z mod 256)).

(** [a == b] on strings. *)
Definition streq (a b : gostring) : bool := bool_decide (a = b).

(** ** Package [unicode/utf8] *)
Module utf8.

Definition RuneError : rune := 65533.      (* U+FFFD *)
Definition RuneSelf : Z := 128.
Definition MaxRune : rune := 1114111.      (* U+10FFFF *)

(** Continuation bytes lie in [locb, hicb]. *)
Definition locb : Z := 128.
Definition hicb : Z := 191.

(** The table [first] joined with [acceptRanges]: for a leading byte,
    the length of the sequence it starts and the range the second byte
    must lie in; [None] for the ASCII bytes and the invalid leads, which
    [DecodeRuneInString] answers with width 1. *)
Definition first (b0 : Z) : option (nat * (Z * Z)) :=
  if b0 <? 194 then None                              (* as, xx *)
  else if b0 <? 224 then Some (2%nat, (locb, hicb))   (* s1 *)
  else if b0 =? 224 then Some (3%nat, (160, hicb))    (* s2 *)
  else if b0 <? 237 then Some (3%nat, (locb, hicb))   (* s3 *)
  else if b0 =? 237 then Some (3%nat, (locb, 159))    (* s4 *)
  else if b0 <? 240 then Some (3%nat, (locb, hicb))   (* s3 *)
  else if b0 =? 240 then Some (4%nat, (144, hicb))    (* s5 *)
  else if b0 <? 244 then Some (4%nat, (locb, hicb))   (* s6 *)
  else if b0 =? 244 then Some (4%nat, (locb, 143))    (* s7 *)
  else None.                                          (* xx *)

Definition cont (b : Z) : bool := (locb <=? b) && (b <=? hicb).

(** [utf8.DecodeRuneInString]: the rune at the head of [s] and its width
    in bytes; [(RuneError, 0)] on the empty string and [(RuneError, 1)]
    on an invalid or truncated sequence. *)
Definition DecodeRuneInString (s : gostring) : rune * nat :=
  match s with
  | [] => (RuneError, 0%nat)
  | c0 :: t0 =>
    let s0 := byteZ c0 in
    if s0 <? RuneSelf then (s0, 1%nat)
    else match first s0 with
    | None => (RuneError, 1%nat)
    | Some (sz, (lo, hi)) =>
      if (length s <? sz)%nat then (RuneError, 1%nat)
      else match t0 with
      | [] => (RuneError, 1%nat)
      | c1 :: t1 =>
        let s1 := byteZ c1 in
        if (s1 <? lo) || (hi <? s1) then (RuneError, 1%nat)
        else if (sz <=? 2)%nat
        then (Z.lor (Z.shiftl (Z.land s0 31) 6) (Z.land s1 63), 2%nat)
        else match t1 with
        | [] => (RuneError, 1%nat)
        | c2 :: t2 =>
          let s2 := byteZ c2 in
          if negb (cont s2) then (RuneError, 1%nat)
          else if (sz <=? 3)%nat
          then (Z.lor (Z.lor (Z.shiftl (Z.land s0 15) 12)
                             (Z.shiftl (Z.land s1 63) 6))
                      (Z.land s2 63), 3%nat)
          else match t2 with
          | [] => (RuneError, 1%nat)
          | c3 :: _ =>
            let s3 := byteZ c3 in
            if negb (cont s3) then (RuneError, 1%nat)
            else (Z.lor (Z.lor (Z.lor (Z.shiftl (Z.land s0 7) 18)
                                      (Z.shiftl (Z.land s1 63) 12))
                               (Z.shiftl (Z.land s2 63) 6))
                        (Z.land s3 63), 4%nat)
          end
        end
      end
    end
  end.

(** [utf8.AppendRune] on an empty buffer: the UTF-8 encoding of [r];
    runes out of range and surrogates are written as U+FFFD. *)
Definition enc3 (r : rune) : gostring :=
  [Zbyte (Z.lor 224 (Z.shiftr r 12));
   Zbyte (Z.lor 128 (Z.land (Z.shiftr r 6) 63));
   Zbyte (Z.lor 128 (Z.land r 63))].

Definition EncodeRune (r : rune) : gostring :=
  if (0 <=? r) && (r <=? 127) then [Zbyte r]
  else if (0 <=? r) && (r <=? 2047) then
    [Zbyte (Z.lor 192 (Z.shiftr r 6)); Zbyte (Z.lor 128 (Z.land r 63))]
  else if (r <? 0) || (MaxRune <? r) || ((55296 <=? r) && (r <=? 57343))
  then enc3 RuneError
  else if r <=? 65535 then enc3 r
  else
    [Zbyte (Z.lor 240 (Z.shiftr r 18));
     Zbyte (Z.lor 128 (Z.land (Z.shiftr r 12) 63));
     Zbyte (Z.lor 128 (Z.land (Z.shiftr r 6) 63));
     Zbyte (Z.lor 128 (Z.land r 63))].

(** [for i, r := range s]: the pairs (byte index, rune) the loop visits.
    [skip] counts the bytes of the current rune still to pass over, so
    the recursion is structural on the bytes. *)
Fixpoint range_from (skip : nat) (i : nat) (s : gostring)
  : list (nat * rune) :=
  match s with
  | [] => []
  | _ :: t =>
    match skip with
    | S k => range_from k (S i) t
    | O => let '(r, w) := DecodeRuneInString s in
           (i, r) :: range_from (Nat.pred w) (S i) t
    end
  end.

Definition range (s : gostring) : list (nat * rune) := range_from 0 0 s.

End utf8.

(** ** Package [unicode] *)
Module unicode.

(** [unicode.ToLower].  The ASCII branch is the library's code; for the
    other runes the library searches its case tables
    ([unicode.CaseRanges]), which enter here as the function
    [caseLower]. *)
Definition ToLower (caseLower : rune -> rune) (r : rune) : rune :=
  if r <=? 127 then
    if (65 <=? r) && (r <=? 90) then r + 32 else r
  else caseLower r.

(** An excerpt of the case tables, enough to run examples: the Latin-1
    capitals, and the two capitals outside ASCII whose lower case is an
    ASCII letter (U+0130 and the Kelvin sign U+212A). *)
Definition caseLower_excerpt (r : rune) : rune :=
  if (192 <=? r) && (r <=? 222) && negb (r =? 215) then r + 32
  else if r =? 304 then 105
  else if r =? 8490 then 107
  else r.

End unicode.

(** ** Package [strings] *)
Module strings.

(** [s[:n]] and [s[n:]] are [take n s] and [drop n s]. *)

Definition HasPrefix (s prefix : gostring) : bool :=
  (length prefix <=? length s)%nat && streq (take (length prefix) s) prefix.

Definition HasSuffix (s suffix : gostring) : bool :=
  (length suffix <=? length s)%nat
  && streq (drop (length s - length suffix) s) suffix.

Definition TrimSuffix (s suffix : gostring) : gostring :=
  if HasSuffix s suffix then take (length s - length suffix) s else s.

(** [strings.Contains]: some position of [s] starts with [substr]. *)
Fixpoint Contains (s substr : gostring) : bool :=
  HasPrefix s substr ||
  match s with
  | [] => false
  | _ :: t => Contains t substr
  end.

(** [strings.ReplaceAll] for a non-empty [old] (the call sites pass
    one space and two dashes): the matches are found left to right and do not
    overlap.  [skip] counts the bytes of the current match still to pass
    over. *)
Fixpoint replace_from (skip : nat) (s old new : gostring) : gostring :=
  match s with
  | [] => []
  | c :: t =>
    match skip with
    | S k => replace_from k t old new
    | O => if HasPrefix s old
           then new ++ replace_from (Nat.pred (length old)) t old new
           else c :: replace_from 0 t old new
    end
  end.

Definition ReplaceAll (s old new : gostring) : gostring :=
  if streq old new then s else replace_from 0 s old new.

(** The cutset functions, for a cutset of ASCII bytes (the call sites
    pass a dash, a newline, and a space with a tab): bytes of the
    cutset are cut from the end in question. *)
Fixpoint dropWhile (p : ascii -> bool) (s : gostring) : gostring :=
  match s with
  | [] => []
  | c :: t => if p c then dropWhile p t else s
  end.

Fixpoint takeWhile (p : ascii -> bool) (s : gostring) : gostring :=
  match s with
  | [] => []
  | c :: t => if p c then c :: takeWhile p t else []
  end.

Definition inCutset (cutset : gostring) (c : ascii) : bool :=
  bool_decide (c ∈ cutset).

Definition TrimLeft (s cutset : gostring) : gostring :=
  dropWhile (inCutset cutset) s.

Definition TrimRight (s cutset : gostring) : gostring :=
  reverse (dropWhile (inCutset cutset) (reverse s)).

Definition Trim (s cutset : gostring) : gostring :=
  TrimLeft (TrimRight s cutset) cutset.

(** [strings.Split] and [strings.SplitSeq] for a one-byte separator (the call
    sites pass a newline): the pieces between the separators, in order;
    a string without separator is its own single piece. *)
Fixpoint Split (s : gostring) (sep : ascii) : list gostring :=
  match s with
  | [] => [[]]
  | c :: t =>
    if bool_decide (c = sep) then [] :: Split t sep
    else match Split t sep with
         | piece :: rest => (c :: piece) :: rest
         | [] => [[c]]
         end
  end.

Fixpoint Join (elems : list gostring) (sep : gostring) : gostring :=
  match elems with
  | [] => []
  | e :: rest =>
    match rest with
    | [] => e
    | _ => e ++ sep ++ Join rest sep
    end
  end.

Definition Repeat (s : gostring) (count : nat) : gostring :=
  concat (replicate count s).

(** [strings.Map]: every rune of [s] (an invalid byte counts as U+FFFD)
    is replaced by the encoding of its image; a negative image is
    dropped. *)
Definition Map (mapping : rune -> rune) (s : gostring) : gostring :=
  flat_map (fun ir => let r := mapping ir.2 in
                      if r <? 0 then [] else utf8.EncodeRune r)
           (utf8.range s).

Definition isASCII (s : gostring) : bool :=
  forallb (fun c => byteZ c <? utf8.RuneSelf) s.

Definition isUpperByte (c : ascii) : bool :=
  (65 <=? byteZ c) && (byteZ c <=? 90).

Definition lowerByte (c : ascii) : ascii :=
  if isUpperByte c then Zbyte (byteZ c + 32) else c.

(** [strings.ToLower]: byte by byte on an ASCII string, and
    [Map(unicode.ToLower, s)] otherwise. *)
Definition ToLower (caseLower : rune -> rune) (s : gostring) : gostring :=
  if isASCII s then
    if negb (existsb isUpperByte s) then s else List.map lowerByte s
  else Map (unicode.ToLower caseLower) s.

End strings.

(** ** Package [path/filepath] (Unix: the separator is a slash, there is
    no volume name) *)
Module filepath.

Definition isSep (c : ascii) : bool := bool_decide (c = "/"%char).

(** [filepath.Base]: the last element of the path, trailing slashes
    removed first; [.] for the empty path and [/] for a path of slashes
    only. *)
Definition Base (path : gostring) : gostring :=
  match path with
  | [] => str "."
  | _ =>
    let path := reverse (strings.dropWhile isSep (reverse path)) in
    let path :=
      reverse (strings.takeWhile (fun c => negb (isSep c)) (reverse path)) in
    match path with
    | [] => str "/"
    | _ => path
    end
  end.

End filepath.

(** ** Package [time] *)
Module time.

(** What [Time.Format] reads of an instant: its civil date and clock. *)
Record Time := mkTime {
  Year : Z; Month : Z; Day : Z; Hour : Z; Minute : Z; Second : Z
}.

(** The instants of the Gregorian calendar with a four-digit year. *)
Definition wf (t : Time) : Prop :=
  0 <= Year t <= 9999 /\ 1 <= Month t <= 12 /\ 1 <= Day t <= 31 /\
  0 <= Hour t <= 23 /\ 0 <= Minute t <= 59 /\ 0 <= Second t <= 59.

Definition digit (d : Z) : ascii := Zbyte (48 + d mod 10).

(** The decimal digits of [u], most significant first; at most [fuel]
    of them. *)
Fixpoint digits (fuel : nat) (u : Z) : gostring :=
  match fuel with
  | O => []
  | S f => (if u / 10 =? 0 then [] else digits f (u / 10)) ++ [digit u]
  end.

(** [appendInt(b, x, width)] on an empty buffer: [x] in decimal, padded
    with zeros to [width] digits. *)
Definition appendInt (x : Z) (width : nat) : gostring :=
  let u := Z.abs x in
  let sign := if x <? 0 then str "-" else [] in
  sign ++
  (if (width =? 2)%nat && (u <? 100) then [digit (u / 10); digit u]
   else if (width =? 4)%nat && (u <? 10000)
   then [digit (u / 1000); digit (u / 100); digit (u / 10); digit u]
   else let ds := digits 20 u in
        replicate (width - length ds) "0"%char ++ ds).

(** The chunks of a layout ([nextStdChunk]). *)
Inductive chunk :=
| stdLongYear | stdYear | stdZeroMonth | stdZeroDay
| stdHour | stdZeroMinute | stdZeroSecond
| lit (c : ascii).

Definition appendChunk (t : Time) (c : chunk) : gostring :=
  match c with
  | stdLongYear => appendInt (Year t) 4
  | stdYear => appendInt (Year t mod 100) 2
  | stdZeroMonth => appendInt (Month t) 2
  | stdZeroDay => appendInt (Day t) 2
  | stdHour => appendInt (Hour t) 2
  | stdZeroMinute => appendInt (Minute t) 2
  | stdZeroSecond => appendInt (Second t) 2
  | lit c => [c]
  end.

Definition Format (t : Time) (layout : list chunk) : gostring :=
  flat_map (appendChunk t) layout.

(** The layout ["2006-01-02 15:04:05"]. *)
Definition DateTime : list chunk :=
  [stdLongYear; lit "-"; stdZeroMonth; lit "-"; stdZeroDay; lit " ";
   stdHour; lit ":"; stdZeroMinute; lit ":"; stdZeroSecond].

(** What [Before] and [After] read of a [time.Time] when one of the two
    has no monotonic clock reading (a modification time has none): the
    seconds since the year 1 and the nanoseconds within the second. *)
Record Instant := mkInstant { sec : Z; nsec : Z }.

(** The zero [time.Time]. *)
Definition zeroInstant : Instant := mkInstant 0 0.

Definition After (t u : Instant) : bool :=
  (sec t >? sec u) || ((sec t =? sec u) && (nsec t >? nsec u)).

Definition Before (t u : Instant) : bool :=
  (sec t <? sec u) || ((sec t =? sec u) && (nsec t <? nsec u)).

End time.

(** ** The process around a logger *)

(** Newline and tab. *)
Definition nl : ascii := "010"%char.
Definition tab : ascii := "009"%char.

(** [processor.Phase].
    Modelled from the spec: package [processor] is not among the sources;
    the spec lists the phase labels Task, Review and Codex. *)
Inductive Phase := PhaseTask | PhaseReview | PhaseCodex.

(** [processor.Section]; the loggers read its label only. *)
Record Section_ := mkSection { Label : gostring }.

(** An [*os.File]: its name, the bytes written to it so far, whether this
    process holds the advisory lock on it, and whether it is still open. *)
Record File := mkFile {
  fname : gostring;
  fdata : gostring;
  flocked : bool;
  fopen : bool
}.

(** [fmt.Fprintf(f, ...)] with the formatted text [s]; the loggers ignore
    its error, so a write to a closed file is lost. *)
Definition File_write (s : gostring) (f : File) : File :=
  if fopen f then mkFile (fname f) (fdata f ++ s) (flocked f) true else f.

(** [f.Close()]: [None] is the nil error. *)
Definition File_Close (f : File) : option gostring * File :=
  if fopen f then (None, mkFile (fname f) (fdata f) (flocked f) false)
  else (Some (str "close " ++ fname f ++ str ": file already closed"), f).

(** The process state the loggers touch: the wall clock ([wall n] is the
    answer to the [n]-th call of [time.Now]) and the registry
    [activeLocks] of package [progress]. *)
Record Env := mkEnv {
  wall : nat -> time.Time;
  ticks : nat;
  activeLocks : gset gostring
}.

(** A state monad for the methods, which thread the receiver and the
    process state. *)
Definition M (S A : Type) : Type := S -> A * S.

#[global] Instance M_ret {S} : MRet (M S) := fun _ a s => (a, s).
#[global] Instance M_bind {S} : MBind (M S) :=
  fun _ _ k m s => let '(a, s') := m s in k a s'.

Definition get {S} : M S S := fun s => (s, s).
Definition modify {S} (f : S -> S) : M S unit := fun s => (tt, f s).

(** [for _, x := range xs { body x }] *)
Fixpoint forEach {S A} (xs : list A) (body : A -> M S unit) : M S unit :=
  match xs with
  | [] => mret tt
  | x :: rest => body x ;; forEach rest body
  end.

(** A method's state: the receiver and the process. *)
Record St (L : Type) := mkSt { self : L; env : Env }.
Arguments mkSt {L} _ _.
Arguments self {L} _.
Arguments env {L} _.

(** What the operating system answers to a logger that opens its file:
    the errors of [os.MkdirAll], of [os.Create] and of the lock that
    [LockFile] asks for; [None] is the nil error. *)
Record Syscalls := mkSyscalls {
  mkdirErr : option gostring;
  createErr : option gostring;
  flockErr : option gostring
}.

(** [os.Create(path)] when it succeeds: the file is empty (a file of
    that name is truncated) and open. *)
Definition os_Create (path : gostring) : File := mkFile path [] false true.

(** [time.Now()] *)
Definition time_Now {L} : M (St L) time.Time :=
  fun s =>
    let e := env s in
    (wall e (ticks e), mkSt (self s) (mkEnv (wall e) (S (ticks e)) (activeLocks e))).

(* ================================================================== *)
(** ** Package [progress] ([pkg/progress/progress.go])                 *)
(* ================================================================== *)
Module progress.

(** [timestampFormat = "06-01-02 15:04:05"] *)
Definition timestampFormat : list time.chunk :=
  [time.stdYear; time.lit "-"; time.stdZeroMonth; time.lit "-";
   time.stdZeroDay; time.lit " "; time.stdHour; time.lit ":";
   time.stdZeroMinute; time.lit ":"; time.stdZeroSecond].

Record Logger := mkLogger {
  file : option File;          (* nil or the progress file *)
  startTime : time.Time;
  phase : Phase
}.

Record Config := mkConfig {
  PlanFile : gostring;
  PlanDescription : gostring;
  Mode : gostring;
  Branch : gostring
}.

Section WithLibraries.

(** The Unicode case tables behind [strings.ToLower]. *)
Variable caseLower : rune -> rune.
(** [humanize.RelTime(a, b, albl, blbl)] of package go-humanize. *)
Variable humanize_RelTime :
  time.Time -> time.Time -> gostring -> gostring -> gostring.
(** [filepath.Abs] ([None] is its error) and [filepath.Clean]. *)
Variable filepath_Abs : gostring -> option gostring.
Variable filepath_Clean : gostring -> gostring.

(** *** The lock registry *)

Definition canonicalPath (path : gostring) : gostring :=
  let path := match filepath_Abs path with
              | Some abs => abs
              | None => path
              end in
  filepath_Clean path.

Definition RegisterActiveLock (path : gostring) (e : Env) : Env :=
  mkEnv (wall e) (ticks e) ({[ canonicalPath path ]} ∪ activeLocks e).

Definition UnregisterActiveLock (path : gostring) (e : Env) : Env :=
  mkEnv (wall e) (ticks e) (activeLocks e ∖ {[ canonicalPath path ]}).

Definition IsPathLockedByCurrentProcess (path : gostring) (e : Env) : bool :=
  bool_decide (canonicalPath path ∈ activeLocks e).

(** [LockFile] and [UnlockFile].
    Modelled from the spec: the file that defines them is not among
    the sources; the spec has the progress file protected by an OS
    advisory lock that [Close] releases. *)
Definition LockFile (f : File) : File :=
  if fopen f then mkFile (fname f) (fdata f) true true else f.

Definition UnlockFile (f : File) : File :=
  if fopen f then mkFile (fname f) (fdata f) false true else f.

(** *** File names *)

(** The loop [for strings.Contains(result, "--")] of
    [sanitizePlanName], run for at most [fuel] rounds. *)
Fixpoint collapseLoop (fuel : nat) (result : gostring) : gostring :=
  match fuel with
  | O => result
  | S f =>
    if strings.Contains result (str "--")
    then collapseLoop f (strings.ReplaceAll result (str "--") (str "-"))
    else result
  end.

(** The condition of the filter loop on a rune. *)
Definition keepRune (r : rune) : bool :=
  ((97 <=? r) && (r <=? 122)) || ((48 <=? r) && (r <=? 57)) || (r =? 45).

Definition sanitizePlanName (desc : gostring) : gostring :=
  (* lowercase and replace spaces with dashes *)
  let result := strings.ToLower caseLower desc in
  let result := strings.ReplaceAll result (str " ") (str "-") in
  (* keep only alphanumeric and dashes *)
  let clean :=
    flat_map (fun ir => if keepRune ir.2 then utf8.EncodeRune ir.2 else [])
             (utf8.range result) in
  let result := clean in
  (* collapse multiple dashes; every round shortens the string *)
  let result := collapseLoop (length result) result in
  (* trim leading/trailing dashes *)
  let result := strings.Trim result (str "-") in
  (* limit length to 50 characters *)
  let result :=
    if (50 <? length result)%nat
    then strings.TrimRight (take 50 result) (str "-")
    else result in
  if streq result [] then str "unnamed" else result.

Definition progressFilename (planFile planDescription mode : gostring)
  : gostring :=
  if streq mode (str "plan") && negb (streq planDescription []) then
    let sanitized := sanitizePlanName planDescription in
    str "progress-plan-" ++ sanitized ++ str ".txt"
  else if negb (streq planFile []) then
    let stem := strings.TrimSuffix (filepath.Base planFile) (str ".md") in
    if streq mode (str "codex-only") then
      str "progress-" ++ stem ++ str "-codex.txt"
    else if streq mode (str "review") then
      str "progress-" ++ stem ++ str "-review.txt"
    else
      str "progress-" ++ stem ++ str ".txt"
  else if streq mode (str "codex-only") then str "progress-codex.txt"
  else if streq mode (str "review") then str "progress-review.txt"
  else if streq mode (str "plan") then str "progress-plan.txt"
  else str "progress.txt".

(** *** Logging *)

(** The numbered-list loop of [isListItem] over the runes of [line]. *)
Fixpoint numberedLoop (line : gostring) (its : list (nat * rune)) : bool :=
  match its with
  | [] => false
  | (i, r) :: rest =>
    if (48 <=? r) && (r <=? 57) then numberedLoop line rest
    else
      (r =? 46) && (0 <? i)%nat
      && (Z.of_nat i <? Z.of_nat (length line) - 1)
      && bool_decide (line !! (i + 1)%nat = Some " "%char)
  end.

Definition isListItem (line : gostring) : bool :=
  if strings.HasPrefix line (str "- ") || strings.HasPrefix line (str "* ")
  then true
  else numberedLoop line (utf8.range line).

Definition formatListItem (line : gostring) : gostring :=
  let trimmed := strings.TrimLeft line [" "%char; tab] in
  if streq trimmed line then
    if isListItem trimmed then str "  " ++ line else line
  else line.

Definition writeFile (s : gostring) : M (St Logger) unit :=
  modify (fun st =>
    let l := self st in
    match file l with
    | Some f => mkSt (mkLogger (Some (File_write s f)) (startTime l) (phase l))
                     (env st)
    | None => st
    end).

Definition PrintAligned (text : gostring) : M (St Logger) unit :=
  if streq text [] then mret tt
  else
    let text := strings.TrimRight text [nl] in
    if streq text [] then mret tt
    else
      forEach (strings.Split text nl) (fun line =>
        if streq line [] then mret tt
        else
          let displayLine := formatListItem line in
          now ← time_Now;
          let timestamp := time.Format now timestampFormat in
          writeFile (str "[" ++ timestamp ++ str "] " ++ displayLine ++ [nl])).

Definition Elapsed : M (St Logger) gostring :=
  st ← get;
  now ← time_Now;
  mret (humanize_RelTime (startTime (self st)) now [] []).

(** [Close]; the result is the error, [None] for nil. *)
Definition Close : M (St Logger) (option gostring) :=
  st ← get;
  match file (self st) with
  | None => mret None
  | Some _ =>
    writeFile ([nl] ++ strings.Repeat (str "-") 60 ++ [nl]) ;;
    now ← time_Now;
    elapsed ← Elapsed;
    writeFile (str "Completed: " ++ time.Format now time.DateTime
               ++ str " (" ++ elapsed ++ str ")" ++ [nl]) ;;
    (* release file lock before closing *)
    modify (fun st =>
      let l := self st in
      match file l with
      | Some f =>
        mkSt (mkLogger (Some (UnlockFile f)) (startTime l) (phase l))
             (UnregisterActiveLock (fname f) (env st))
      | None => st
      end) ;;
    st ← get;
    match file (self st) with
    | None => mret None
    | Some f =>
      let '(err, f') := File_Close f in
      modify (fun st =>
        mkSt (mkLogger (Some f') (startTime (self st)) (phase (self st)))
             (env st)) ;;
      match err with
      | Some e => mret (Some (str "close progress file: " ++ e))
      | None => mret None
      end
    end
  end.

(** *** The other methods of [Logger]

    A method that takes a format and arguments is modelled on the
    message [fmt.Sprintf(format, args...)] it starts with. *)

(** [Path] *)
Definition Path (l : Logger) : gostring :=
  match file l with
  | None => []
  | Some f => fname f
  end.

(** [SetPhase] *)
Definition SetPhase (phase_ : Phase) : M (St Logger) unit :=
  modify (fun st =>
    mkSt (mkLogger (file (self st)) (startTime (self st)) phase_) (env st)).

(** [Print] *)
Definition Print (msg : gostring) : M (St Logger) unit :=
  now ← time_Now;
  let timestamp := time.Format now timestampFormat in
  writeFile (str "[" ++ timestamp ++ str "] " ++ msg ++ [nl]).

(** [PrintRaw] *)
Definition PrintRaw (msg : gostring) : M (St Logger) unit :=
  writeFile msg.

(** [PrintSection] *)
Definition PrintSection (section : Section_) : M (St Logger) unit :=
  let header := [nl] ++ str "--- " ++ Label section ++ str " ---" ++ [nl] in
  writeFile header.

(** [Error] *)
Definition Error (msg : gostring) : M (St Logger) unit :=
  now ← time_Now;
  let timestamp := time.Format now timestampFormat in
  writeFile (str "[" ++ timestamp ++ str "] ERROR: " ++ msg ++ [nl]).

(** [Warn] *)
Definition Warn (msg : gostring) : M (St Logger) unit :=
  now ← time_Now;
  let timestamp := time.Format now timestampFormat in
  writeFile (str "[" ++ timestamp ++ str "] WARN: " ++ msg ++ [nl]).

(** [LogQuestion] *)
Definition LogQuestion (question : gostring) (options : list gostring)
  : M (St Logger) unit :=
  now ← time_Now;
  let timestamp := time.Format now timestampFormat in
  writeFile (str "[" ++ timestamp ++ str "] QUESTION: " ++ question ++ [nl]) ;;
  writeFile (str "[" ++ timestamp ++ str "] OPTIONS: "
             ++ strings.Join options (str ", ") ++ [nl]).

(** [LogAnswer] *)
Definition LogAnswer (answer : gostring) : M (St Logger) unit :=
  now ← time_Now;
  let timestamp := time.Format now timestampFormat in
  writeFile (str "[" ++ timestamp ++ str "] ANSWER: " ++ answer ++ [nl]).

(** *** [NewLogger] *)

(** [filepath.Dir]. *)
Variable filepath_Dir : gostring -> gostring.

(** The header that [NewLogger] writes. *)
Definition writeHeader (cfg : Config) : M (St Logger) unit :=
  let planStr :=
    if streq (PlanFile cfg) [] then str "(no plan - review only)"
    else PlanFile cfg in
  writeFile (str "# Ralphex Progress Log" ++ [nl]) ;;
  writeFile (str "Plan: " ++ planStr ++ [nl]) ;;
  writeFile (str "Branch: " ++ Branch cfg ++ [nl]) ;;
  writeFile (str "Mode: " ++ Mode cfg ++ [nl]) ;;
  now ← time_Now;
  writeFile (str "Started: " ++ time.Format now time.DateTime ++ [nl]) ;;
  writeFile (strings.Repeat (str "-") 60 ++ [nl; nl]).

(** [NewLogger]: the logger, or the error. *)
Definition NewLogger (cfg : Config) (sys : Syscalls) (e : Env)
  : (Logger + gostring) * Env :=
  let progressPath :=
    progressFilename (PlanFile cfg) (PlanDescription cfg) (Mode cfg) in
  (* ensure progress files are tracked by creating parent dir *)
  match (if negb (streq (filepath_Dir progressPath) (str "."))
         then mkdirErr sys else None) with
  | Some err => (inr (str "create progress dir: " ++ err), e)
  | None =>
    match createErr sys with
    | Some err => (inr (str "create progress file: " ++ err), e)
    | None =>
      let f := os_Create progressPath in
      (* acquire exclusive lock on progress file *)
      match flockErr sys with
      | Some err =>
        let '(_, _) := File_Close f in
        (inr (str "acquire file lock: " ++ err), e)
      | None =>
        let f := LockFile f in
        let e := RegisterActiveLock (fname f) e in
        let '(now, st) := time_Now (mkSt tt e) in
        let l := mkLogger (Some f) now PhaseTask in
        let '(_, st) := writeHeader cfg (mkSt l (env st)) in
        (inl (self st), env st)
      end
    end
  end.

End WithLibraries.

End progress.

(* ================================================================== *)
(** ** Package [tui]                                                   *)
(* ================================================================== *)
Module tui.

(** *** Channels

    A [chan string] is a reference into the store of channels, which the
    collector, the messages and the model share. *)
Abbreviation chanref := nat (only parsing).

Record Chan := mkChan {
  buf : list gostring;      (* buffered values, oldest first *)
  cap : nat;
  closed : bool
}.

Abbreviation Chans := (gmap nat Chan) (only parsing).

(** *** Messages ([messages.go]) *)
Inductive Msg :=
| KeyMsg (key : gostring)                       (* tea.KeyMsg, by its String() *)
| OutputMsg (Text : gostring)
| SectionMsg (Section : Section_)
| PhaseChangeMsg (Phase_ : Phase)
| QuestionMsg (Question : gostring) (Options : list gostring)
              (answerCh : chanref)
| ExecutionDoneMsg (Err : option gostring)
| ErrorMsg (Err : option gostring)
| PlanSelectedMsg (Path : gostring)
| PlanCreatedMsg (Description : gostring)
| StartupInfoMsg (PlanFile Branch : gostring).

(** *** [Sender] and [SafeSender] ([logger.go]) *)

(** The interface [Sender]: [Send] acts on the state of the receiver. *)
Class Sender (T : Type) := Send : Msg -> T -> T.

(** The [mockSender] of the tests: it records what it is sent. *)
Definition mockSender := list Msg.
#[global] Instance mockSender_Sender : Sender mockSender :=
  fun msg msgs => msgs ++ [msg].

(** A [sync.RWMutex]: the number of read locks held, and whether the
    write lock is held. *)
Record RWMutex := mkRWMutex { readers : nat; writer : bool }.

(** The lock operations; [None] when the caller would have to wait. *)
Definition RLock (mu : RWMutex) : option RWMutex :=
  if writer mu then None else Some (mkRWMutex (S (readers mu)) false).
Definition RUnlock (mu : RWMutex) : RWMutex :=
  mkRWMutex (Nat.pred (readers mu)) (writer mu).
Definition Lock (mu : RWMutex) : option RWMutex :=
  if writer mu || negb (readers mu =? 0)%nat then None
  else Some (mkRWMutex 0 true).
Definition Unlock (mu : RWMutex) : RWMutex := mkRWMutex (readers mu) false.

Record SafeSender (T : Type) := mkSafeSender {
  sender : T;
  mu : RWMutex;
  stopped : bool
}.
Arguments mkSafeSender {T} _ _ _.
Arguments sender {T} _.
Arguments mu {T} _.
Arguments stopped {T} _.

Definition NewSafeSender {T} (sender : T) : SafeSender T :=
  mkSafeSender sender (mkRWMutex 0 false) false.

(** [SafeSender.Send], run without interruption; [None] when the
    read lock is not to be had. *)
Definition SafeSender_Send {T} `{Sender T} (msg : Msg) (s : SafeSender T)
  : option (SafeSender T) :=
  match RLock (mu s) with
  | None => None
  | Some m =>
    let s := mkSafeSender (sender s) m (stopped s) in
    let s :=
      if stopped s then s
      else mkSafeSender (Send msg (sender s)) (mu s) (stopped s) in
    (* deferred *)
    Some (mkSafeSender (sender s) (RUnlock (mu s)) (stopped s))
  end.

(** [SafeSender.Stop], run without interruption. *)
Definition Stop {T} (s : SafeSender T) : option (SafeSender T) :=
  match Lock (mu s) with
  | None => None
  | Some m =>
    let s := mkSafeSender (sender s) m true in
    (* deferred *)
    Some (mkSafeSender (sender s) (Unlock (mu s)) (stopped s))
  end.

(** *** The TUI logger ([logger.go]) *)

Record LoggerConfig := mkLoggerConfig {
  PlanFile : gostring;
  PlanDescription : gostring;
  Mode : gostring;
  Branch : gostring
}.

Record teaLogger (T : Type) := mkTeaLogger {
  file : option File;
  lsender : T;                 (* the field [sender] *)
  startTime : time.Time;
  phase : Phase
}.
Arguments mkTeaLogger {T} _ _ _ _.
Arguments file {T} _.
Arguments lsender {T} _.
Arguments startTime {T} _.
Arguments phase {T} _.

Definition timestampFormat : list time.chunk :=
  [time.stdYear; time.lit "-"; time.stdZeroMonth; time.lit "-";
   time.stdZeroDay; time.lit " "; time.stdHour; time.lit ":";
   time.stdZeroMinute; time.lit ":"; time.stdZeroSecond].

Section WithLibraries.

Variable caseLower : rune -> rune.
Variable filepath_Abs : gostring -> option gostring.
Variable filepath_Clean : gostring -> gostring.

Context {T : Type} `{Sender T}.

Definition writeFile (s : gostring) : M (St (teaLogger T)) unit :=
  modify (fun st =>
    let l := self st in
    match file l with
    | Some f =>
      mkSt (mkTeaLogger (Some (File_write s f)) (lsender l)
                        (startTime l) (phase l)) (env st)
    | None => st
    end).

(** [l.sender.Send(msg)] *)
Definition send (msg : Msg) : M (St (teaLogger T)) unit :=
  modify (fun st =>
    let l := self st in
    mkSt (mkTeaLogger (file l) (Send msg (lsender l))
                      (startTime l) (phase l)) (env st)).

Fixpoint numberedLoop (line : gostring) (its : list (nat * rune)) : bool :=
  match its with
  | [] => false
  | (i, r) :: rest =>
    if (48 <=? r) && (r <=? 57) then numberedLoop line rest
    else
      (r =? 46) && (0 <? i)%nat
      && (Z.of_nat i <? Z.of_nat (length line) - 1)
      && bool_decide (line !! (i + 1)%nat = Some " "%char)
  end.

Definition isListItem (line : gostring) : bool :=
  if strings.HasPrefix line (str "- ") || strings.HasPrefix line (str "* ")
  then true
  else numberedLoop line (utf8.range line).

Definition formatListItem (line : gostring) : gostring :=
  let trimmed := strings.TrimLeft line [" "%char; tab] in
  if streq trimmed line then
    if isListItem trimmed then str "  " ++ line else line
  else line.

(** The loop of [PrintAligned]; [outputLines] is threaded through. *)
Fixpoint printLines (lines : list gostring) (outputLines : list gostring)
  : M (St (teaLogger T)) (list gostring) :=
  match lines with
  | [] => mret outputLines
  | line :: rest =>
    if streq line [] then printLines rest outputLines
    else
      let displayLine := formatListItem line in
      now ← time_Now;
      let timestamp := time.Format now timestampFormat in
      writeFile (str "[" ++ timestamp ++ str "] " ++ displayLine ++ [nl]) ;;
      printLines rest
        (outputLines ++ [str "[" ++ timestamp ++ str "] " ++ displayLine])
  end.

Definition PrintAligned (text : gostring) : M (St (teaLogger T)) unit :=
  if streq text [] then mret tt
  else
    let text := strings.TrimRight text [nl] in
    if streq text [] then mret tt
    else
      let lines := strings.Split text nl in
      outputLines ← printLines lines [];
      if (0 <? length outputLines)%nat
      then send (OutputMsg (strings.Join outputLines [nl]))
      else mret tt.

Definition Close : M (St (teaLogger T)) (option gostring) :=
  st ← get;
  match file (self st) with
  | None => mret None
  | Some _ =>
    writeFile ([nl] ++ strings.Repeat (str "-") 60 ++ [nl]) ;;
    now ← time_Now;
    writeFile (str "Completed: " ++ time.Format now time.DateTime ++ [nl]) ;;
    (* release file lock before closing *)
    modify (fun st =>
      let l := self st in
      match file l with
      | Some f =>
        mkSt (mkTeaLogger (Some (progress.UnlockFile f)) (lsender l)
                          (startTime l) (phase l))
             (progress.UnregisterActiveLock filepath_Abs filepath_Clean
                (fname f) (env st))
      | None => st
      end) ;;
    st ← get;
    match file (self st) with
    | None => mret None
    | Some f =>
      let '(err, f') := File_Close f in
      modify (fun st =>
        let l := self st in
        mkSt (mkTeaLogger (Some f') (lsender l) (startTime l) (phase l))
             (env st)) ;;
      match err with
      | Some e => mret (Some (str "close progress file: " ++ e))
      | None => mret None
      end
    end
  end.

(** *** The other methods of [teaLogger]

    A method that takes a format and arguments is modelled on the
    message [fmt.Sprintf(format, args...)] it starts with. *)

(** [Path] *)
Definition Path (l : teaLogger T) : gostring :=
  match file l with
  | None => []
  | Some f => fname f
  end.

(** [SetPhase] *)
Definition SetPhase (phase_ : Phase) : M (St (teaLogger T)) unit :=
  modify (fun st =>
    let l := self st in
    mkSt (mkTeaLogger (file l) (lsender l) (startTime l) phase_) (env st)) ;;
  send (PhaseChangeMsg phase_).

(** [Print] *)
Definition Print (msg : gostring) : M (St (teaLogger T)) unit :=
  now ← time_Now;
  let timestamp := time.Format now timestampFormat in
  writeFile (str "[" ++ timestamp ++ str "] " ++ msg ++ [nl]) ;;
  send (OutputMsg (str "[" ++ timestamp ++ str "] " ++ msg)).

(** [PrintRaw] *)
Definition PrintRaw (msg : gostring) : M (St (teaLogger T)) unit :=
  writeFile msg ;;
  send (OutputMsg msg).

(** [PrintSection] *)
Definition PrintSection (section : Section_) : M (St (teaLogger T)) unit :=
  let header := [nl] ++ str "--- " ++ Label section ++ str " ---" ++ [nl] in
  writeFile header ;;
  send (SectionMsg section).

(** [LogQuestion] *)
Definition LogQuestion (question : gostring) (options : list gostring)
  : M (St (teaLogger T)) unit :=
  now ← time_Now;
  let timestamp := time.Format now timestampFormat in
  writeFile (str "[" ++ timestamp ++ str "] QUESTION: " ++ question ++ [nl]) ;;
  writeFile (str "[" ++ timestamp ++ str "] OPTIONS: "
             ++ strings.Join options (str ", ") ++ [nl]) ;;
  send (OutputMsg (str "[" ++ timestamp ++ str "] QUESTION: " ++ question)) ;;
  send (OutputMsg (str "[" ++ timestamp ++ str "] OPTIONS: "
                   ++ strings.Join options (str ", "))).

(** [LogAnswer] *)
Definition LogAnswer (answer : gostring) : M (St (teaLogger T)) unit :=
  now ← time_Now;
  let timestamp := time.Format now timestampFormat in
  writeFile (str "[" ++ timestamp ++ str "] ANSWER: " ++ answer ++ [nl]) ;;
  send (OutputMsg (str "[" ++ timestamp ++ str "] ANSWER: " ++ answer)).

(** *** File names, mirrored from package [progress] *)

Fixpoint collapseLoop (fuel : nat) (result : gostring) : gostring :=
  match fuel with
  | O => result
  | S f =>
    if strings.Contains result (str "--")
    then collapseLoop f (strings.ReplaceAll result (str "--") (str "-"))
    else result
  end.

Definition keepRune (r : rune) : bool :=
  ((97 <=? r) && (r <=? 122)) || ((48 <=? r) && (r <=? 57)) || (r =? 45).

Definition sanitizePlanName (desc : gostring) : gostring :=
  let result := strings.ToLower caseLower desc in
  let result := strings.ReplaceAll result (str " ") (str "-") in
  let clean :=
    flat_map (fun ir => if keepRune ir.2 then utf8.EncodeRune ir.2 else [])
             (utf8.range result) in
  let result := clean in
  let result := collapseLoop (length result) result in
  let result := strings.Trim result (str "-") in
  let result :=
    if (50 <? length result)%nat
    then strings.TrimRight (take 50 result) (str "-")
    else result in
  if streq result [] then str "unnamed" else result.

Definition progressFilename (planFile planDescription mode : gostring)
  : gostring :=
  if streq mode (str "plan") && negb (streq planDescription []) then
    let sanitized := sanitizePlanName planDescription in
    str "progress-plan-" ++ sanitized ++ str ".txt"
  else if negb (streq planFile []) then
    let stem := strings.TrimSuffix (filepath.Base planFile) (str ".md") in
    if streq mode (str "codex-only") then
      str "progress-" ++ stem ++ str "-codex.txt"
    else if streq mode (str "review") then
      str "progress-" ++ stem ++ str "-review.txt"
    else
      str "progress-" ++ stem ++ str ".txt"
  else if streq mode (str "codex-only") then str "progress-codex.txt"
  else if streq mode (str "review") then str "progress-review.txt"
  else if streq mode (str "plan") then str "progress-plan.txt"
  else str "progress.txt".

(** *** [NewLogger] *)

(** [filepath.Dir]. *)
Variable filepath_Dir : gostring -> gostring.

(** The header that [NewLogger] writes to the file. *)
Definition writeHeader (cfg : LoggerConfig) : M (St (teaLogger T)) unit :=
  let planStr :=
    if streq (PlanFile cfg) [] then str "(no plan - review only)"
    else PlanFile cfg in
  writeFile (str "# Ralphex Progress Log" ++ [nl]) ;;
  writeFile (str "Plan: " ++ planStr ++ [nl]) ;;
  writeFile (str "Branch: " ++ Branch cfg ++ [nl]) ;;
  writeFile (str "Mode: " ++ Mode cfg ++ [nl]) ;;
  now ← time_Now;
  writeFile (str "Started: " ++ time.Format now time.DateTime ++ [nl]) ;;
  writeFile (strings.Repeat (str "-") 60 ++ [nl; nl]).

(** [NewLogger]: the logger, or the error. *)
Definition NewLogger (cfg : LoggerConfig) (sender_ : T) (sys : Syscalls)
  (e : Env) : (teaLogger T + gostring) * Env :=
  let progressPath :=
    progressFilename (PlanFile cfg) (PlanDescription cfg) (Mode cfg) in
  (* ensure progress files dir exists *)
  match (if negb (streq (filepath_Dir progressPath) (str "."))
         then mkdirErr sys else None) with
  | Some err => (inr (str "create progress dir: " ++ err), e)
  | None =>
    match createErr sys with
    | Some err => (inr (str "create progress file: " ++ err), e)
    | None =>
      let f := os_Create progressPath in
      (* acquire exclusive lock on progress file to signal active session *)
      match flockErr sys with
      | Some err =>
        let '(_, _) := File_Close f in
        (inr (str "acquire file lock: " ++ err), e)
      | None =>
        let f := progress.LockFile f in
        let e := progress.RegisterActiveLock filepath_Abs filepath_Clean
                   (fname f) e in
        let '(now, st) := time_Now (mkSt tt e) in
        let l := mkTeaLogger (Some f) sender_ now PhaseTask in
        let '(_, st) := writeHeader cfg (mkSt l (env st)) in
        (inl (self st), env st)
      end
    end
  end.

End WithLibraries.

(** *** The model ([tui.go]) *)

Inductive State :=
| StateSelectPlan | StateCreatePlan | StateExecuting
| StateQuestion | StateDone.

(** [tea.Cmd], as far as the model returns one: nil or [tea.Quit]. *)
Inductive Cmd := CmdNil | Quit.

(** The viewport of package bubbles, through the two methods
    [appendOutput] calls. *)
Class Viewport (V : Type) := {
  viewportZero : V;
  SetContent : gostring -> V -> V;
  GotoBottom : V -> V
}.

(** The fields of [Model] that the methods below read or write (the
    others belong to the plan list, the text area and the styles). *)
Record Model (V : Type) := mkModel {
  viewport : V;
  mphase : option Phase;       (* the field [phase]; [None] before the first phase *)
  output : list gostring;
  state : State;
  err : option gostring;
  autoScroll : bool;
  question : gostring;
  questionOpts : list gostring;
  questionCursor : Z;
  questionCh : option chanref;       (* nil or the answer channel *)
  prevState : State
}.
Arguments mkModel {V} _ _ _ _ _ _ _ _ _ _ _.
Arguments viewport {V} _.
Arguments mphase {V} _.
Arguments output {V} _.
Arguments state {V} _.
Arguments err {V} _.
Arguments autoScroll {V} _.
Arguments question {V} _.
Arguments questionOpts {V} _.
Arguments questionCursor {V} _.
Arguments questionCh {V} _.
Arguments prevState {V} _.

Definition maxOutputLines : Z := 10000.

(** What a step of the event loop comes to: a value, a run-time panic,
    or a wait that nothing ends. *)
Inductive Result (A : Type) :=
| Ok (a : A)
| Panics (msg : gostring)
| Blocks.
Arguments Ok {A} _.
Arguments Panics {A} _.
Arguments Blocks {A}.

(** [ch <- v] *)
Definition chan_send (ch : chanref) (v : gostring) (σ : Chans)
  : Result Chans :=
  match σ !! ch with
  | None => Blocks
  | Some c =>
    if closed c then Panics (str "send on closed channel")
    else if (length (buf c) <? cap c)%nat
    then Ok (<[ch := mkChan (buf c ++ [v]) (cap c) false]> σ)
    else Blocks
  end.

(** [close(ch)] *)
Definition chan_close (ch : chanref) (σ : Chans) : Result Chans :=
  match σ !! ch with
  | None => Panics (str "close of nil channel")
  | Some c =>
    if closed c then Panics (str "close of closed channel")
    else Ok (<[ch := mkChan (buf c) (cap c) true]> σ)
  end.

(** [v, ok := <-ch] when the channel is ready: the oldest buffered
    value, or the zero value and [false] from a closed and drained
    channel; [None] when a receiver would wait. *)
Definition chan_recv (ch : chanref) (σ : Chans)
  : option (gostring * bool * Chans) :=
  match σ !! ch with
  | None => None
  | Some c =>
    match buf c with
    | v :: rest => Some (v, true, <[ch := mkChan rest (cap c) (closed c)]> σ)
    | [] => if closed c then Some ([], false, σ) else None
    end
  end.

Section WithViewport.

Context {V : Type} `{Viewport V}.

Definition NewModel (initialState : State) : Model V :=
  mkModel viewportZero None [] initialState None true
          [] [] 0 None StateSelectPlan.

Definition appendOutput (line : gostring) (m : Model V) : Model V :=
  let output := output m ++ [line] in
  let output :=
    if Z.of_nat (length output) >? maxOutputLines
    then drop (Z.to_nat (Z.of_nat (length output) - maxOutputLines)) output
    else output in
  let vp := SetContent (strings.Join output [nl]) (viewport m) in
  let vp := if autoScroll m then GotoBottom vp else vp in
  mkModel vp (mphase m) output (state m) (err m) (autoScroll m)
          (question m) (questionOpts m) (questionCursor m)
          (questionCh m) (prevState m).

(** [handleQuestion], on the fields of a [QuestionMsg]. *)
Definition handleQuestion (q : gostring) (opts : list gostring)
           (answerCh : chanref) (m : Model V) : Model V :=
  mkModel (viewport m) (mphase m) (output m) StateQuestion (err m)
          (autoScroll m) q opts 0 (Some answerCh) (state m).

Definition setCursor (z : Z) (m : Model V) : Model V :=
  mkModel (viewport m) (mphase m) (output m) (state m) (err m)
          (autoScroll m) (question m) (questionOpts m) z
          (questionCh m) (prevState m).

Definition setQuestionCh (ch : option chanref) (m : Model V) : Model V :=
  mkModel (viewport m) (mphase m) (output m) (state m) (err m)
          (autoScroll m) (question m) (questionOpts m) (questionCursor m)
          ch (prevState m).

(** [updateQuestion], on the key's name and the store of channels. *)
Definition updateQuestion (key : gostring) (m : Model V) (σ : Chans)
  : Result (Model V * Cmd * Chans) :=
  if streq key (str "up") || streq key (str "k") then
    Ok (if questionCursor m >? 0
        then setCursor (questionCursor m - 1) m else m, CmdNil, σ)
  else if streq key (str "down") || streq key (str "j") then
    Ok (if questionCursor m <? Z.of_nat (length (questionOpts m)) - 1
        then setCursor (questionCursor m + 1) m else m, CmdNil, σ)
  else if streq key (str "enter") then
    match questionCh m with
    | Some ch =>
      if (0 <? length (questionOpts m))%nat then
        if questionCursor m <? 0 then Panics (str "index out of range")
        else
        match questionOpts m !! Z.to_nat (questionCursor m) with
        | None => Panics (str "index out of range")
        | Some answer =>
          match chan_send ch answer σ with
          | Ok σ' =>
            Ok (mkModel (viewport m) (mphase m) (output m) (prevState m)
                        (err m) (autoScroll m) [] [] (questionCursor m)
                        None (prevState m), CmdNil, σ')
          | Panics msg => Panics msg
          | Blocks => Blocks
          end
        end
      else Ok (m, CmdNil, σ)
    | None => Ok (m, CmdNil, σ)
    end
  else if streq key (str "ctrl+c") then
    (* close question channel to unblock any waiting goroutines *)
    match questionCh m with
    | Some ch =>
      match chan_close ch σ with
      | Ok σ' => Ok (setQuestionCh None m, Quit, σ')
      | Panics msg => Panics msg
      | Blocks => Blocks
      end
    | None => Ok (m, Quit, σ)
    end
  else Ok (m, CmdNil, σ).

End WithViewport.

(** *** The result of the plan selection ([tui.go], [messages.go]) *)

(** [PlanSelectionResult]; its fields [Path], [Description] and
    [Err]. *)
Record PlanSelectionResult := mkPlanSelectionResult {
  rPath : gostring;
  rDescription : gostring;
  rErr : option gostring
}.

Definition ErrNoPlansFound : gostring := str "no plans found".
Definition ErrUserCanceled : gostring := str "user canceled".

(** A [chan PlanSelectionResult], and the store of these channels.  A
    value handed to a receiver that waits is taken as buffered and
    received at once, which a channel with a buffer allows. *)
Record ResultChan := mkResultChan {
  rbuf : list PlanSelectionResult;
  rcap : nat;
  rclosed : bool
}.

Abbreviation ResultChans := (gmap nat ResultChan) (only parsing).

(** The model with its field [planResultCh], which the record [Model]
    above leaves out. *)
Record PlanModel (V : Type) := mkPlanModel {
  pmodel : Model V;
  planResultCh : option chanref
}.
Arguments mkPlanModel {V} _ _.
Arguments pmodel {V} _.
Arguments planResultCh {V} _.

Section PlanResult.

Context {V : Type}.

Definition setState (s : State) (m : Model V) : Model V :=
  mkModel (viewport m) (mphase m) (output m) s (err m) (autoScroll m)
          (question m) (questionOpts m) (questionCursor m) (questionCh m)
          (prevState m).

Definition setErr (e : option gostring) (m : Model V) : Model V :=
  mkModel (viewport m) (mphase m) (output m) (state m) e (autoScroll m)
          (question m) (questionOpts m) (questionCursor m) (questionCh m)
          (prevState m).

(** [deliverPlanResult]: the send is the one of a [select] with a
    [default] case. *)
Definition deliverPlanResult (result : PlanSelectionResult)
  (pm : PlanModel V) (ρ : ResultChans) : Result (PlanModel V * ResultChans) :=
  let done ρ' :=
    Ok (mkPlanModel (setState StateExecuting (pmodel pm)) None, ρ') in
  match planResultCh pm with
  | Some ch =>
    match ρ !! ch with
    | None => done ρ                         (* a nil channel is never ready *)
    | Some c =>
      if rclosed c then Panics (str "send on closed channel")
      else if (length (rbuf c) <? rcap c)%nat
      then done (<[ch := mkResultChan (rbuf c ++ [result]) (rcap c) false]> ρ)
      else done ρ                            (* channel full, ignore *)
    end
  | None => Ok (mkPlanModel (setState StateExecuting (pmodel pm)) None, ρ)
  end.

(** [deliverPlanError]: the send waits for room. *)
Definition deliverPlanError (err_ : gostring) (pm : PlanModel V)
  (ρ : ResultChans) : Result (PlanModel V * ResultChans) :=
  match planResultCh pm with
  | Some ch =>
    match ρ !! ch with
    | None => Blocks
    | Some c =>
      if rclosed c then Panics (str "send on closed channel")
      else if (length (rbuf c) <? rcap c)%nat
      then Ok (mkPlanModel (pmodel pm) None,
               <[ch := mkResultChan
                         (rbuf c ++ [mkPlanSelectionResult [] [] (Some err_)])
                         (rcap c) false]> ρ)
      else Blocks
    end
  | None => Ok (pm, ρ)
  end.

(** The cases of [updateMsg], [updateInitPlanList] and [updatePlanList]
    that touch [planResultCh], as far as they touch the model and the
    channel (the three that deliver an error go on to return
    [tea.Quit]). *)
Inductive PlanEvent :=
| PlanSelectionRequestMsg (ResultCh : chanref)
| PlanSelected (Path : gostring)             (* PlanSelectedMsg *)
| PlanCreated (Description : gostring)       (* PlanCreatedMsg *)
| PlanListFailed (err_ : gostring)           (* initPlanListMsg with an error *)
| QuitOnEmptyList                            (* q or ctrl+c, no plans found *)
| CancelPlanList.                            (* ctrl+c in the plan list *)

Definition updatePlan (ev : PlanEvent) (pm : PlanModel V) (ρ : ResultChans)
  : Result (PlanModel V * ResultChans) :=
  match ev with
  | PlanSelectionRequestMsg ch => Ok (mkPlanModel (pmodel pm) (Some ch), ρ)
  | PlanSelected path =>
    deliverPlanResult (mkPlanSelectionResult path [] None) pm ρ
  | PlanCreated description =>
    deliverPlanResult (mkPlanSelectionResult [] description None) pm ρ
  | PlanListFailed e =>
    deliverPlanError e
      (mkPlanModel (setErr (Some e) (pmodel pm)) (planResultCh pm)) ρ
  | QuitOnEmptyList => deliverPlanError ErrNoPlansFound pm ρ
  | CancelPlanList => deliverPlanError ErrUserCanceled pm ρ
  end.

End PlanResult.

(** *** The plan list ([plan_list.go]) *)

(** [bufio.MaxScanTokenSize] *)
Definition MaxScanTokenSize : nat := 64 * 1024.

(** [dropCR] of package [bufio]: a carriage return at the end is
    dropped. *)
Definition dropCR (data : gostring) : gostring :=
  match reverse data with
  | c :: r => if bool_decide (c = "013"%char) then reverse r else data
  | [] => data
  end.

(** The tokens that the calls of [scanner.Scan] yield for a
    [bufio.Scanner] with its default split function [ScanLines], on
    the pieces that the newlines cut the data into: each line without
    its newline and without a carriage return before it; nothing for
    what follows the last newline if that is empty.  The scan stops
    at a line that, with its newline, does not fit the buffer of
    [MaxScanTokenSize] bytes. *)
Fixpoint scanTokens (pieces : list gostring) : list gostring :=
  match pieces with
  | [] => []
  | piece :: rest =>
    match rest with
    | [] =>
      if streq piece [] then []
      else if (length piece <? MaxScanTokenSize)%nat then [dropCR piece]
      else []
    | _ =>
      if (length piece <? MaxScanTokenSize)%nat
      then dropCR piece :: scanTokens rest
      else []
    end
  end.

Definition scanLines (data : gostring) : list gostring :=
  scanTokens (strings.Split data nl).

Section PlanList.

(** [strings.TrimSpace], over the Unicode tables of white space. *)
Variable strings_TrimSpace : gostring -> gostring.

(** The loop of [readFirstLine] over the lines [scanner.Text()]. *)
Fixpoint firstLineLoop (lines : list gostring) (inFrontmatter firstLine : bool)
  : gostring :=
  match lines with
  | [] => []
  | text :: rest =>
    let line := strings_TrimSpace text in
    let further (inFrontmatter : bool) :=
      (* firstLine = false *)
      if inFrontmatter || streq line [] then firstLineLoop rest inFrontmatter false
      else
        (* strip markdown heading prefix *)
        let line := strings.TrimLeft line (str "#") in
        let line := strings_TrimSpace line in
        if negb (streq line []) then line
        else firstLineLoop rest inFrontmatter false in
    (* handle YAML frontmatter: skip everything between opening and closing --- *)
    if streq line (str "---") then
      if firstLine then firstLineLoop rest true false
      else if inFrontmatter then firstLineLoop rest false false
      else further inFrontmatter
    else further inFrontmatter
  end.

(** [readFirstLine]; [file] is the content of the file at the path,
    [None] when [os.Open] fails. *)
Definition readFirstLine (file : option gostring) : gostring :=
  match file with
  | None => []
  | Some data => firstLineLoop (scanLines data) false true
  end.

End PlanList.

(** *** The input collector ([input_collector.go]) *)

Record teaCollector (T : Type) := mkTeaCollector {
  csender : T;                 (* the field [sender] *)
  answerCh : chanref
}.
Arguments mkTeaCollector {T} _ _.
Arguments csender {T} _.
Arguments answerCh {T} _.

(** Where a call of [AskQuestion] stands: it has published the
    question and is about to select; it is parked in the select; it has
    returned its answer and its error ([None] is nil). *)
Inductive Asking :=
| AtSelect
| Parked
| Returned (answer : gostring) (err : option gostring).

Section WithSender.

Context {T : Type} `{Sender T}.

(** [make(chan string, 1)] takes a fresh reference. *)
Definition NewCollector (sender : T) (σ : Chans)
  : teaCollector T * Chans :=
  let ch := fresh (dom σ) in
  (mkTeaCollector sender ch, <[ch := mkChan [] 1 false]> σ).

(** [AskQuestion] up to its second [select]: the check of the
    options, the drain of a stale answer, the send of the
    [QuestionMsg]. *)
Definition AskQuestion_publish (question : gostring)
           (options : list gostring) (c : teaCollector T) (σ : Chans)
  : Asking * teaCollector T * Chans :=
  if (length options =? 0)%nat
  then (Returned [] (Some (str "no options provided")), c, σ)
  else
    let σ := match chan_recv (answerCh c) σ with
             | Some (_, _, σ') => σ'
             | None => σ
             end in
    let c := mkTeaCollector
               (Send (QuestionMsg question options (answerCh c)) (csender c))
               (answerCh c) in
    (AtSelect, c, σ).

(** The second [select].  [ctx] is the error of the context once it
    is done; when both cases are ready the run time picks one, here
    by [coin]; when none is, the call parks. *)
Definition AskQuestion_select (coin : bool) (ctx : option gostring)
           (c : teaCollector T) (σ : Chans) : Asking * Chans :=
  let onDone e := (Returned [] (Some (str "ask question: " ++ e)), σ) in
  let onRecv (r : gostring * bool * Chans) :=
    let '(answer, ok, σ') := r in
    if ok then (Returned answer None, σ')
    else (Returned [] (Some (str "question canceled")), σ') in
  match ctx, chan_recv (answerCh c) σ with
  | Some e, Some r => if coin then onDone e else onRecv r
  | Some e, None => onDone e
  | None, Some r => onRecv r
  | None, None => (Parked, σ)
  end.

(** A parked call is woken by the case that became ready first: the
    channel (a value was sent or the channel closed) or the
    context. *)
Definition AskQuestion_wakeRecv (c : teaCollector T) (σ : Chans)
  : Asking * Chans :=
  match chan_recv (answerCh c) σ with
  | Some (answer, ok, σ') =>
    if ok then (Returned answer None, σ')
    else (Returned [] (Some (str "question canceled")), σ')
  | None => (Parked, σ)
  end.

Definition AskQuestion_wakeDone (e : gostring) (σ : Chans)
  : Asking * Chans :=
  (Returned [] (Some (str "ask question: " ++ e)), σ).

(** [AskYesNo] asks with the options [Yes] and [No]; [AskYesNo_return]
    is what it makes of the answer and the error of [AskQuestion]. *)
Definition AskYesNo_publish (question : gostring) (c : teaCollector T)
           (σ : Chans) : Asking * teaCollector T * Chans :=
  AskQuestion_publish question [str "Yes"; str "No"] c σ.

Definition AskYesNo_return (answer : gostring) (err : option gostring)
  : bool * option gostring :=
  match err with
  | Some e => (false, Some e)
  | None => (streq answer (str "Yes"), None)
  end.

End WithSender.

End tui.

(* ================================================================== *)
(** ** Package [git], as package [main] calls it                       *)
(* ================================================================== *)
Module git.

(** A result with an error: [(v, nil)] or [(_, err)]. *)
Inductive Res (A : Type) :=
| Val (a : A)
| Fail (err : gostring).
Arguments Val {A} _.
Arguments Fail {A} _.

(** The methods of [*git.Repo] that package [main] calls, over the
    states [G] of a repository.
    Modelled from the spec: package [git] is not among the sources; the
    spec has it manage source-control state (feature branches, plan
    archival).  A query answers and leaves the repository as it is; a
    command returns its error ([None] is nil) and the repository after
    it. *)
Class Repo (G : Type) := {
  CurrentBranch : G -> Res gostring;
  HasCommits : G -> Res bool;
  HasChangesOtherThan : gostring -> G -> Res bool;
  FileHasChanges : gostring -> G -> Res bool;
  BranchExists : gostring -> G -> bool;
  CheckoutBranch : gostring -> G -> option gostring * G;
  CreateBranch : gostring -> G -> option gostring * G;
  Add : gostring -> G -> option gostring * G;
  Commit : gostring -> G -> option gostring * G;
  CreateInitialCommit : gostring -> G -> option gostring * G
}.

End git.

(* ================================================================== *)
(** ** Package [main] ([cmd/ralphex/main.go])                          *)
(* ================================================================== *)
Module main.

(** [processor.Mode].
    Modelled from the spec: package [processor] is not among the
    sources; the spec lists the modes Full, Review, CodexOnly, Plan. *)
Inductive Mode := ModeFull | ModeReview | ModeCodexOnly | ModePlan.

Record opts := mkOpts {
  MaxIterations : Z;
  Review : bool;
  CodexOnly : bool;
  PlanDescription : gostring;
  Debug : bool;
  NoColor : bool;
  Version : bool;
  Serve : bool;
  Port : Z;
  Watch : list gostring;
  Reset : bool;
  PlanFile : gostring
}.

Definition determineMode (o : opts) : Mode :=
  if negb (streq (PlanDescription o) []) then ModePlan
  else if CodexOnly o then ModeCodexOnly
  else if Review o then ModeReview
  else ModeFull.

(** [validateFlags]; [None] is the nil error. *)
Definition validateFlags (o : opts) : option gostring :=
  if negb (streq (PlanDescription o) []) && negb (streq (PlanFile o) [])
  then Some (str "--plan flag conflicts with plan file argument; use one or the other")
  else None.

Definition mode_eqb (a b : Mode) : bool :=
  match a, b with
  | ModeFull, ModeFull | ModeReview, ModeReview
  | ModeCodexOnly, ModeCodexOnly | ModePlan, ModePlan => true
  | _, _ => false
  end.

Definition determineInitialTUIState (o : opts) (mode : Mode) : tui.State :=
  if mode_eqb mode ModePlan then tui.StateExecuting
  else if negb (streq (PlanFile o) []) then tui.StateExecuting
  else if Review o || CodexOnly o then tui.StateExecuting
  else tui.StateSelectPlan.

(** [datePrefixRe = regexp.MustCompile(`^[\d-]+`)].  The class holds
    the ASCII digits and the dash. *)
Definition datePrefixClass (c : ascii) : bool :=
  ((48 <=? byteZ c) && (byteZ c <=? 57)) || (byteZ c =? 45).

(** The leftmost match of [datePrefixRe] in [s], by its length: the
    pattern is anchored at the start of the text and its repetition is
    greedy; there is no match unless the first byte is in the class. *)
Definition datePrefixRe_match (s : gostring) : option nat :=
  let n := length (strings.takeWhile datePrefixClass s) in
  if (n =? 0)%nat then None else Some n.

(** [datePrefixRe.ReplaceAllString(src, repl)]: after a match at the
    start no other position satisfies the anchor. *)
Definition datePrefixRe_ReplaceAllString (src repl : gostring) : gostring :=
  match datePrefixRe_match src with
  | Some n => repl ++ drop n src
  | None => src
  end.

Definition extractBranchName (planFile : gostring) : gostring :=
  let name := strings.TrimSuffix (filepath.Base planFile) (str ".md") in
  let branchName :=
    strings.TrimLeft (datePrefixRe_ReplaceAllString name []) (str "-") in
  if streq branchName [] then name else branchName.

(** The loop of [findRecentPlan].  [stat plan] is the modification
    time that [os.Stat] reports, [None] when it fails. *)
Fixpoint recentLoop (stat : gostring -> option time.Instant)
  (startTime : time.Instant) (plans : list gostring)
  (recentPlan : gostring) (recentTime : time.Instant) : gostring :=
  match plans with
  | [] => recentPlan
  | plan :: rest =>
    match stat plan with
    | None => recentLoop stat startTime rest recentPlan recentTime
    | Some modTime =>
      (* file must be modified after startTime *)
      if time.Before modTime startTime
      then recentLoop stat startTime rest recentPlan recentTime
      (* find the most recent one *)
      else if streq recentPlan [] || time.After modTime recentTime
      then recentLoop stat startTime rest plan modTime
      else recentLoop stat startTime rest recentPlan recentTime
    end
  end.

(** [findRecentPlan]; [glob] is what [filepath.Glob] returns for the
    pattern [plansDir/*.md], [None] for its error. *)
Definition findRecentPlan (glob : option (list gostring))
  (stat : gostring -> option time.Instant) (startTime : time.Instant)
  : gostring :=
  match glob with
  | None => []
  | Some plans =>
    if (length plans =? 0)%nat then []
    else recentLoop stat startTime plans [] time.zeroInstant
  end.

(** [isWatchOnlyMode] *)
Definition isWatchOnlyMode (o : opts) (configWatchDirs : list gostring) : bool :=
  Serve o && streq (PlanFile o) [] && streq (PlanDescription o) []
  && ((0 <? length (Watch o))%nat || (0 <? length configWatchDirs)%nat).

(** [isResetOnly] *)
Definition isResetOnly (o : opts) : bool :=
  streq (PlanFile o) [] && negb (Review o) && negb (CodexOnly o)
  && negb (Serve o) && streq (PlanDescription o) []
  && (length (Watch o) =? 0)%nat.

(** [waitForPlanSelection], in three parts.  It makes the result
    channel, [make(chan tui.PlanSelectionResult, 1)], which it sends to
    the TUI in a [PlanSelectionRequestMsg]; then its [select] takes the
    context's end or a result. *)
Definition waitForPlanSelection_register (ρ : tui.ResultChans)
  : nat * tui.ResultChans :=
  let resultCh := fresh (dom ρ) in
  (resultCh, <[resultCh := tui.mkResultChan [] 1 false]> ρ).

(** What the call comes to: it returns an error; it goes into plan
    mode with a description (and returns what plan mode returns); it
    returns a path. *)
Inductive PlanChoice :=
| ChoiceErr (err : gostring)
| ChoicePlanMode (description : gostring)
| ChoicePath (path : gostring).

(** The case [<-ctx.Done()]; [ctxErr] is the text of [ctx.Err()]. *)
Definition waitForPlanSelection_done (ctxErr : gostring) : PlanChoice :=
  ChoiceErr (str "wait for plan selection: " ++ ctxErr).

(** The case [result := <-resultCh]. *)
Definition waitForPlanSelection_received (result : tui.PlanSelectionResult)
  : PlanChoice :=
  match tui.rErr result with
  | Some e => ChoiceErr e
  | None =>
    (* if a plan description was created instead of selection, switch to plan mode *)
    if negb (streq (tui.rDescription result) [])
    then ChoicePlanMode (tui.rDescription result)
    else ChoicePath (tui.rPath result)
  end.

(** *** Git state ([createBranchIfNeeded] and its neighbours) *)

Section WithRepo.

Context {G : Type} `{git.Repo G} {T : Type} `{tui.Sender T}.

(** [strconv.Quote], behind the verb [%q]. *)
Variable strconv_Quote : gostring -> gostring.

(** The error of [createBranchIfNeeded] for a worktree with other
    uncommitted changes. *)
Definition uncommittedChangesError (branchName currentBranch planFile : gostring)
  : gostring :=
  str "cannot create branch " ++ strconv_Quote branchName
  ++ str ": worktree has uncommitted changes" ++ [nl; nl]
  ++ str "ralphex needs to create a feature branch from " ++ currentBranch
  ++ str " to isolate plan work." ++ [nl; nl]
  ++ str "options:" ++ [nl]
  ++ str "  git stash && ralphex " ++ planFile
  ++ str " && git stash pop   # stash changes temporarily" ++ [nl]
  ++ str "  git commit -am " ++ ["034"%char] ++ str "wip" ++ ["034"%char]
  ++ str "                       # commit changes first" ++ [nl]
  ++ str "  ralphex --review                           # skip branch creation (review-only mode)".

(** [createBranchIfNeeded]: the error, the repository and the sender
    after it. *)
Definition createBranchIfNeeded (planFile : gostring) (gitOps : G)
  (sender : T) : option gostring * G * T :=
  match git.CurrentBranch gitOps with
  | git.Fail err => (Some (str "get current branch: " ++ err), gitOps, sender)
  | git.Val currentBranch =>
    if negb (streq currentBranch (str "main"))
       && negb (streq currentBranch (str "master"))
    then (None, gitOps, sender)              (* already on feature branch *)
    else
      let branchName := extractBranchName planFile in
      (* check for uncommitted changes to files other than the plan *)
      match git.HasChangesOtherThan planFile gitOps with
      | git.Fail err =>
        (Some (str "check uncommitted files: " ++ err), gitOps, sender)
      | git.Val true =>
        (Some (uncommittedChangesError branchName currentBranch planFile),
         gitOps, sender)
      | git.Val false =>
        (* check if plan file needs to be committed *)
        match git.FileHasChanges planFile gitOps with
        | git.Fail err =>
          (Some (str "check plan file status: " ++ err), gitOps, sender)
        | git.Val planHasChanges =>
          (* create or switch to branch *)
          let '(switchErr, gitOps, sender) :=
            if git.BranchExists branchName gitOps then
              let sender :=
                tui.Send (tui.OutputMsg (str "switching to existing branch: "
                                         ++ branchName)) sender in
              match git.CheckoutBranch branchName gitOps with
              | (Some err, gitOps) =>
                (Some (str "checkout branch " ++ branchName ++ str ": " ++ err),
                 gitOps, sender)
              | (None, gitOps) => (None, gitOps, sender)
              end
            else
              let sender :=
                tui.Send (tui.OutputMsg (str "creating branch: " ++ branchName))
                         sender in
              match git.CreateBranch branchName gitOps with
              | (Some err, gitOps) =>
                (Some (str "create branch " ++ branchName ++ str ": " ++ err),
                 gitOps, sender)
              | (None, gitOps) => (None, gitOps, sender)
              end in
          match switchErr with
          | Some err => (Some err, gitOps, sender)
          | None =>
            (* auto-commit plan file if it was the only uncommitted file *)
            if planHasChanges then
              let sender :=
                tui.Send (tui.OutputMsg (str "committing plan file: "
                                         ++ filepath.Base planFile)) sender in
              match git.Add planFile gitOps with
              | (Some err, gitOps) =>
                (Some (str "stage plan file: " ++ err), gitOps, sender)
              | (None, gitOps) =>
                match git.Commit (str "add plan: " ++ branchName) gitOps with
                | (Some err, gitOps) =>
                  (Some (str "commit plan file: " ++ err), gitOps, sender)
                | (None, gitOps) => (None, gitOps, sender)
                end
              end
            else (None, gitOps, sender)
          end
        end
      end
  end.

(** [ensureRepoHasCommitsTUI]; [ask] is what [asker.AskYesNo] returns
    for the question [create initial commit?]. *)
Definition ensureRepoHasCommitsTUI (ask : bool * option gostring)
  (gitOps : G) (sender : T) : option gostring * G * T :=
  match git.HasCommits gitOps with
  | git.Fail err => (Some (str "check commits: " ++ err), gitOps, sender)
  | git.Val true => (None, gitOps, sender)
  | git.Val false =>
    (* prompt user via TUI *)
    let sender :=
      tui.Send (tui.OutputMsg (str "repository has no commits")) sender in
    let sender :=
      tui.Send (tui.OutputMsg
                  (str "ralphex needs at least one commit to create feature branches."))
               sender in
    match ask with
    | (_, Some askErr) =>
      (Some (str "create initial commit: " ++ askErr), gitOps, sender)
    | (false, None) =>
      (Some (str "no commits - please create initial commit manually"),
       gitOps, sender)
    | (true, None) =>
      match git.CreateInitialCommit (str "initial commit") gitOps with
      | (Some err, gitOps) =>
        (Some (str "create initial commit: " ++ err), gitOps, sender)
      | (None, gitOps) =>
        (None, gitOps,
         tui.Send (tui.OutputMsg (str "created initial commit")) sender)
      end
    end
  end.

End WithRepo.

End main.


(** ** Runs *)

(** A call on a safe sender. *)
Inductive SenderOp := OpSend (msg : tui.Msg) | OpStop.

(** The calls [ops], one after the other. *)
Fixpoint runSender {T} `{tui.Sender T} (ops : list SenderOp)
  (s : tui.SafeSender T) : option (tui.SafeSender T) :=
  match ops with
  | [] => Some s
  | op :: rest =>
    match (match op with
           | OpSend msg => tui.SafeSender_Send msg s
           | OpStop => tui.Stop s
           end) with
    | Some s' => runSender rest s'
    | None => None
    end
  end.

(** [appendOutput] on each of [lines], in order. *)
Fixpoint appendAll {V} `{tui.Viewport V} (lines : list gostring)
  (m : tui.Model V) : tui.Model V :=
  match lines with
  | [] => m
  | line :: rest => appendAll rest (tui.appendOutput line m)
  end.

(** The last [n] elements of a list. *)
Definition lastN {A} (n : Z) (l : list A) : list A :=
  drop (Z.to_nat (Z.of_nat (length l) - n)) l.

(** The viewport of the examples: its content and whether it stands at the
    bottom. *)
#[global] Instance plainViewport : tui.Viewport (gostring * bool) := {|
  tui.viewportZero := ([], true);
  tui.SetContent := fun s v => (s, v.2);
  tui.GotoBottom := fun v => (v.1, true)
|}.

(** ** Inputs of the examples *)

(** The options [--review] alone: no plan file, no plan description. *)
Definition opts_review_only : main.opts :=
  main.mkOpts 50 true false [] false false false false 8080 [] false [].

(** The options of a bare [ralphex] call. *)
Definition opts_bare : main.opts :=
  main.mkOpts 50 false false [] false false false false 8080 [] false [].

(** No lock of the mutex of a safe sender is held. *)
Definition idle {T} (s : tui.SafeSender T) : Prop :=
  tui.mu s = tui.mkRWMutex 0 false.

(** ** Words of the specification *)

(** The stem of a plan file: its base name without [.md]. *)
Definition planStem (planFile : gostring) : gostring :=
  strings.TrimSuffix (filepath.Base planFile) (str ".md").

(** A name is made of bytes other than the slash. *)
Definition slashFree (name : gostring) : Prop :=
  Forall (fun c => filepath.isSep c = false) name.

(** The bytes of a slug: the lower-case letters, the digits and the
    dash. *)
Definition slugChars : gostring := str "abcdefghijklmnopqrstuvwxyz0123456789-".

Definition isSlugByte (c : ascii) : bool := bool_decide (c ∈ slugChars).

Definition isDash (c : ascii) : bool := bool_decide (c = "-"%char).

(** A run of dashes collapsed to one dash, in one pass. *)
Fixpoint collapseRuns (s : gostring) : gostring :=
  match s with
  | [] => []
  | c :: t =>
    match t with
    | d :: _ => if isDash c && isDash d then collapseRuns t else c :: collapseRuns t
    | [] => [c]
    end
  end.

Definition trimLeadingDashes (s : gostring) : gostring :=
  strings.dropWhile isDash s.

Definition trimTrailingDashes (s : gostring) : gostring :=
  reverse (strings.dropWhile isDash (reverse s)).

Definition orUnnamed (s : gostring) : gostring :=
  match s with
  | [] => str "unnamed"
  | _ => s
  end.

(** The slug as C2 words it: the description lowercased, the bytes that
    are neither alphanumeric nor dashes stripped, double dashes collapsed,
    cut to 50 bytes, and [unnamed] when nothing is left. *)
Definition slug_as_claimed (caseLower : rune -> rune) (desc : gostring)
  : gostring :=
  let s := strings.ToLower caseLower desc in
  let s := List.filter isSlugByte s in
  let s := collapseRuns s in
  let s := take 50 s in
  orUnnamed s.

(** The slug as the code makes it, in the words of the specification:
    the description lowercased, every space made a dash, the bytes
    other than lower-case letters, digits and dashes stripped, every run of
    dashes collapsed to one dash, the dashes at both ends trimmed, the
    result cut to 50 bytes and the dashes at its end trimmed again, and
    [unnamed] when nothing is left. *)
Definition slug_amended (caseLower : rune -> rune) (desc : gostring)
  : gostring :=
  let s := strings.ToLower caseLower desc in
  let s := List.map (fun c => if bool_decide (c = " "%char) then "-"%char else c) s in
  let s := List.filter isSlugByte s in
  let s := collapseRuns s in
  let s := trimLeadingDashes (trimTrailingDashes s) in
  let s := trimTrailingDashes (take 50 s) in
  orUnnamed s.

(** What a slug is: not empty, at most 50 bytes, made of slug bytes, no
    two dashes in a row, no dash at either end. *)
Definition isSlug (s : gostring) : Prop :=
  s <> []
  /\ (length s <= 50)%nat
  /\ Forall (fun c => c ∈ slugChars) s
  /\ strings.Contains s (str "--") = false
  /\ head s <> Some "-"%char
  /\ last s <> Some "-"%char.

(** A string that starts with two dashes. *)
Definition startsDD (s : gostring) : bool :=
  match s with
  | c :: d :: _ => isDash c && isDash d
  | _ => false
  end.

(** [a] is a piece of [s]: a run of consecutive bytes of it. *)
Definition pieceOf (a s : gostring) : Prop := exists x y, s = x ++ a ++ y.

(** ** Words of the specification: aligned lines *)

Definition isDigitByte (c : ascii) : bool := bool_decide (c ∈ str "0123456789").

(** A line that begins with [- ], with [* ], or with a run of digits
    followed by [. ]. *)
Definition beginsWithMarker (line : gostring) : bool :=
  strings.HasPrefix line (str "- ")
  || strings.HasPrefix line (str "* ")
  || (let digits := strings.takeWhile isDigitByte line in
      negb (streq digits [])
      && strings.HasPrefix (drop (length digits) line) (str ". ")).

Definition indentListItem (line : gostring) : gostring :=
  if beginsWithMarker line then str "  " ++ line else line.

(** The lines of a text: split on newlines, the empty ones left out. *)
Definition nonEmptyLines (text : gostring) : list gostring :=
  List.filter (fun line => negb (streq line [])) (strings.Split text nl).

(** A line with its time stamp. *)
Definition stampedLine (layout : list time.chunk) (wall : nat -> time.Time)
  (n : nat) (line : gostring) : gostring :=
  str "[" ++ time.Format (wall n) layout ++ str "] " ++ indentListItem line.

(** The lines [PrintAligned] makes of a text when the clock has been read
    [n0] times before: line [j] carries the time of read [n0 + j]. *)
Definition alignedLines (layout : list time.chunk) (wall : nat -> time.Time)
  (n0 : nat) (text : gostring) : list gostring :=
  imap (fun j line => stampedLine layout wall (n0 + j) line)
       (nonEmptyLines text).

(** Lines as written to a file: each followed by a newline. *)
Definition withNewlines (lines : list gostring) : gostring :=
  List.concat (List.map (fun line => line ++ [nl]) lines).

(** The clock after [n] more reads. *)
Definition tick (n : nat) (e : Env) : Env :=
  mkEnv (wall e) (ticks e + n) (activeLocks e).

(** The logger with its file, if it has one, changed by [g]. *)
Definition progress_withFile (g : File -> File) (l : progress.Logger)
  : progress.Logger :=
  progress.mkLogger (g <$> progress.file l) (progress.startTime l)
                    (progress.phase l).

Definition tui_withFile {T} (g : File -> File) (l : tui.teaLogger T)
  : tui.teaLogger T :=
  tui.mkTeaLogger (g <$> tui.file l) (tui.lsender l) (tui.startTime l)
                  (tui.phase l).

(** The TUI logger with the sender it holds changed by [g]. *)
Definition tui_withSender {T} (g : T -> T) (l : tui.teaLogger T)
  : tui.teaLogger T :=
  tui.mkTeaLogger (tui.file l) (g (tui.lsender l)) (tui.startTime l)
                  (tui.phase l).

(** The TUI logger after it has sent the lines, joined by newlines, as
    one [OutputMsg]; nothing is sent when there is no line. *)
Definition tui_notify {T} `{tui.Sender T} (lines : list gostring)
  (l : tui.teaLogger T) : tui.teaLogger T :=
  match lines with
  | [] => l
  | _ => tui_withSender (tui.Send (tui.OutputMsg (strings.Join lines [nl]))) l
  end.

(** A clock that shows 2026-01-02 03:04 and as many seconds as it has
    been read. *)
Definition clock_example (n : nat) : time.Time :=
  time.mkTime 2026 1 2 3 4 (Z.of_nat n).

(** A process that has read its clock three times and holds the lock of
    [progress.txt], and loggers with this file open and locked. *)
Definition env_example : Env :=
  mkEnv clock_example 3 {[ str "progress.txt" ]}.

Definition file_example : File :=
  mkFile (str "progress.txt") (str "# Ralphex Progress Log" ++ [nl]) true true.

Definition logger_example : progress.Logger :=
  progress.mkLogger (Some file_example) (clock_example 0) PhaseTask.

Definition teaLogger_example : tui.teaLogger tui.mockSender :=
  tui.mkTeaLogger (Some file_example) [] (clock_example 0) PhaseTask.

(** The text [hello\n\n- item\n12. twelve\n - no\n\n]. *)
Definition text_example : gostring :=
  str "hello" ++ [nl; nl] ++ str "- item" ++ [nl] ++ str "12. twelve" ++ [nl]
  ++ str " - no" ++ [nl; nl].

(** ** Words of the specification: the footer *)

(** The form of a text, byte by byte: a digit, or a given byte. *)
Inductive cls := Digit | Lit (c : ascii).

Fixpoint hasForm (form : list cls) (s : gostring) : bool :=
  match form, s with
  | [], [] => true
  | Digit :: form', c :: s' => isDigitByte c && hasForm form' s'
  | Lit d :: form', c :: s' => bool_decide (c = d) && hasForm form' s'
  | _, _ => false
  end.

(** YYYY-MM-DD HH:MM:SS *)
Definition dateTimeForm : list cls :=
  [Digit; Digit; Digit; Digit; Lit "-"; Digit; Digit; Lit "-"; Digit; Digit;
   Lit " "; Digit; Digit; Lit ":"; Digit; Digit; Lit ":"; Digit; Digit].

(** [Completed: YYYY-MM-DD HH:MM:SS], and nothing after it. *)
Definition completionForm : list cls :=
  List.map Lit (str "Completed: ") ++ dateTimeForm.

(** The rule of dashes of the header and the footer. *)
Definition rule : gostring := strings.Repeat (str "-") 60.

(** [humanize.RelTime] for two instants less than a second apart: the
    tests of package [progress] have it answer [now] there. *)
Definition humanize_RelTime_now
  (a b : time.Time) (albl blbl : gostring) : gostring := str "now".

(** [filepath.Abs] and [filepath.Clean] on a clean absolute path. *)
Definition filepath_Abs_id (path : gostring) : option gostring := Some path.
Definition filepath_Clean_id (path : gostring) : gostring := path.

(** A process whose clock stands still at the time the logger started. *)
Definition env_frozen : Env :=
  mkEnv (fun _ => clock_example 0) 3 {[ str "progress.txt" ]}.

(** A collector made by [NewCollector] in an empty store, and a model
    that shows the log. *)
Definition collector_example : tui.teaCollector tui.mockSender * tui.Chans :=
  tui.NewCollector ([] : tui.mockSender) ∅.

Definition model_example : tui.Model (gostring * bool) :=
  tui.NewModel tui.StateExecuting.

(** ** Calls on a safe sender that run at the same time

    A call of [Send] takes four steps and a call of [Stop] three, each
    step atomic; the goroutines take their steps in any order. *)

Inductive SendPC := sRLock | sCheck | sForward | sRUnlock | sReturned.
Inductive StopPC := tLock | tSet | tUnlock | tReturned.

Inductive Goroutine :=
| Sending (msg : tui.Msg) (pc : SendPC)
| Stopping (pc : StopPC).

Definition setMu {T} (m : tui.RWMutex) (s : tui.SafeSender T) : tui.SafeSender T :=
  tui.mkSafeSender (tui.sender s) m (tui.stopped s).

(** The next step of a goroutine; [None] when it waits for the mutex or
    has returned. *)
Definition goStep {T} `{tui.Sender T} (g : Goroutine) (s : tui.SafeSender T)
  : option (Goroutine * tui.SafeSender T) :=
  match g with
  | Sending msg sRLock =>
    m ← tui.RLock (tui.mu s); Some (Sending msg sCheck, setMu m s)
  | Sending msg sCheck =>
    Some (Sending msg (if tui.stopped s then sRUnlock else sForward), s)
  | Sending msg sForward =>
    Some (Sending msg sRUnlock,
          tui.mkSafeSender (tui.Send msg (tui.sender s)) (tui.mu s) (tui.stopped s))
  | Sending msg sRUnlock =>
    Some (Sending msg sReturned, setMu (tui.RUnlock (tui.mu s)) s)
  | Sending msg sReturned => None
  | Stopping tLock =>
    m ← tui.Lock (tui.mu s); Some (Stopping tSet, setMu m s)
  | Stopping tSet =>
    Some (Stopping tUnlock, tui.mkSafeSender (tui.sender s) (tui.mu s) true)
  | Stopping tUnlock =>
    Some (Stopping tReturned, setMu (tui.Unlock (tui.mu s)) s)
  | Stopping tReturned => None
  end.

(** A safe sender and the goroutines that call it. *)
Record Conc (T : Type) := mkConc {
  shared : tui.SafeSender T;
  pool : list Goroutine
}.
Arguments mkConc {T} _ _.
Arguments shared {T} _.
Arguments pool {T} _.

(** A goroutine that enters [Send] or [Stop]. *)
Definition entering (g : Goroutine) : Prop :=
  (exists msg, g = Sending msg sRLock) \/ g = Stopping tLock.

Inductive cstep {T} `{tui.Sender T} : relation (Conc T) :=
| cstep_go (c : Conc T) (i : nat) (g g' : Goroutine) (s' : tui.SafeSender T) :
    pool c !! i = Some g ->
    goStep g (shared c) = Some (g', s') ->
    cstep c (mkConc s' (<[i := g']> (pool c)))
| cstep_call (c : Conc T) (g : Goroutine) :
    entering g ->
    cstep c (mkConc (shared c) (pool c ++ [g])).

(** The sum of [f] over the goroutines. *)
Fixpoint total (f : Goroutine -> nat) (gs : list Goroutine) : nat :=
  match gs with
  | [] => 0
  | g :: rest => f g + total f rest
  end.

(** A goroutine's hold on the mutex. *)
Definition readLocks (g : Goroutine) : nat :=
  match g with
  | Sending _ (sCheck | sForward | sRUnlock) => 1
  | _ => 0
  end.

Definition writeLocks (g : Goroutine) : nat :=
  match g with
  | Stopping (tSet | tUnlock) => 1
  | _ => 0
  end.

Definition forwarding (g : Goroutine) : bool :=
  match g with
  | Sending _ sForward => true
  | _ => false
  end.

(** A call of [Stop] that has set the flag. *)
Definition hasStopped (g : Goroutine) : bool :=
  match g with
  | Stopping (tUnlock | tReturned) => true
  | _ => false
  end.

Definition returned (g : Goroutine) : bool :=
  match g with
  | Sending _ sReturned | Stopping tReturned => true
  | _ => false
  end.

(** What holds of a safe sender and its callers at every moment: the
    mutex counts the goroutines between their lock and their unlock; a
    writer excludes readers; once the flag is set no goroutine is about
    to forward; and the flag is set once a [Stop] has set it. *)
Definition consistent {T} (c : Conc T) : Prop :=
  tui.readers (tui.mu (shared c)) = total readLocks (pool c)
  /\ (if tui.writer (tui.mu (shared c))
      then total writeLocks (pool c) = 1%nat
           /\ total readLocks (pool c) = 0%nat
      else total writeLocks (pool c) = 0%nat)
  /\ (tui.stopped (shared c) = true ->
      Forall (fun g => forwarding g = false) (pool c))
  /\ (tui.stopped (shared c) = false ->
      Forall (fun g => hasStopped g = false) (pool c)).

(** The state of a new safe sender that wraps the [mockSender], before
    any call. *)
Definition conc_init {T} (inner : T) : Conc T :=
  mkConc (tui.NewSafeSender inner) [].

(** After one call of [Stop] has returned, and after a call of [Send]
    that began later has returned too. *)
Definition conc_stopped : Conc tui.mockSender :=
  mkConc (tui.mkSafeSender [] (tui.mkRWMutex 0 false) true)
         [Stopping tReturned].

Definition conc_stopped_sent : Conc tui.mockSender :=
  mkConc (tui.mkSafeSender [] (tui.mkRWMutex 0 false) true)
         [Stopping tReturned; Sending (tui.OutputMsg (str "late")) sReturned].

(** A [Send] holds the read lock while [Stop] waits for the mutex. *)
Definition conc_waiting : Conc tui.mockSender :=
  mkConc (tui.mkSafeSender [] (tui.mkRWMutex 1 false) false)
         [Sending (tui.OutputMsg (str "early")) sForward; Stopping tLock].

(** ** Calls on a logger *)

(** The calls of the interface that both loggers answer. *)
Inductive LogOp :=
| LSetPhase (phase_ : Phase)
| LPrint (msg : gostring)
| LPrintRaw (msg : gostring)
| LPrintSection (section : Section_)
| LPrintAligned (text : gostring)
| LLogQuestion (question : gostring) (options : list gostring)
| LLogAnswer (answer : gostring).

Definition progress_call (op : LogOp) : M (St progress.Logger) unit :=
  match op with
  | LSetPhase ph => progress.SetPhase ph
  | LPrint msg => progress.Print msg
  | LPrintRaw msg => progress.PrintRaw msg
  | LPrintSection s => progress.PrintSection s
  | LPrintAligned text => progress.PrintAligned text
  | LLogQuestion q opts => progress.LogQuestion q opts
  | LLogAnswer a => progress.LogAnswer a
  end.

Definition tui_call {T} `{tui.Sender T} (op : LogOp)
  : M (St (tui.teaLogger T)) unit :=
  match op with
  | LSetPhase ph => tui.SetPhase ph
  | LPrint msg => tui.Print msg
  | LPrintRaw msg => tui.PrintRaw msg
  | LPrintSection s => tui.PrintSection s
  | LPrintAligned text => tui.PrintAligned text
  | LLogQuestion q opts => tui.LogQuestion q opts
  | LLogAnswer a => tui.LogAnswer a
  end.

(** The calls of the logger of package [progress], which has [Error] and
    [Warn] besides. *)
Inductive ProgressOp :=
| PCommon (op : LogOp)
| PError (msg : gostring)
| PWarn (msg : gostring).

Definition progress_call' (op : ProgressOp) : M (St progress.Logger) unit :=
  match op with
  | PCommon op => progress_call op
  | PError msg => progress.Error msg
  | PWarn msg => progress.Warn msg
  end.

(** The stamp of a line: the time of the next reading of the clock, in
    brackets, and a space. *)
Definition stamp (e : Env) : gostring :=
  str "[" ++ time.Format (wall e (ticks e)) progress.timestampFormat ++ str "] ".

(** What a call appends to an open file, how often it reads the clock,
    and what the TUI logger sends. *)
Definition logBytes (op : LogOp) (e : Env) : gostring :=
  match op with
  | LSetPhase _ => []
  | LPrint msg => stamp e ++ msg ++ [nl]
  | LPrintRaw msg => msg
  | LPrintSection s => [nl] ++ str "--- " ++ Label s ++ str " ---" ++ [nl]
  | LPrintAligned text =>
    withNewlines (alignedLines progress.timestampFormat (wall e) (ticks e) text)
  | LLogQuestion q opts =>
    (stamp e ++ str "QUESTION: " ++ q ++ [nl])
    ++ (stamp e ++ str "OPTIONS: " ++ strings.Join opts (str ", ") ++ [nl])
  | LLogAnswer a => stamp e ++ str "ANSWER: " ++ a ++ [nl]
  end.

Definition logReads (op : LogOp) (e : Env) : nat :=
  match op with
  | LSetPhase _ | LPrintRaw _ | LPrintSection _ => 0
  | LPrintAligned text =>
    length (alignedLines progress.timestampFormat (wall e) (ticks e) text)
  | LPrint _ | LLogQuestion _ _ | LLogAnswer _ => 1
  end.

Definition logMsgs (op : LogOp) (e : Env) : list tui.Msg :=
  match op with
  | LSetPhase ph => [tui.PhaseChangeMsg ph]
  | LPrint msg => [tui.OutputMsg (stamp e ++ msg)]
  | LPrintRaw msg => [tui.OutputMsg msg]
  | LPrintSection s => [tui.SectionMsg s]
  | LPrintAligned text =>
    match alignedLines progress.timestampFormat (wall e) (ticks e) text with
    | [] => []
    | lines => [tui.OutputMsg (strings.Join lines [nl])]
    end
  | LLogQuestion q opts =>
    [tui.OutputMsg (stamp e ++ str "QUESTION: " ++ q);
     tui.OutputMsg (stamp e ++ str "OPTIONS: " ++ strings.Join opts (str ", "))]
  | LLogAnswer a => [tui.OutputMsg (stamp e ++ str "ANSWER: " ++ a)]
  end.

Definition logPhase (op : LogOp) (ph : Phase) : Phase :=
  match op with
  | LSetPhase ph' => ph'
  | _ => ph
  end.

(** The same for a list of calls, one after the other. *)
Fixpoint logBytesAll (ops : list LogOp) (e : Env) : gostring :=
  match ops with
  | [] => []
  | op :: rest => logBytes op e ++ logBytesAll rest (tick (logReads op e) e)
  end.

Fixpoint logMsgsAll (ops : list LogOp) (e : Env) : list tui.Msg :=
  match ops with
  | [] => []
  | op :: rest => logMsgs op e ++ logMsgsAll rest (tick (logReads op e) e)
  end.

Fixpoint logReadsAll (ops : list LogOp) (e : Env) : nat :=
  match ops with
  | [] => 0
  | op :: rest => logReads op e + logReadsAll rest (tick (logReads op e) e)
  end.

Definition logPhaseAll (ops : list LogOp) (ph : Phase) : Phase :=
  fold_left (fun ph op => logPhase op ph) ops ph.

(** A sender after the messages [msgs], in order. *)
Definition sendAll {T} `{tui.Sender T} (msgs : list tui.Msg) (s : T) : T :=
  fold_left (fun s msg => tui.Send msg s) msgs s.

(** The logger of package [progress] that a TUI logger carries within
    it: its file, start time and phase. *)
Definition forget {T} (l : tui.teaLogger T) : progress.Logger :=
  progress.mkLogger (tui.file l) (tui.startTime l) (tui.phase l).

Definition toConfig (cfg : tui.LoggerConfig) : progress.Config :=
  progress.mkConfig (tui.PlanFile cfg) (tui.PlanDescription cfg)
                    (tui.Mode cfg) (tui.Branch cfg).

(** The header of a progress file: the plan, the branch, the mode, the
    time the file was started at, and a rule. *)
Definition headerText (planFile branch mode : gostring) (started : time.Time)
  : gostring :=
  (str "# Ralphex Progress Log" ++ [nl])
  ++ (str "Plan: "
      ++ (if streq planFile [] then str "(no plan - review only)" else planFile)
      ++ [nl])
  ++ (str "Branch: " ++ branch ++ [nl])
  ++ (str "Mode: " ++ mode ++ [nl])
  ++ (str "Started: " ++ time.Format started time.DateTime ++ [nl])
  ++ (rule ++ [nl; nl]).

(** The calls to the operating system all succeed. *)
Definition syscalls_ok : Syscalls := mkSyscalls None None None.

(** Whether the calls that [NewLogger] makes for a progress file in the
    directory [dir] all succeed; the directory is made only when it is
    not the working directory. *)
Definition opens (dir : gostring) (sys : Syscalls) : bool :=
  bool_decide ((if negb (streq dir (str ".")) then mkdirErr sys else None) = None)
  && bool_decide (createErr sys = None)
  && bool_decide (flockErr sys = None).

(** [filepath.Dir] on a file name without a slash: the working
    directory. *)
Definition filepath_Dir_here (path : gostring) : gostring := str ".".

(** A process that has not read its clock and holds no lock, a
    configuration for the plan [docs/plans/feature.md], and some calls
    on a logger. *)
Definition env_start : Env := mkEnv clock_example 0 ∅.

Definition loggerConfig_example : tui.LoggerConfig :=
  tui.mkLoggerConfig (str "docs/plans/feature.md") [] (str "full") (str "main").

Definition calls_example : list LogOp :=
  [LPrint (str "starting"); LSetPhase PhaseReview; LPrintAligned text_example;
   LLogAnswer (str "Yes")].


(** ** Keys in the question state *)

(** The keys [keys], pressed one after the other while the model shows
    a question: [updateKey] hands a key to [updateQuestion] as long as
    the state is [StateQuestion]; the run ends when the model has left
    that state or has returned [tea.Quit]. *)
Fixpoint pressKeys {V} (keys : list gostring) (m : tui.Model V)
  (σ : tui.Chans) : tui.Result (tui.Model V * tui.Cmd * tui.Chans) :=
  match keys with
  | [] => tui.Ok (m, tui.CmdNil, σ)
  | key :: rest =>
    match tui.state m with
    | tui.StateQuestion =>
      match tui.updateQuestion key m σ with
      | tui.Ok (m', tui.CmdNil, σ') => pressKeys rest m' σ'
      | r => r
      end
    | _ => tui.Ok (m, tui.CmdNil, σ)
    end
  end.

(** Two plans: one last modified before plan mode started, one
    after. *)
Definition plans_example : list gostring :=
  [str "docs/plans/old.md"; str "docs/plans/new.md"].

Definition stat_example (path : gostring) : option time.Instant :=
  if streq path (str "docs/plans/old.md") then Some (time.mkInstant 100 0)
  else if streq path (str "docs/plans/new.md") then Some (time.mkInstant 200 5)
  else None.

Definition started_example : time.Instant := time.mkInstant 150 0.

(** ** Events of the plan selection *)

(** The events [evs], one after the other. *)
Fixpoint runPlan {V} (evs : list tui.PlanEvent) (pm : tui.PlanModel V)
  (ρ : tui.ResultChans) : tui.Result (tui.PlanModel V * tui.ResultChans) :=
  match evs with
  | [] => tui.Ok (pm, ρ)
  | ev :: rest =>
    match tui.updatePlan ev pm ρ with
    | tui.Ok (pm', ρ') => runPlan rest pm' ρ'
    | r => r
    end
  end.

Definition isRequest (ev : tui.PlanEvent) : bool :=
  match ev with
  | tui.PlanSelectionRequestMsg _ => true
  | _ => false
  end.

(** What the user did, and what [waitForPlanSelection] is to make of
    it. *)
Definition choiceOf (ev : tui.PlanEvent) : main.PlanChoice :=
  match ev with
  | tui.PlanSelected path => main.ChoicePath path
  | tui.PlanCreated description =>
    match description with
    | [] => main.ChoicePath []
    | _ => main.ChoicePlanMode description
    end
  | tui.PlanListFailed e => main.ChoiceErr e
  | tui.QuitOnEmptyList => main.ChoiceErr (str "no plans found")
  | tui.CancelPlanList => main.ChoiceErr (str "user canceled")
  | tui.PlanSelectionRequestMsg _ => main.ChoicePath []
  end.

(** [<-resultCh] when the channel is ready. *)
Definition result_recv (ch : nat) (ρ : tui.ResultChans)
  : option (tui.PlanSelectionResult * tui.ResultChans) :=
  match ρ !! ch with
  | None => None
  | Some c =>
    match tui.rbuf c with
    | v :: rest =>
      Some (v, <[ch := tui.mkResultChan rest (tui.rcap c) (tui.rclosed c)]> ρ)
    | [] =>
      if tui.rclosed c
      then Some (tui.mkPlanSelectionResult [] [] None, ρ)
      else None
    end
  end.

(** ** Commands given to a repository *)

Inductive GitCall :=
| CallCheckout (branch : gostring)
| CallCreate (branch : gostring)
| CallAdd (path : gostring)
| CallCommit (msg : gostring)
| CallInitialCommit (msg : gostring).

(** A repository together with the commands it has been given, in
    order. *)
Definition traced {G} `{git.Repo G} : git.Repo (G * list GitCall) := {|
  git.CurrentBranch := fun g => git.CurrentBranch g.1;
  git.HasCommits := fun g => git.HasCommits g.1;
  git.HasChangesOtherThan := fun p g => git.HasChangesOtherThan p g.1;
  git.FileHasChanges := fun p g => git.FileHasChanges p g.1;
  git.BranchExists := fun b g => git.BranchExists b g.1;
  git.CheckoutBranch := fun b g =>
    let '(e, g') := git.CheckoutBranch b g.1 in (e, (g', g.2 ++ [CallCheckout b]));
  git.CreateBranch := fun b g =>
    let '(e, g') := git.CreateBranch b g.1 in (e, (g', g.2 ++ [CallCreate b]));
  git.Add := fun p g =>
    let '(e, g') := git.Add p g.1 in (e, (g', g.2 ++ [CallAdd p]));
  git.Commit := fun msg g =>
    let '(e, g') := git.Commit msg g.1 in (e, (g', g.2 ++ [CallCommit msg]));
  git.CreateInitialCommit := fun msg g =>
    let '(e, g') := git.CreateInitialCommit msg g.1 in
    (e, (g', g.2 ++ [CallInitialCommit msg]))
|}.

(** ** The description of a plan *)

Section Description.

(** [strings.TrimSpace] *)
Variable trim : gostring -> gostring.

(** A line that is [---] but for white space around it. *)
Definition isFence (text : gostring) : bool := streq (trim text) (str "---").

(** What a line has to say: nothing if it is blank; otherwise the line
    without the white space around it, without the [#] marks of a
    heading at its start, and without the white space then around
    it. *)
Definition headingText (text : gostring) : gostring :=
  if streq (trim text) [] then []
  else trim (strings.TrimLeft (trim text) (str "#")).

(** The first of the lines that has something to say. *)
Fixpoint firstText (lines : list gostring) : gostring :=
  match lines with
  | [] => []
  | text :: rest =>
    if streq (headingText text) [] then firstText rest else headingText text
  end.

(** The lines after the first fence. *)
Fixpoint afterFence (lines : list gostring) : list gostring :=
  match lines with
  | [] => []
  | text :: rest => if isFence text then rest else afterFence rest
  end.

(** The lines of a plan without its front matter: when the first line
    is a fence, the lines after the next fence. *)
Definition withoutFrontmatter (lines : list gostring) : list gostring :=
  match lines with
  | text :: rest => if isFence text then afterFence rest else lines
  | [] => []
  end.

End Description.

(** [strings.TrimSpace] on a string of ASCII bytes: the white space of
    ASCII is cut from both ends. *)
Definition TrimSpace_ascii (s : gostring) : gostring :=
  strings.Trim s [tab; nl; "011"%char; "012"%char; "013"%char; " "%char].

(* ================================================================== *)
(** * Part II: theorems                                                *)
(* ================================================================== *)

(** ** The initial state of the TUI (C9) *)

(** C9, as stated, fails: with [--review] and no plan, neither positional
    nor through [--plan], the initial state is [StateExecuting]. *)
Lemma initial_state_review_without_plan :
  main.PlanFile opts_review_only = [] /\
  main.PlanDescription opts_review_only = [] /\
  main.determineInitialTUIState opts_review_only
    (main.determineMode opts_review_only) = tui.StateExecuting.
Proof. repeat split. Qed.

Lemma streq_true (a b : gostring) : streq a b = true <-> a = b.
Proof. unfold streq. apply bool_decide_eq_true. Qed.

Lemma streq_false (a b : gostring) : streq a b = false <-> a <> b.
Proof. unfold streq. apply bool_decide_eq_false. Qed.

Lemma streq_refl (a : gostring) : streq a a = true.
Proof. by apply streq_true. Qed.

(** The initial state is [StateSelectPlan] exactly when no plan file, no
    plan description, no [--review] and no [--codex-only] is given. *)
Lemma initial_state_select_iff (o : main.opts) :
  main.determineInitialTUIState o (main.determineMode o) = tui.StateSelectPlan
  <-> main.PlanFile o = [] /\ main.PlanDescription o = []
      /\ main.Review o = false /\ main.CodexOnly o = false.
Proof.
  unfold main.determineInitialTUIState, main.determineMode.
  destruct (streq (main.PlanDescription o) []) eqn:Hd;
    destruct (streq (main.PlanFile o) []) eqn:Hf;
    destruct (main.Review o) eqn:Hr; destruct (main.CodexOnly o) eqn:Hc;
    cbn; rewrite ?streq_true, ?streq_false in *;
    split; try discriminate; try tauto; intros (? & ? & ? & ?);
    try discriminate; try contradiction.
Qed.

(** C9 (amended): for every option set with no plan file (neither
    positional nor through [--plan]) and with neither [--review] nor
    [--codex-only], the initial state of the TUI is [StateSelectPlan]. *)
Theorem initial_state_without_plan (o : main.opts) :
  main.PlanFile o = [] ->
  main.PlanDescription o = [] ->
  main.Review o = false ->
  main.CodexOnly o = false ->
  main.determineMode o = main.ModeFull /\
  main.determineInitialTUIState o (main.determineMode o) = tui.StateSelectPlan.
Proof.
  intros Hf Hd Hr Hc. split.
  - unfold main.determineMode. by rewrite Hd, Hc, Hr.
  - apply initial_state_select_iff. auto.
Qed.

Lemma initial_state_without_plan_witness :
  main.determineMode opts_bare = main.ModeFull /\
  main.determineInitialTUIState opts_bare (main.determineMode opts_bare)
  = tui.StateSelectPlan.
Proof.
  apply (initial_state_without_plan opts_bare); reflexivity.
Defined.

(** ** The safe sender (C7) *)

Section SafeSenderFacts.

Context {T : Type} `{tui.Sender T}.

Lemma Send_idle (msg : tui.Msg) (s : tui.SafeSender T) :
  idle s ->
  tui.SafeSender_Send msg s =
  Some (tui.mkSafeSender
          (if tui.stopped s then tui.sender s else tui.Send msg (tui.sender s))
          (tui.mkRWMutex 0 false) (tui.stopped s)).
Proof.
  unfold idle, tui.SafeSender_Send. destruct s as [snd m st]; cbn.
  intros ->. cbn. by destruct st.
Qed.

Lemma Stop_idle (s : tui.SafeSender T) :
  idle s ->
  tui.Stop s = Some (tui.mkSafeSender (tui.sender s) (tui.mkRWMutex 0 false) true).
Proof.
  unfold idle, tui.Stop. destruct s as [snd m st]; cbn. by intros ->.
Qed.

Lemma runSender_app (ops1 ops2 : list SenderOp) (s : tui.SafeSender T) :
  runSender (ops1 ++ ops2) s =
  match runSender ops1 s with
  | Some s' => runSender ops2 s'
  | None => None
  end.
Proof.
  revert s. induction ops1 as [|op ops1 IH]; intros s; cbn; [done|].
  destruct (match op with
            | OpSend msg => tui.SafeSender_Send msg s
            | OpStop => tui.Stop s
            end); [apply IH | done].
Qed.

(** From an idle sender every run comes to an end, idle again; the calls
    never wait for the mutex. *)
Lemma runSender_idle (ops : list SenderOp) (s : tui.SafeSender T) :
  idle s -> exists s', runSender ops s = Some s' /\ idle s'
                       /\ (tui.stopped s = true -> tui.stopped s' = true).
Proof.
  revert s. induction ops as [|op ops IH]; intros s Hs; cbn.
  - by exists s.
  - destruct op as [msg|].
    + rewrite (Send_idle msg s Hs).
      destruct (IH (tui.mkSafeSender
                      (if tui.stopped s then tui.sender s
                       else tui.Send msg (tui.sender s))
                      (tui.mkRWMutex 0 false) (tui.stopped s)))
        as (s' & -> & ? & ?); [done|]. by exists s'.
    + rewrite (Stop_idle s Hs).
      destruct (IH (tui.mkSafeSender (tui.sender s) (tui.mkRWMutex 0 false) true))
        as (s' & -> & ? & Hst); [done|]. exists s'. auto.
Qed.

(** Once stopped, an idle sender is left as it is by every run. *)
Lemma runSender_stopped (ops : list SenderOp) (s : tui.SafeSender T) :
  idle s -> tui.stopped s = true -> runSender ops s = Some s.
Proof.
  intros Hi Hst. induction ops as [|op ops IH]; cbn; [done|].
  destruct op as [msg|].
  - rewrite (Send_idle msg s Hi), Hst.
    destruct s as [snd m st]; cbn in *. unfold idle in Hi; cbn in Hi.
    subst. apply IH.
  - rewrite (Stop_idle s Hi).
    destruct s as [snd m st]; cbn in *. unfold idle in Hi; cbn in Hi.
    subst. apply IH.
Qed.

End SafeSenderFacts.

(** C7: from a new safe sender and after any calls [before], a call of
    [Stop] returns with the sender stopped; [n + 1] calls of [Stop] leave
    the very state one call leaves; and every later [Send], as every
    later run of calls, changes nothing: the wrapped sender receives no
    message. *)
Theorem SafeSender_Stop_idempotent_Send_noop
  {T : Type} `{tui.Sender T} (inner : T)
  (before after : list SenderOp) (n : nat) :
  exists s1 : tui.SafeSender T,
    runSender (before ++ [OpStop]) (tui.NewSafeSender inner) = Some s1
    /\ tui.stopped s1 = true
    /\ runSender (before ++ replicate (S n) OpStop) (tui.NewSafeSender inner)
       = Some s1
    /\ (forall msg, tui.SafeSender_Send msg s1 = Some s1)
    /\ runSender after s1 = Some s1.
Proof.
  destruct (runSender_idle before (tui.NewSafeSender inner)) as (s0 & H0 & Hi0 & _);
    [done|].
  set (s1 := tui.mkSafeSender (tui.sender s0) (tui.mkRWMutex 0 false) true).
  assert (Hi1 : idle s1) by done.
  exists s1. split; [|split; [|split; [|split]]].
  - rewrite runSender_app, H0. cbn. by rewrite (Stop_idle s0 Hi0).
  - done.
  - rewrite runSender_app, H0. cbn. rewrite (Stop_idle s0 Hi0).
    by apply runSender_stopped.
  - intros msg. by rewrite (Send_idle msg s1 Hi1).
  - by apply runSender_stopped.
Qed.

(** ** The output buffer (C6) *)

Section OutputBuffer.

Context {V : Type} `{tui.Viewport V}.

Lemma lastN_short {A} (n : Z) (l : list A) :
  Z.of_nat (length l) <= n -> lastN n l = l.
Proof.
  intros Hl. unfold lastN.
  replace (Z.to_nat (Z.of_nat (length l) - n)) with 0%nat by lia. done.
Qed.

Lemma length_lastN {A} (n : Z) (l : list A) :
  0 <= n -> Z.of_nat (length (lastN n l)) = Z.min n (Z.of_nat (length l)).
Proof. intros Hn. unfold lastN. rewrite length_drop. lia. Qed.

(** Cutting to the last [n], appending, and cutting again is appending
    and cutting once. *)
Lemma lastN_snoc {A} (n : Z) (l : list A) (x : A) :
  0 <= n -> lastN n (lastN n l ++ [x]) = lastN n (l ++ [x]).
Proof.
  intros Hn. unfold lastN at 2.
  set (k := Z.to_nat (Z.of_nat (length l) - n)).
  assert (Hk : (k <= length l)%nat) by lia.
  rewrite <- (drop_app_le l [x] k Hk).
  unfold lastN. rewrite drop_drop, length_drop, !length_app. cbn.
  f_equal. lia.
Qed.

(** One append: the line goes to the end, and the buffer is cut to its
    last [maxOutputLines] lines. *)
Lemma appendOutput_output (line : gostring) (m : tui.Model V) :
  tui.output (tui.appendOutput line m)
  = lastN tui.maxOutputLines (tui.output m ++ [line]).
Proof.
  unfold tui.appendOutput; cbn.
  destruct (Z.gtb_spec (Z.of_nat (length (tui.output m ++ [line])))
                       tui.maxOutputLines) as [Hgt|Hle].
  - done.
  - by rewrite lastN_short.
Qed.

Lemma appendAll_snoc (lines : list gostring) (line : gostring) (m : tui.Model V) :
  appendAll (lines ++ [line]) m = tui.appendOutput line (appendAll lines m).
Proof. revert m. induction lines as [|l lines IH]; intros m; cbn; [done|apply IH]. Qed.

Lemma appendAll_output (lines : list gostring) (m : tui.Model V) :
  Z.of_nat (length (tui.output m)) <= tui.maxOutputLines ->
  tui.output (appendAll lines m)
  = lastN tui.maxOutputLines (tui.output m ++ lines).
Proof.
  intros Hm. induction lines as [|line lines IH] using rev_ind.
  - cbn. by rewrite app_nil_r, lastN_short.
  - rewrite appendAll_snoc, appendOutput_output, IH, app_assoc.
    by apply lastN_snoc.
Qed.

End OutputBuffer.

(** C6: after any sequence of appends to the buffer of a new model, the
    buffer holds at most 10 000 lines, and they are the last (up to)
    10 000 lines appended, in their order; so the 10 001st append drops
    the line appended first. *)
Theorem output_buffer_keeps_last_10000
  {V : Type} `{tui.Viewport V} (initialState : tui.State)
  (lines : list gostring) :
  let m := appendAll lines (tui.NewModel initialState) in
  tui.output m = lastN 10000 lines
  /\ Z.of_nat (length (tui.output m)) = Z.min 10000 (Z.of_nat (length lines))
  /\ (forall n, tui.output m !! n
                = lines !! (Z.to_nat (Z.of_nat (length lines) - 10000) + n)%nat)
  /\ (forall first rest,
        lines = first :: rest -> Z.of_nat (length rest) = 10000 ->
        tui.output m = rest).
Proof.
  cbn zeta.
  assert (Hout : tui.output (appendAll lines (tui.NewModel initialState))
                 = lastN 10000 lines).
  { by rewrite appendAll_output. }
  rewrite Hout. split; [done|]. split; [by apply length_lastN|]. split.
  - intros n. unfold lastN. by rewrite lookup_drop.
  - intros first rest -> Hlen. unfold lastN.
    replace (Z.to_nat _) with 1%nat by (cbn [length]; lia). done.
Qed.

Lemma output_buffer_10001st_append :
  let lines := str "first" :: replicate (Z.to_nat 10000) (str "later") in
  tui.output (appendAll lines (tui.NewModel (V := gostring * bool) tui.StateExecuting))
  = replicate (Z.to_nat 10000) (str "later").
Proof.
  cbv zeta.
  apply (proj2 (proj2 (proj2
           (output_buffer_keeps_last_10000 (V := gostring * bool)
              tui.StateExecuting
              (str "first" :: replicate (Z.to_nat 10000) (str "later")))))
           (str "first") (replicate (Z.to_nat 10000) (str "later")) eq_refl).
  rewrite length_replicate. reflexivity.
Defined.

(** ** The two copies of the file-name functions (C10) *)

Lemma collapseLoop_mirrored (fuel : nat) (result : gostring) :
  tui.collapseLoop fuel result = progress.collapseLoop fuel result.
Proof.
  revert result.
  induction fuel as [|fuel IH]; intros result;
    cbn [tui.collapseLoop progress.collapseLoop]; [done|].
  destruct (strings.Contains result (str "--")); [apply IH | done].
Qed.

Lemma keepRune_mirrored (r : rune) : tui.keepRune r = progress.keepRune r.
Proof. reflexivity. Qed.

Lemma sanitizePlanName_mirrored (caseLower : rune -> rune) (desc : gostring) :
  tui.sanitizePlanName caseLower desc = progress.sanitizePlanName caseLower desc.
Proof.
  unfold tui.sanitizePlanName, progress.sanitizePlanName.
  by rewrite collapseLoop_mirrored.
Qed.

(** C10: the file-name functions of package [tui] return what those of
    package [progress] return: [progressFilename] on every plan file,
    plan description and mode, and [sanitizePlanName] on every
    description. *)
Theorem filename_functions_mirrored (caseLower : rune -> rune) :
  (forall planFile planDescription mode,
     tui.progressFilename caseLower planFile planDescription mode
     = progress.progressFilename caseLower planFile planDescription mode)
  /\ (forall desc,
        tui.sanitizePlanName caseLower desc
        = progress.sanitizePlanName caseLower desc).
Proof.
  split.
  - intros planFile planDescription mode.
    unfold tui.progressFilename, progress.progressFilename.
    by rewrite sanitizePlanName_mirrored.
  - apply sanitizePlanName_mirrored.
Qed.

(** ** Paths and suffixes *)

Lemma dropWhile_all (p : ascii -> bool) (s : gostring) :
  Forall (fun c => p c = true) s -> strings.dropWhile p s = [].
Proof. induction 1 as [|c s Hc _ IH]; cbn; [done|]. by rewrite Hc. Qed.

Lemma takeWhile_all (p : ascii -> bool) (s : gostring) :
  Forall (fun c => p c = true) s -> strings.takeWhile p s = s.
Proof. induction 1 as [|c s Hc _ IH]; cbn; [done|]. by rewrite Hc, IH. Qed.

Lemma takeWhile_app_stop (p : ascii -> bool) (s t : gostring) (c : ascii) :
  Forall (fun c => p c = true) s -> p c = false ->
  strings.takeWhile p (s ++ c :: t) = s.
Proof.
  intros Hs Hc. induction Hs as [|d s Hd _ IH]; cbn.
  - by rewrite Hc.
  - by rewrite Hd, IH.
Qed.

Lemma takeWhile_dropWhile (p : ascii -> bool) (s : gostring) :
  strings.takeWhile p s ++ strings.dropWhile p s = s.
Proof. induction s as [|c s IH]; cbn; [done|]. destruct (p c); cbn; by rewrite ?IH. Qed.

Lemma takeWhile_Forall (p : ascii -> bool) (s : gostring) :
  Forall (fun c => p c = true) (strings.takeWhile p s).
Proof.
  induction s as [|c s IH]; cbn; [constructor|].
  destruct (p c) eqn:Hc; by constructor.
Qed.

Lemma dropWhile_head (p : ascii -> bool) (s : gostring) :
  match strings.dropWhile p s with
  | [] => True
  | c :: _ => p c = false
  end.
Proof.
  induction s as [|c s IH]; cbn; [done|].
  destruct (p c) eqn:Hc; [done|]. cbn. done.
Qed.

Lemma dropWhile_id (p : ascii -> bool) (s : gostring) :
  match s with [] => True | c :: _ => p c = false end ->
  strings.dropWhile p s = s.
Proof. destruct s as [|c s]; cbn; [done|]. by intros ->. Qed.

(** [filepath.Base] of a path that ends in a name. *)
Lemma Base_dir_name (dir name : gostring) :
  name <> [] -> slashFree name ->
  filepath.Base (dir ++ str "/" ++ name) = name.
Proof.
  intros Hne Hsf. unfold filepath.Base.
  destruct (dir ++ str "/" ++ name) as [|c0 p0] eqn:Hp.
  { by destruct dir. }
  rewrite <- Hp. clear Hp c0 p0.
  assert (Hrev : reverse (dir ++ str "/" ++ name)
                 = reverse name ++ "/"%char :: reverse dir).
  { cbn. rewrite reverse_app, reverse_cons, <- app_assoc. done. }
  assert (Hsf' : Forall (fun c => negb (filepath.isSep c) = true) (reverse name)).
  { unfold slashFree in Hsf. rewrite Forall_forall in *. intros c Hc.
    rewrite elem_of_reverse in Hc. by rewrite (Hsf c Hc). }
  rewrite Hrev.
  rewrite dropWhile_id, reverse_involutive.
  2:{ destruct (reverse name) as [|c r] eqn:Hr.
      - apply (f_equal reverse) in Hr. rewrite reverse_involutive in Hr.
        by destruct Hne.
      - apply Forall_inv in Hsf'. cbn. by destruct (filepath.isSep c). }
  rewrite takeWhile_app_stop, reverse_involutive by done.
  by destruct name.
Qed.

Lemma Base_name (name : gostring) :
  name <> [] -> slashFree name -> filepath.Base name = name.
Proof.
  intros Hne Hsf. unfold filepath.Base.
  destruct name as [|c0 p0] eqn:Hp; [done|]. rewrite <- Hp in *. clear Hp c0 p0.
  assert (Hsf' : Forall (fun c => negb (filepath.isSep c) = true) (reverse name)).
  { unfold slashFree in Hsf. rewrite Forall_forall in *. intros c Hc.
    rewrite elem_of_reverse in Hc. by rewrite (Hsf c Hc). }
  rewrite dropWhile_id, reverse_involutive.
  2:{ destruct (reverse name) as [|c r] eqn:Hr; [done|].
      apply Forall_inv in Hsf'. cbn. by destruct (filepath.isSep c). }
  rewrite takeWhile_all, reverse_involutive by done.
  by destruct name.
Qed.

Lemma HasSuffix_app (s suffix : gostring) :
  strings.HasSuffix (s ++ suffix) suffix = true.
Proof.
  unfold strings.HasSuffix. rewrite length_app.
  apply andb_true_iff. split.
  - apply Nat.leb_le. lia.
  - apply streq_true.
    replace (length s + length suffix - length suffix)%nat with (length s) by lia.
    by rewrite drop_app_length.
Qed.

Lemma TrimSuffix_app (s suffix : gostring) :
  strings.TrimSuffix (s ++ suffix) suffix = s.
Proof.
  unfold strings.TrimSuffix. rewrite HasSuffix_app, length_app.
  replace (length s + length suffix - length suffix)%nat with (length s) by lia.
  by rewrite take_app_length.
Qed.

Lemma slashFree_app (a b : gostring) :
  slashFree a -> slashFree b -> slashFree (a ++ b).
Proof. unfold slashFree. intros. by apply Forall_app. Qed.

(** The stem of [dir/name.md] is [name]. *)
Lemma planStem_dir_name_md (dir name : gostring) :
  slashFree name -> planStem (dir ++ str "/" ++ name ++ str ".md") = name.
Proof.
  intros Hsf. unfold planStem.
  rewrite (Base_dir_name dir (name ++ str ".md")).
  - apply TrimSuffix_app.
  - by destruct name.
  - apply slashFree_app; [done|]. repeat constructor.
Qed.

(** ** Progress-file names (C1) *)

Lemma streq_cons_nil (c : ascii) (s : gostring) : streq (c :: s) [] = false.
Proof. by apply streq_false. Qed.

(** C1: [progressFilename] is a function of the plan file, the plan
    description and the mode.  In plan mode with a description (one that
    has a first byte) it is [progress-plan-<slug>.txt]; otherwise, with a
    plan file (a path that has a first byte), it is [progress-<stem>.txt],
    [progress-<stem>-review.txt] or [progress-<stem>-codex.txt] in the
    modes full, review and codex-only, where the stem is the base name
    without [.md]; with no plan file it is [progress.txt],
    [progress-review.txt], [progress-codex.txt], and [progress-plan.txt]
    in plan mode without description.  The stem of [dir/name.md] is
    [name]. *)
Theorem progressFilename_cases (caseLower : rune -> rune) :
  let progressFilename := progress.progressFilename caseLower in
  (forall planFile c desc,
     progressFilename planFile (c :: desc) (str "plan")
     = str "progress-plan-" ++ progress.sanitizePlanName caseLower (c :: desc)
       ++ str ".txt")
  /\ (forall c planFile desc,
        progressFilename (c :: planFile) desc (str "full")
        = str "progress-" ++ planStem (c :: planFile) ++ str ".txt"
        /\ progressFilename (c :: planFile) desc (str "review")
           = str "progress-" ++ planStem (c :: planFile) ++ str "-review.txt"
        /\ progressFilename (c :: planFile) desc (str "codex-only")
           = str "progress-" ++ planStem (c :: planFile) ++ str "-codex.txt")
  /\ (forall desc,
        progressFilename [] desc (str "full") = str "progress.txt"
        /\ progressFilename [] desc (str "review") = str "progress-review.txt"
        /\ progressFilename [] desc (str "codex-only") = str "progress-codex.txt")
  /\ progressFilename [] [] (str "plan") = str "progress-plan.txt"
  /\ (forall dir name desc,
        slashFree name ->
        progressFilename (dir ++ str "/" ++ name ++ str ".md") desc (str "full")
        = str "progress-" ++ name ++ str ".txt").
Proof.
  cbv zeta. unfold progress.progressFilename.
  split; [|split; [|split; [|split]]].
  - intros planFile c desc. by rewrite streq_refl, streq_cons_nil.
  - intros c planFile desc. rewrite streq_cons_nil. fold (planStem (c :: planFile)).
    repeat split.
  - intros desc. repeat split.
  - reflexivity.
  - intros dir name desc Hsf.
    replace (streq (str "full") (str "plan")) with false by reflexivity.
    cbn [andb negb].
    destruct (streq (dir ++ str "/" ++ name ++ str ".md") []) eqn:Hnil.
    { apply streq_true in Hnil. by destruct dir. }
    cbn [negb].
    replace (streq (str "full") (str "codex-only")) with false by reflexivity.
    replace (streq (str "full") (str "review")) with false by reflexivity.
    fold (planStem (dir ++ str "/" ++ name ++ str ".md")).
    by rewrite planStem_dir_name_md.
Qed.

(** ** Branch names (C3) *)

(** The class [[\d-]] holds the ten digits and the dash. *)
Lemma datePrefixClass_chars (c : ascii) :
  main.datePrefixClass c = true <-> c ∈ str "0123456789-".
Proof.
  split.
  - destruct c as [[] [] [] [] [] [] [] []]; vm_compute; intros Hc;
      try discriminate Hc; cbn; set_solver.
  - intros Hc. cbn in Hc. repeat (apply elem_of_cons in Hc as [->|Hc]; [done|]).
    by apply elem_of_nil in Hc.
Qed.

Lemma drop_takeWhile (p : ascii -> bool) (s : gostring) :
  drop (length (strings.takeWhile p s)) s = strings.dropWhile p s.
Proof.
  induction s as [|c s IH]; cbn; [done|]. destruct (p c); cbn; [apply IH|done].
Qed.

(** Replacing the match of [datePrefixRe] by nothing leaves what follows
    the longest run of class bytes at the start. *)
Lemma datePrefixRe_ReplaceAllString_empty (src : gostring) :
  main.datePrefixRe_ReplaceAllString src []
  = strings.dropWhile main.datePrefixClass src.
Proof.
  unfold main.datePrefixRe_ReplaceAllString, main.datePrefixRe_match.
  destruct (Nat.eqb_spec (length (strings.takeWhile main.datePrefixClass src)) 0)
    as [Hz|Hnz].
  - rewrite <- drop_takeWhile, Hz. done.
  - cbn. apply drop_takeWhile.
Qed.

(** C3: the branch name is a function of the plan file path alone.  With
    the stem the base name of the path without [.md], split as
    [stem = d ++ rest] where [d] is the longest run of digits and dashes
    at its start (the match of [^[\d-]+], empty when there is none), the
    branch name is [rest], which starts with no dash, and it is the stem
    when [rest] is empty. *)
Theorem extractBranchName_spec (planFile : gostring) :
  let stem := planStem planFile in
  exists d rest : gostring,
    stem = d ++ rest
    /\ Forall (fun c => c ∈ str "0123456789-") d
    /\ match rest with
       | [] => True
       | c :: _ => c ∉ str "0123456789-"
       end
    /\ strings.TrimLeft rest (str "-") = rest
    /\ main.extractBranchName planFile = (if streq rest [] then stem else rest).
Proof.
  cbv zeta.
  exists (strings.takeWhile main.datePrefixClass (planStem planFile)),
         (strings.dropWhile main.datePrefixClass (planStem planFile)).
  pose proof (dropWhile_head main.datePrefixClass (planStem planFile)) as Hhead.
  assert (Htrim : strings.TrimLeft
            (strings.dropWhile main.datePrefixClass (planStem planFile)) (str "-")
          = strings.dropWhile main.datePrefixClass (planStem planFile)).
  { unfold strings.TrimLeft. apply dropWhile_id.
    destruct (strings.dropWhile main.datePrefixClass (planStem planFile))
      as [|c rest]; [done|].
    unfold strings.inCutset. apply bool_decide_eq_false. intros Hc.
    apply list_elem_of_singleton in Hc as ->. discriminate Hhead. }
  split; [by rewrite takeWhile_dropWhile|]. split; [|split; [|split]].
  - eapply Forall_impl; [apply takeWhile_Forall|].
    intros c Hc. by apply datePrefixClass_chars.
  - destruct (strings.dropWhile main.datePrefixClass (planStem planFile))
      as [|c rest]; [done|].
    intros Hc. apply datePrefixClass_chars in Hc. congruence.
  - done.
  - unfold main.extractBranchName. fold (planStem planFile).
    by rewrite datePrefixRe_ReplaceAllString_empty, Htrim.
Qed.

(** The path [docs/plans/2024-01-15-add-tests.md] gives the branch
    [add-tests], and [2024-01-15.md] falls back to its stem. *)
Lemma extractBranchName_examples :
  main.extractBranchName (str "docs/plans/2024-01-15-add-tests.md")
  = str "add-tests"
  /\ main.extractBranchName (str "2024-01-15.md") = str "2024-01-15"
  /\ main.extractBranchName (str "2024---feature.md") = str "feature".
Proof. repeat split. Qed.

(** ** Slugs (C2) *)

(** *** The loop that collapses dashes *)

Lemma isDash_true (c : ascii) : isDash c = true <-> c = "-"%char.
Proof. apply bool_decide_eq_true. Qed.

Lemma isDash_false (c : ascii) : isDash c = false <-> c <> "-"%char.
Proof. apply bool_decide_eq_false. Qed.

Lemma HasPrefix_DD (s : gostring) :
  strings.HasPrefix s (str "--") = startsDD s.
Proof.
  unfold strings.HasPrefix. destruct s as [|c [|d t]]; try done. cbn.
  destruct (isDash c) eqn:Hc, (isDash d) eqn:Hd;
    rewrite ?isDash_true, ?isDash_false in *; cbn.
  - subst. done.
  - apply streq_false. intros [= _ ?]. done.
  - apply streq_false. intros [= ? _]. done.
  - apply streq_false. intros [= ? _]. done.
Qed.

Lemma Contains_DD_cons (c : ascii) (t : gostring) :
  strings.Contains (c :: t) (str "--")
  = startsDD (c :: t) || strings.Contains t (str "--").
Proof. cbn [strings.Contains]. by rewrite HasPrefix_DD. Qed.

Lemma Contains_DD_nil : strings.Contains [] (str "--") = false.
Proof. reflexivity. Qed.

(** One round of the loop, by cases. *)
Lemma ReplaceAll_DD_nil : strings.ReplaceAll [] (str "--") (str "-") = [].
Proof. reflexivity. Qed.

Lemma ReplaceAll_DD_match (t : gostring) :
  strings.ReplaceAll ("-"%char :: "-"%char :: t) (str "--") (str "-")
  = "-"%char :: strings.ReplaceAll t (str "--") (str "-").
Proof. reflexivity. Qed.

Lemma ReplaceAll_DD_other (c : ascii) (t : gostring) :
  startsDD (c :: t) = false ->
  strings.ReplaceAll (c :: t) (str "--") (str "-")
  = c :: strings.ReplaceAll t (str "--") (str "-").
Proof.
  intros Hs. unfold strings.ReplaceAll.
  replace (streq (str "--") (str "-")) with false by reflexivity.
  cbn [strings.replace_from]. by rewrite HasPrefix_DD, Hs.
Qed.

Lemma startsDD_true (s : gostring) :
  startsDD s = true <-> exists t, s = "-"%char :: "-"%char :: t.
Proof.
  split.
  - destruct s as [|c [|d t]]; try done. cbn.
    intros [Hc Hd]%andb_true_iff. apply isDash_true in Hc, Hd. subst. by exists t.
  - intros [t ->]. reflexivity.
Qed.

(** Induction on strings by their length, for functions that pass over
    two bytes in a step. *)
Lemma gostring_length_ind (P : gostring -> Prop) :
  (forall s, (forall t, (length t < length s)%nat -> P t) -> P s) ->
  forall s, P s.
Proof.
  intros Hstep s. remember (length s) as n eqn:Hn.
  revert s Hn. induction n as [n IH] using lt_wf_ind.
  intros s ->. apply Hstep. intros t Ht. by apply (IH (length t)).
Qed.

Lemma ReplaceAll_DD_head (s : gostring) :
  head (strings.ReplaceAll s (str "--") (str "-")) = head s.
Proof.
  destruct s as [|c t]; [done|].
  destruct (startsDD (c :: t)) eqn:Hs.
  - apply startsDD_true in Hs as [t' [= -> ->]]. by rewrite ReplaceAll_DD_match.
  - by rewrite ReplaceAll_DD_other.
Qed.

Lemma collapseRuns_cons (c : ascii) (t : gostring) :
  collapseRuns (c :: t)
  = if isDash c && bool_decide (head t = Some "-"%char)
    then collapseRuns t else c :: collapseRuns t.
Proof.
  destruct t as [|d t]; cbn [collapseRuns head].
  - by rewrite andb_false_r.
  - destruct (isDash c); cbn [andb]; [|done].
    destruct (isDash d) eqn:Hd.
    + apply isDash_true in Hd as ->. by rewrite bool_decide_eq_true_2.
    + apply isDash_false in Hd. rewrite bool_decide_eq_false_2; [done|congruence].
Qed.

Lemma collapseRuns_head (s : gostring) : head (collapseRuns s) = head s.
Proof.
  induction s as [|c t IH]; [done|].
  rewrite collapseRuns_cons.
  destruct (isDash c) eqn:Hc; cbn [andb]; [|done].
  case_bool_decide as Hh; [|done].
  apply isDash_true in Hc as ->. by rewrite IH.
Qed.

(** A round of the loop does not change what the collapse in one pass
    gives. *)
Lemma collapseRuns_ReplaceAll (s : gostring) :
  collapseRuns (strings.ReplaceAll s (str "--") (str "-")) = collapseRuns s.
Proof.
  induction s as [s IH] using gostring_length_ind.
  destruct s as [|c t]; [done|].
  destruct (startsDD (c :: t)) eqn:Hs.
  - apply startsDD_true in Hs as [t' [= -> ->]].
    rewrite ReplaceAll_DD_match.
    rewrite (collapseRuns_cons "-" (strings.ReplaceAll _ _ _)).
    rewrite (collapseRuns_cons "-" ("-"%char :: t')).
    rewrite (collapseRuns_cons "-" t').
    rewrite ReplaceAll_DD_head, IH by (cbn; lia).
    cbn. done.
  - rewrite ReplaceAll_DD_other by done.
    rewrite !collapseRuns_cons, ReplaceAll_DD_head, IH by (cbn; lia). done.
Qed.

Lemma length_ReplaceAll_DD (s : gostring) :
  (length (strings.ReplaceAll s (str "--") (str "-")) <= length s)%nat
  /\ (strings.Contains s (str "--") = true ->
      (length (strings.ReplaceAll s (str "--") (str "-")) < length s)%nat).
Proof.
  induction s as [s IH] using gostring_length_ind.
  destruct s as [|c t]; [done|].
  rewrite Contains_DD_cons.
  destruct (startsDD (c :: t)) eqn:Hs.
  - apply startsDD_true in Hs as [t' [= -> ->]].
    rewrite ReplaceAll_DD_match. cbn [length].
    destruct (IH t') as [Hle _]; [cbn; lia|]. split; [lia|]. intros _. lia.
  - rewrite ReplaceAll_DD_other by done. cbn [length orb].
    destruct (IH t) as [Hle Hlt]; [cbn; lia|]. split; [lia|].
    intros Hc. specialize (Hlt Hc). lia.
Qed.

Lemma collapseRuns_fixed (s : gostring) :
  strings.Contains s (str "--") = false -> collapseRuns s = s.
Proof.
  induction s as [|c t IH]; [done|].
  rewrite Contains_DD_cons. intros [Hs Hc]%orb_false_iff.
  rewrite collapseRuns_cons, (IH Hc).
  destruct t as [|d t]; cbn [head]; [by rewrite andb_false_r|].
  cbn in Hs. destruct (isDash c); cbn [andb] in *; [|done].
  apply isDash_false in Hs. rewrite bool_decide_eq_false_2; [done|congruence].
Qed.

Lemma Contains_collapseRuns (s : gostring) :
  strings.Contains (collapseRuns s) (str "--") = false.
Proof.
  induction s as [|c t IH]; [done|].
  rewrite collapseRuns_cons.
  destruct (isDash c) eqn:Hc; cbn [andb].
  - case_bool_decide as Hh; [done|].
    rewrite Contains_DD_cons, IH, orb_false_r.
    pose proof (collapseRuns_head t) as Hhd.
    destruct (collapseRuns t) as [|d t']; [done|]. cbn. rewrite Hc; cbn.
    apply isDash_false. intros ->. apply Hh. by rewrite <- Hhd.
  - rewrite Contains_DD_cons, IH, orb_false_r.
    destruct (collapseRuns t) as [|d t']; [done|]. cbn. by rewrite Hc.
Qed.

(** The loop, given a round for every byte of the string, ends through
    its condition, and what it returns is the collapse in one pass. *)
Lemma collapseLoop_collapseRuns (fuel : nat) (s : gostring) :
  (length s <= fuel)%nat -> progress.collapseLoop fuel s = collapseRuns s.
Proof.
  revert s. induction fuel as [|fuel IH]; intros s Hlen.
  - destruct s; [done|cbn in Hlen; lia].
  - cbn [progress.collapseLoop].
    destruct (strings.Contains s (str "--")) eqn:Hc.
    + rewrite IH; [apply collapseRuns_ReplaceAll|].
      destruct (length_ReplaceAll_DD s) as [_ Hlt]. specialize (Hlt Hc). lia.
    + by rewrite collapseRuns_fixed.
Qed.

(** *** Trimming *)

Lemma dropWhile_ext (p q : ascii -> bool) (s : gostring) :
  (forall c, p c = q c) -> strings.dropWhile p s = strings.dropWhile q s.
Proof. intros Hpq. induction s as [|c t IH]; cbn; [done|]. by rewrite Hpq, IH. Qed.

Lemma inCutset_dash (c : ascii) : strings.inCutset (str "-") c = isDash c.
Proof.
  unfold strings.inCutset, isDash. cbn.
  apply bool_decide_ext. apply list_elem_of_singleton.
Qed.

Lemma TrimLeft_dash (s : gostring) :
  strings.TrimLeft s (str "-") = trimLeadingDashes s.
Proof. apply dropWhile_ext, inCutset_dash. Qed.

Lemma TrimRight_dash (s : gostring) :
  strings.TrimRight s (str "-") = trimTrailingDashes s.
Proof.
  unfold strings.TrimRight, trimTrailingDashes.
  f_equal. apply dropWhile_ext, inCutset_dash.
Qed.

(** What is trimmed at the end is a prefix, what is trimmed at the start
    a suffix. *)
Lemma trimTrailingDashes_prefix (s : gostring) :
  exists b, s = trimTrailingDashes s ++ b.
Proof.
  exists (reverse (strings.takeWhile isDash (reverse s))).
  unfold trimTrailingDashes. rewrite <- reverse_app, takeWhile_dropWhile.
  by rewrite reverse_involutive.
Qed.

Lemma trimLeadingDashes_suffix (s : gostring) :
  exists a, s = a ++ trimLeadingDashes s.
Proof.
  exists (strings.takeWhile isDash s). symmetry. apply takeWhile_dropWhile.
Qed.

Lemma trimLeadingDashes_head (s : gostring) :
  head (trimLeadingDashes s) <> Some "-"%char.
Proof.
  pose proof (dropWhile_head isDash s) as Hh. unfold trimLeadingDashes.
  destruct (strings.dropWhile isDash s) as [|c t]; [done|].
  cbn. intros [= ->]. done.
Qed.

Lemma trimTrailingDashes_last (s : gostring) :
  last (trimTrailingDashes s) <> Some "-"%char.
Proof.
  unfold trimTrailingDashes. rewrite last_reverse.
  apply (trimLeadingDashes_head (reverse s)).
Qed.

Lemma trimTrailingDashes_id (s : gostring) :
  last s <> Some "-"%char -> trimTrailingDashes s = s.
Proof.
  intros Hl. unfold trimTrailingDashes.
  rewrite dropWhile_id; [apply reverse_involutive|].
  rewrite <- head_reverse in Hl.
  destruct (reverse s) as [|c t]; [done|]. cbn in Hl.
  apply isDash_false. congruence.
Qed.

Lemma last_dropWhile (p : ascii -> bool) (s : gostring) :
  strings.dropWhile p s = [] \/ last (strings.dropWhile p s) = last s.
Proof.
  induction s as [|c t IH]; [by left|]. cbn [strings.dropWhile].
  destruct (p c); [|by right].
  destruct IH as [IH|IH]; [by left|].
  destruct t as [|d t]; [by left|]. right. by rewrite IH.
Qed.

(** Trimmed at both ends, a string needs no trimming at its end. *)
Lemma trim_both_last (s : gostring) :
  last (trimLeadingDashes (trimTrailingDashes s)) <> Some "-"%char.
Proof.
  destruct (last_dropWhile isDash (trimTrailingDashes s)) as [Hnil|Hlast];
    unfold trimLeadingDashes.
  - by rewrite Hnil.
  - rewrite Hlast. apply trimTrailingDashes_last.
Qed.

Lemma length_trimTrailingDashes (s : gostring) :
  (length (trimTrailingDashes s) <= length s)%nat.
Proof.
  destruct (trimTrailingDashes_prefix s) as [b Hb].
  rewrite Hb at 2. rewrite length_app. lia.
Qed.

Lemma head_prefix (a b : gostring) : a <> [] -> head (a ++ b) = head a.
Proof. by destruct a. Qed.

(** *** What passes on to parts of a string *)

Lemma startsDD_app (a b : gostring) :
  startsDD a = true -> startsDD (a ++ b) = true.
Proof. intros [t ->]%startsDD_true. reflexivity. Qed.

Lemma Contains_DD_app (a b : gostring) :
  strings.Contains (a ++ b) (str "--") = false ->
  strings.Contains a (str "--") = false /\ strings.Contains b (str "--") = false.
Proof.
  induction a as [|c a IH]; [done|]. cbn [app].
  rewrite !Contains_DD_cons. intros [Hs Hc]%orb_false_iff.
  destruct (IH Hc) as [Ha Hb]. split; [|done].
  rewrite Ha, orb_false_r.
  destruct (startsDD (c :: a)) eqn:Hsa; [|done].
  apply (startsDD_app _ b) in Hsa. cbn [app] in Hsa. congruence.
Qed.

Lemma Forall_collapseRuns (P : ascii -> Prop) (s : gostring) :
  Forall P s -> Forall P (collapseRuns s).
Proof.
  induction 1 as [|c t Hc Ht IH]; [constructor|].
  rewrite collapseRuns_cons.
  destruct (isDash c && bool_decide (head t = Some "-"%char)); [done|].
  by constructor.
Qed.

Lemma Forall_prefix (P : ascii -> Prop) (a b : gostring) :
  Forall P (a ++ b) -> Forall P a.
Proof. by intros [? _]%Forall_app. Qed.

Lemma Forall_suffix (P : ascii -> Prop) (a b : gostring) :
  Forall P (a ++ b) -> Forall P b.
Proof. by intros [_ ?]%Forall_app. Qed.

(** *** Bytes and runes *)

Lemma byteZ_range (c : ascii) : 0 <= byteZ c < 256.
Proof.
  unfold byteZ. pose proof (N_ascii_bounded c). lia.
Qed.

Lemma Zbyte_byteZ (c : ascii) : Zbyte (byteZ c) = c.
Proof.
  unfold Zbyte. pose proof (byteZ_range c).
  rewrite Z.mod_small by lia. unfold byteZ.
  rewrite N2Z.id. apply ascii_N_embedding.
Qed.

Lemma EncodeRune_ascii (r : rune) :
  0 <= r < 128 -> utf8.EncodeRune r = [Zbyte r].
Proof.
  intros Hr. unfold utf8.EncodeRune.
  destruct (Z.leb_spec 0 r); [|lia]. destruct (Z.leb_spec r 127); [done|lia].
Qed.

Lemma lor_ge_l (a b : Z) : 0 <= a -> 0 <= b -> a <= Z.lor a b.
Proof.
  intros Ha Hb. pose proof (Zbitwise.Z.sub_lor_l_same_l b a) as Hs.
  assert (0 <= Z.land b (Z.lnot a)) by (apply Z.land_nonneg; auto).
  lia.
Qed.

Lemma lor_ge_r (a b : Z) : 0 <= a -> 0 <= b -> b <= Z.lor a b.
Proof. intros. rewrite Z.lor_comm. by apply lor_ge_l. Qed.

Lemma land_mask_nonneg (x m : Z) : 0 <= m -> 0 <= Z.land x m.
Proof. intros. apply Z.land_nonneg. auto. Qed.

(** The payload bits of the leading bytes, by enumeration of the
    ranges of the table [first]. *)
Lemma land_lead2 (z : Z) : 194 <= z <= 223 -> 2 <= Z.land z 31.
Proof.
  intros Hz.
  assert (Hall : Forall (fun z => 2 <= Z.land z 31) (seqZ 194 30))
    by (apply (bool_decide_unpack _); by vm_compute).
  rewrite Forall_forall in Hall. apply Hall, elem_of_seqZ. lia.
Qed.

Lemma land_lead3 (z : Z) : 225 <= z <= 239 -> 1 <= Z.land z 15.
Proof.
  intros Hz.
  assert (Hall : Forall (fun z => 1 <= Z.land z 15) (seqZ 225 15))
    by (apply (bool_decide_unpack _); by vm_compute).
  rewrite Forall_forall in Hall. apply Hall, elem_of_seqZ. lia.
Qed.

Lemma land_lead4 (z : Z) : 241 <= z <= 244 -> 1 <= Z.land z 7.
Proof.
  intros Hz.
  assert (Hall : Forall (fun z => 1 <= Z.land z 7) (seqZ 241 4))
    by (apply (bool_decide_unpack _); by vm_compute).
  rewrite Forall_forall in Hall. apply Hall, elem_of_seqZ. lia.
Qed.

Lemma land_second3 (z : Z) : 160 <= z <= 191 -> 32 <= Z.land z 63.
Proof.
  intros Hz.
  assert (Hall : Forall (fun z => 32 <= Z.land z 63) (seqZ 160 32))
    by (apply (bool_decide_unpack _); by vm_compute).
  rewrite Forall_forall in Hall. apply Hall, elem_of_seqZ. lia.
Qed.

Lemma land_second4 (z : Z) : 144 <= z <= 191 -> 16 <= Z.land z 63.
Proof.
  intros Hz.
  assert (Hall : Forall (fun z => 16 <= Z.land z 63) (seqZ 144 48))
    by (apply (bool_decide_unpack _); by vm_compute).
  rewrite Forall_forall in Hall. apply Hall, elem_of_seqZ. lia.
Qed.

(** What the table [first] says of a leading byte: the sequence has 2, 3
    or 4 bytes, its second byte is not ASCII, and the payload of the
    first two bytes is large enough to exclude the shorter encodings. *)
Lemma first_Some (s0 : Z) (sz : nat) (lo hi : Z) :
  utf8.first s0 = Some (sz, (lo, hi)) ->
  128 <= lo /\ hi <= 191 /\
  ((sz = 2%nat /\ 2 <= Z.land s0 31)
   \/ (sz = 3%nat /\ (1 <= Z.land s0 15 \/ 160 <= lo))
   \/ (sz = 4%nat /\ (1 <= Z.land s0 7 \/ 144 <= lo))).
Proof.
  unfold utf8.first, utf8.locb, utf8.hicb.
  repeat (match goal with
          | |- context [if ?a <? ?b then _ else _] => destruct (Z.ltb_spec a b)
          | |- context [if ?a =? ?b then _ else _] => destruct (Z.eqb_spec a b)
          end);
    intros [= <- <- <-]; (split; [lia|split; [lia|]]);
    first
      [ left; split; [done|]; apply land_lead2; lia
      | right; left; split; [done|];
        first [right; lia | left; apply land_lead3; lia]
      | right; right; split; [done|];
        first [right; lia | left; apply land_lead4; lia] ].
Qed.

Lemma shiftl_ge (a n k : Z) : 0 <= n -> k <= a -> 0 <= k -> k * 2 ^ n <= Z.shiftl a n.
Proof.
  intros Hn Hk H0. rewrite Z.shiftl_mul_pow2 by done.
  apply Z.mul_le_mono_nonneg_r; [|done]. apply Z.pow_nonneg. lia.
Qed.

Lemma shiftl_nonneg' (a n : Z) : 0 <= a -> 0 <= Z.shiftl a n.
Proof. intros. by apply Z.shiftl_nonneg. Qed.

Lemma rune2_ge (a b : Z) :
  2 <= a -> 0 <= b -> 128 <= Z.lor (Z.shiftl a 6) b.
Proof.
  intros Ha Hb. pose proof (shiftl_ge a 6 2 ltac:(lia) Ha ltac:(lia)) as Hs.
  pose proof (lor_ge_l (Z.shiftl a 6) b ltac:(apply shiftl_nonneg'; lia) Hb).
  change (2 * 2 ^ 6) with 128 in Hs. lia.
Qed.

Lemma rune3_ge (a b c : Z) :
  0 <= a -> 0 <= b -> 0 <= c -> 1 <= a \/ 32 <= b ->
  128 <= Z.lor (Z.lor (Z.shiftl a 12) (Z.shiftl b 6)) c.
Proof.
  intros Ha Hb Hc Hab.
  pose proof (shiftl_nonneg' a 12 Ha) as Hsa.
  pose proof (shiftl_nonneg' b 6 Hb) as Hsb.
  assert (Hin : 0 <= Z.lor (Z.shiftl a 12) (Z.shiftl b 6)) by (apply Z.lor_nonneg; auto).
  pose proof (lor_ge_l _ c Hin Hc) as H1.
  destruct Hab as [H|H].
  - pose proof (shiftl_ge a 12 1 ltac:(lia) H ltac:(lia)) as Hs.
    pose proof (lor_ge_l _ _ Hsa Hsb). change (1 * 2 ^ 12) with 4096 in Hs. lia.
  - pose proof (shiftl_ge b 6 32 ltac:(lia) H ltac:(lia)) as Hs.
    pose proof (lor_ge_r _ _ Hsa Hsb). change (32 * 2 ^ 6) with 2048 in Hs. lia.
Qed.

Lemma rune4_ge (a b c d : Z) :
  0 <= a -> 0 <= b -> 0 <= c -> 0 <= d -> 1 <= a \/ 16 <= b ->
  128 <= Z.lor (Z.lor (Z.lor (Z.shiftl a 18) (Z.shiftl b 12)) (Z.shiftl c 6)) d.
Proof.
  intros Ha Hb Hc Hd Hab.
  pose proof (shiftl_nonneg' a 18 Ha) as Hsa.
  pose proof (shiftl_nonneg' b 12 Hb) as Hsb.
  pose proof (shiftl_nonneg' c 6 Hc) as Hsc.
  assert (Hin : 0 <= Z.lor (Z.shiftl a 18) (Z.shiftl b 12)) by (apply Z.lor_nonneg; auto).
  assert (Hin2 : 0 <= Z.lor (Z.lor (Z.shiftl a 18) (Z.shiftl b 12)) (Z.shiftl c 6))
    by (apply Z.lor_nonneg; auto).
  pose proof (lor_ge_l _ d Hin2 Hd) as H1.
  pose proof (lor_ge_l _ _ Hin Hsc) as H2.
  destruct Hab as [H|H].
  - pose proof (shiftl_ge a 18 1 ltac:(lia) H ltac:(lia)) as Hs.
    pose proof (lor_ge_l _ _ Hsa Hsb). change (1 * 2 ^ 18) with 262144 in Hs. lia.
  - pose proof (shiftl_ge b 12 16 ltac:(lia) H ltac:(lia)) as Hs.
    pose proof (lor_ge_r _ _ Hsa Hsb). change (16 * 2 ^ 12) with 65536 in Hs. lia.
Qed.

(** [DecodeRuneInString] at an ASCII byte gives the byte, with width 1;
    at any other byte it gives a rune that is not ASCII (U+FFFD for an
    invalid sequence), and the bytes it takes besides the first are in
    the string and are not ASCII. *)
Lemma DecodeRune_cons (c : ascii) (t : gostring) :
  exists (r : rune) (w' : nat),
    utf8.DecodeRuneInString (c :: t) = (r, S w')
    /\ (byteZ c < 128 -> r = byteZ c /\ w' = 0%nat)
    /\ (128 <= byteZ c ->
        128 <= r /\ (w' <= length t)%nat
        /\ Forall (fun b => 128 <= byteZ b) (take w' t)).
Proof.
  assert (Herr : exists (r : rune) (w' : nat),
             (utf8.RuneError, 1%nat) = (r, S w')
             /\ (byteZ c < 128 -> r = byteZ c /\ w' = 0%nat)
             /\ (128 <= byteZ c ->
                 128 <= r /\ (w' <= length t)%nat
                 /\ Forall (fun b => 128 <= byteZ b) (take w' t))
             \/ byteZ c < 128).
  { destruct (Z.lt_ge_cases (byteZ c) 128) as [Hlt|Hge]; [by exists 0, 0%nat; right|].
    exists utf8.RuneError, 0%nat. left. split; [done|]. split; [lia|].
    intros _. unfold utf8.RuneError. split; [lia|]. split; [lia|]. constructor. }
  unfold utf8.DecodeRuneInString, utf8.RuneSelf.
  destruct (Z.ltb_spec (byteZ c) 128) as [Hlt|Hge].
  { exists (byteZ c), 0%nat. split; [done|]. split; [done|lia]. }
  assert (Herr' : exists (r : rune) (w' : nat),
             (utf8.RuneError, 1%nat) = (r, S w')
             /\ (byteZ c < 128 -> r = byteZ c /\ w' = 0%nat)
             /\ (128 <= byteZ c ->
                 128 <= r /\ (w' <= length t)%nat
                 /\ Forall (fun b => 128 <= byteZ b) (take w' t))).
  { destruct Herr as (r & w' & [Hok|Hbad]); [by exists r, w'|lia]. }
  clear Herr.
  destruct (utf8.first (byteZ c)) as [[sz [lo hi]]|] eqn:Hfirst; [|done].
  apply first_Some in Hfirst as (Hlo & Hhi & Hsz).
  destruct (length (c :: t) <? sz)%nat; [done|].
  destruct t as [|c1 t1]; [done|].
  destruct (Z.ltb_spec (byteZ c1) lo) as [|Hlo1]; cbn [orb]; [done|].
  destruct (Z.ltb_spec hi (byteZ c1)) as [|Hhi1]; [done|].
  pose proof (byteZ_range c) as Hc. pose proof (byteZ_range c1) as Hc1.
  destruct (Nat.leb_spec sz 2) as [Hsz2|Hsz2].
  { eexists _, 1%nat. split; [done|]. split; [lia|]. intros _.
    split; [|split; [cbn; lia|repeat constructor; lia]].
    destruct Hsz as [[_ Ha]|[[-> _]|[-> _]]]; [|lia|lia].
    apply rune2_ge; [done|]. by apply land_mask_nonneg. }
  destruct t1 as [|c2 t2]; [done|].
  unfold utf8.cont, utf8.locb, utf8.hicb.
  destruct (Z.leb_spec 128 (byteZ c2)) as [Hc2|]; cbn [andb negb]; [|done].
  destruct (Z.leb_spec (byteZ c2) 191) as [Hc2'|]; cbn [andb negb]; [|done].
  destruct (Nat.leb_spec sz 3) as [Hsz3|Hsz3].
  { eexists _, 2%nat. split; [done|]. split; [lia|]. intros _.
    split; [|split; [cbn; lia|repeat constructor; lia]].
    destruct Hsz as [[-> _]|[[_ Ha]|[-> _]]]; [lia| |lia].
    apply rune3_ge; try by apply land_mask_nonneg.
    destruct Ha as [Ha|Ha]; [by left|right]. apply land_second3. lia. }
  destruct t2 as [|c3 t3]; [done|].
  destruct (Z.leb_spec 128 (byteZ c3)) as [Hc3|]; cbn [andb negb]; [|done].
  destruct (Z.leb_spec (byteZ c3) 191) as [Hc3'|]; cbn [andb negb]; [|done].
  eexists _, 3%nat. split; [done|]. split; [lia|]. intros _.
  split; [|split; [cbn; lia|repeat constructor; lia]].
  destruct Hsz as [[-> _]|[[-> _]|[_ Ha]]]; [lia|lia|].
  apply rune4_ge; try by apply land_mask_nonneg.
  destruct Ha as [Ha|Ha]; [by left|right]. apply land_second4. lia.
Qed.

(** A loop over the runes of a string that keeps ASCII runes only keeps
    what the filter over its bytes keeps: the bytes of longer sequences
    and the invalid bytes are not ASCII. *)
Lemma range_filter_ascii (keep : rune -> bool) :
  (forall r, keep r = true -> 0 <= r < 128) ->
  forall (s : gostring) (skip i : nat),
    (skip <= length s)%nat ->
    Forall (fun b => 128 <= byteZ b) (take skip s) ->
    flat_map (fun ir : nat * rune =>
                if keep ir.2 then utf8.EncodeRune ir.2 else [])
             (utf8.range_from skip i s)
    = List.filter (fun c => keep (byteZ c)) s.
Proof.
  intros Hkeep.
  assert (Hhigh : forall r, 128 <= r -> keep r = false).
  { intros r Hr. destruct (keep r) eqn:Hk; [|done]. apply Hkeep in Hk. lia. }
  induction s as [|c t IH]; intros skip i Hskip Hcont; [done|].
  cbn [utf8.range_from List.filter].
  destruct skip as [|k].
  - destruct (DecodeRune_cons c t) as (r & w' & -> & Hascii & Hother).
    cbn [flat_map fst snd Nat.pred].
    destruct (Z.lt_ge_cases (byteZ c) 128) as [Hlt|Hge].
    + destruct (Hascii Hlt) as [-> ->].
      rewrite (IH 0%nat (S i)); [|cbn; lia|constructor].
      destruct (keep (byteZ c)) eqn:Hk; [|done].
      rewrite EncodeRune_ascii by (pose proof (byteZ_range c); lia).
      by rewrite Zbyte_byteZ.
    + destruct (Hother Hge) as (Hr & Hw & Hall).
      rewrite (Hhigh r Hr), (Hhigh (byteZ c) Hge). cbn [app].
      by apply IH.
  - cbn [take] in Hcont. apply Forall_cons in Hcont as [Hc Hcont].
    rewrite (Hhigh (byteZ c) Hc). apply IH; [cbn in Hskip; lia|done].
Qed.

Lemma keepRune_ascii (r : rune) : progress.keepRune r = true -> 0 <= r < 128.
Proof. unfold progress.keepRune. lia. Qed.

Lemma keepRune_isSlugByte (c : ascii) :
  progress.keepRune (byteZ c) = isSlugByte c.
Proof. destruct c as [[] [] [] [] [] [] [] []]; vm_compute; reflexivity. Qed.

Lemma filter_ext_bool {A} (f g : A -> bool) (l : list A) :
  (forall x, f x = g x) -> List.filter f l = List.filter g l.
Proof. intros Hfg. induction l as [|x l IH]; cbn; [done|]. by rewrite Hfg, IH. Qed.

(** The filter loop of [sanitizePlanName] is the filter of the slug
    bytes. *)
Lemma clean_filter (s : gostring) :
  flat_map (fun ir : nat * rune =>
              if progress.keepRune ir.2 then utf8.EncodeRune ir.2 else [])
           (utf8.range s)
  = List.filter isSlugByte s.
Proof.
  unfold utf8.range.
  rewrite (range_filter_ascii progress.keepRune keepRune_ascii s 0 0);
    [|lia|constructor].
  apply filter_ext_bool, keepRune_isSlugByte.
Qed.

(** Replacing every space by a dash, byte by byte. *)
Lemma ReplaceAll_space (s : gostring) :
  strings.ReplaceAll s (str " ") (str "-")
  = List.map (fun c => if bool_decide (c = " "%char) then "-"%char else c) s.
Proof.
  unfold strings.ReplaceAll.
  replace (streq (str " ") (str "-")) with false by reflexivity.
  induction s as [|c t IH]; [done|].
  cbn [strings.replace_from List.map].
  replace (strings.HasPrefix (c :: t) (str " ")) with (bool_decide (c = " "%char)).
  - change (Nat.pred (length (str " "))) with 0%nat.
    case_bool_decide; by rewrite IH.
  - unfold strings.HasPrefix. cbn. unfold streq.
    apply bool_decide_ext. split; [by intros ->|by intros [= ->]].
Qed.

Lemma Forall_filter_isSlugByte (s : gostring) :
  Forall (fun c => c ∈ slugChars) (List.filter isSlugByte s).
Proof.
  induction s as [|c t IH]; cbn; [constructor|].
  destruct (isSlugByte c) eqn:Hc; [|done].
  constructor; [|done]. by apply bool_decide_eq_true in Hc.
Qed.

(** *** Pieces of a string *)

Lemma pieceOf_trans (a b c : gostring) : pieceOf a b -> pieceOf b c -> pieceOf a c.
Proof.
  intros (x & y & ->) (x' & y' & ->). exists (x' ++ x), (y ++ y').
  by rewrite <- !app_assoc.
Qed.

Lemma pieceOf_take (n : nat) (s : gostring) : pieceOf (take n s) s.
Proof. exists [], (drop n s). cbn. by rewrite take_drop. Qed.

Lemma pieceOf_trimTrailing (s : gostring) : pieceOf (trimTrailingDashes s) s.
Proof. destruct (trimTrailingDashes_prefix s) as [b Hb]. by exists [], b. Qed.

Lemma pieceOf_trimLeading (s : gostring) : pieceOf (trimLeadingDashes s) s.
Proof.
  destruct (trimLeadingDashes_suffix s) as [a Ha]. exists a, [].
  by rewrite app_nil_r.
Qed.

Lemma Forall_pieceOf (P : ascii -> Prop) (a s : gostring) :
  pieceOf a s -> Forall P s -> Forall P a.
Proof.
  intros (x & y & ->) H. by apply Forall_app in H as [_ [? _]%Forall_app].
Qed.

Lemma Contains_DD_pieceOf (a s : gostring) :
  pieceOf a s -> strings.Contains s (str "--") = false ->
  strings.Contains a (str "--") = false.
Proof.
  intros (x & y & ->) H.
  apply Contains_DD_app in H as [_ H]. by apply Contains_DD_app in H as [H _].
Qed.

(** *** The slug *)

Lemma isSlug_unnamed : isSlug (str "unnamed").
Proof.
  unfold isSlug. split; [done|]. split; [cbn; lia|]. split.
  - apply (bool_decide_unpack _). by vm_compute.
  - repeat split; done.
Qed.

(** The code's slug is the slug in the words of the amended
    specification. *)
Lemma sanitizePlanName_amended (caseLower : rune -> rune) (desc : gostring) :
  progress.sanitizePlanName caseLower desc = slug_amended caseLower desc.
Proof.
  unfold progress.sanitizePlanName, slug_amended.
  rewrite ReplaceAll_space, clean_filter.
  rewrite collapseLoop_collapseRuns by done.
  unfold strings.Trim. rewrite TrimRight_dash, TrimLeft_dash.
  set (a2 := trimLeadingDashes (trimTrailingDashes (collapseRuns _))).
  assert (Hcut : (if (50 <? length a2)%nat
                  then strings.TrimRight (take 50 a2) (str "-") else a2)
                 = trimTrailingDashes (take 50 a2)).
  { destruct (Nat.ltb_spec 50 (length a2)) as [Hlong|Hshort].
    - apply TrimRight_dash.
    - rewrite take_ge by done. symmetry. apply trimTrailingDashes_id.
      apply trim_both_last. }
  rewrite Hcut.
  destruct (trimTrailingDashes (take 50 a2)) as [|c t] eqn:Ha3; [done|].
  by rewrite streq_cons_nil.
Qed.

Lemma slug_amended_isSlug (caseLower : rune -> rune) (desc : gostring) :
  isSlug (slug_amended caseLower desc).
Proof.
  unfold slug_amended.
  set (k := List.filter isSlugByte _).
  set (a2 := trimLeadingDashes (trimTrailingDashes (collapseRuns k))).
  assert (Hpiece : pieceOf (trimTrailingDashes (take 50 a2)) (collapseRuns k)).
  { eapply pieceOf_trans; [apply pieceOf_trimTrailing|].
    eapply pieceOf_trans; [apply pieceOf_take|].
    eapply pieceOf_trans; [apply pieceOf_trimLeading|apply pieceOf_trimTrailing]. }
  assert (Hlen : (length (trimTrailingDashes (take 50 a2)) <= 50)%nat).
  { pose proof (length_trimTrailingDashes (take 50 a2)) as Hl.
    rewrite length_take in Hl. lia. }
  assert (Hhead : trimTrailingDashes (take 50 a2) = []
                  \/ head (trimTrailingDashes (take 50 a2)) = head a2).
  { destruct (trimTrailingDashes_prefix (take 50 a2)) as [b Hb].
    destruct (trimTrailingDashes (take 50 a2)) as [|c t] eqn:Ha3; [by left|].
    right. destruct a2 as [|c' a2']; [done|].
    cbn in Hb. by injection Hb as -> _. }
  pose proof (trimTrailingDashes_last (take 50 a2)) as Hlast.
  destruct (trimTrailingDashes (take 50 a2)) as [|c t] eqn:Ha3;
    [apply isSlug_unnamed|].
  cbn [orUnnamed]. unfold isSlug.
  split; [done|]. split; [done|]. split; [|split; [|split]].
  - eapply Forall_pieceOf; [apply Hpiece|].
    apply Forall_collapseRuns, Forall_filter_isSlugByte.
  - eapply Contains_DD_pieceOf; [apply Hpiece|]. apply Contains_collapseRuns.
  - destruct Hhead as [?|Hhead]; [done|]. rewrite Hhead.
    apply trimLeadingDashes_head.
  - done.
Qed.

(** C2, as stated, fails: on [add LRU cache] the code gives
    [add-lru-cache], since it turns spaces into dashes before it strips,
    where the claim's words give [addlrucache]; and on [-a-] the code gives
    [a], since it trims the dashes at the ends. *)
Lemma slug_as_claimed_differs :
  progress.sanitizePlanName unicode.caseLower_excerpt (str "add LRU cache")
  = str "add-lru-cache"
  /\ slug_as_claimed unicode.caseLower_excerpt (str "add LRU cache")
     = str "addlrucache"
  /\ progress.sanitizePlanName unicode.caseLower_excerpt (str "-a-") = str "a"
  /\ slug_as_claimed unicode.caseLower_excerpt (str "-a-") = str "-a-".
Proof. repeat split; by vm_compute. Qed.

(** C2 (amended): for every plan description the slug is the description
    lowercased, with every space made a dash, the bytes other than
    lower-case letters, digits and dashes stripped, every run of dashes
    collapsed to one dash, the dashes at both ends trimmed, the result
    cut to 50 bytes and the dashes at its end trimmed again, and
    [unnamed] when nothing is left.  So the slug is never empty, has at
    most 50 bytes, all of them lower-case letters, digits or dashes, no
    two dashes in a row and no dash at either end. *)
Theorem sanitizePlanName_slug (caseLower : rune -> rune) (desc : gostring) :
  progress.sanitizePlanName caseLower desc = slug_amended caseLower desc
  /\ isSlug (progress.sanitizePlanName caseLower desc).
Proof.
  split; [apply sanitizePlanName_amended|].
  rewrite sanitizePlanName_amended. apply slug_amended_isSlug.
Qed.

(** ** List items (C4) *)

Lemma isDigitByte_byteZ (c : ascii) :
  isDigitByte c = (48 <=? byteZ c) && (byteZ c <=? 57).
Proof. destruct c as [[] [] [] [] [] [] [] []]; vm_compute; reflexivity. Qed.

Lemma byteZ_inj (c d : ascii) : byteZ c = byteZ d -> c = d.
Proof. intros Heq. by rewrite <- (Zbyte_byteZ c), <- (Zbyte_byteZ d), Heq. Qed.

Lemma byteZ_eqb (c d : ascii) : (byteZ c =? byteZ d) = bool_decide (c = d).
Proof.
  destruct (Z.eqb_spec (byteZ c) (byteZ d)) as [Heq|Hne].
  - apply byteZ_inj in Heq. by rewrite bool_decide_eq_true_2.
  - rewrite bool_decide_eq_false_2; [done|]. by intros ->.
Qed.

(** The numbered-list loop: it passes over the digits at the start of
    the line and answers yes when there is at least one and a dot and a
    space follow. *)
Lemma numberedLoop_spec (s pre : gostring) :
  progress.numberedLoop (pre ++ s) (utf8.range_from 0 (length pre) s)
  = match strings.dropWhile isDigitByte s with
    | c1 :: c2 :: _ =>
      bool_decide (c1 = "."%char) && bool_decide (c2 = " "%char)
      && (0 <? length pre + length (strings.takeWhile isDigitByte s))%nat
    | _ => false
    end.
Proof.
  revert pre. induction s as [|c t IH]; intros pre; [done|].
  cbn [utf8.range_from strings.dropWhile strings.takeWhile].
  destruct (DecodeRune_cons c t) as (r & w' & -> & Hascii & Hother).
  cbn [progress.numberedLoop Nat.pred].
  rewrite isDigitByte_byteZ.
  destruct (Z.lt_ge_cases (byteZ c) 128) as [Hlt|Hge].
  - destruct (Hascii Hlt) as [-> ->].
    destruct ((48 <=? byteZ c) && (byteZ c <=? 57)) eqn:Hdig.
    + specialize (IH (pre ++ [c])).
      rewrite <- app_assoc, length_app in IH. cbn [app length] in IH.
      replace (length pre + 1)%nat with (S (length pre)) in IH by lia.
      rewrite IH. cbn [length].
      replace (S (length pre) + length (strings.takeWhile isDigitByte t))%nat
        with (length pre + S (length (strings.takeWhile isDigitByte t)))%nat by lia.
      done.
    + change 46 with (byteZ "."%char). rewrite byteZ_eqb.
      destruct t as [|c2 t'].
      * rewrite lookup_ge_None_2 by (rewrite length_app; cbn; lia).
        rewrite (bool_decide_eq_false_2 (None = Some " "%char)) by done.
        by rewrite !andb_false_r.
      * replace ((pre ++ c :: c2 :: t') !! (length pre + 1)%nat) with (Some c2).
        2:{ rewrite lookup_app_r by lia.
            by replace (length pre + 1 - length pre)%nat with 1%nat by lia. }
        cbn [strings.takeWhile length]. rewrite Nat.add_0_r.
        replace (Z.of_nat (length pre)
                 <? Z.of_nat (length (pre ++ c :: c2 :: t')) - 1) with true.
        2:{ symmetry. apply Z.ltb_lt. rewrite length_app. cbn [length]. lia. }
        rewrite andb_true_r.
        replace (bool_decide (Some c2 = Some " "%char))
          with (bool_decide (c2 = " "%char))
          by (apply bool_decide_ext; split; [by intros ->|by intros [= ->]]).
        destruct (bool_decide (c = "."%char)), (bool_decide (c2 = " "%char)),
          (0 <? length pre)%nat; done.
  - destruct (Hother Hge) as (Hr & _ & _).
    replace ((48 <=? r) && (r <=? 57)) with false by lia.
    replace ((48 <=? byteZ c) && (byteZ c <=? 57)) with false by lia.
    replace (r =? 46) with false by lia. cbn [andb].
    destruct t as [|c2 t']; [done|].
    rewrite (bool_decide_eq_false_2 (c = "."%char)); [done|].
    intros ->. vm_compute in Hge. congruence.
Qed.

(** [isListItem] answers whether the line begins with a marker. *)
Lemma isListItem_beginsWithMarker (line : gostring) :
  progress.isListItem line = beginsWithMarker line.
Proof.
  unfold progress.isListItem, beginsWithMarker.
  destruct (strings.HasPrefix line (str "- ") || strings.HasPrefix line (str "* "));
    [done|].
  cbn [orb]. unfold utf8.range.
  pose proof (numberedLoop_spec line []) as Hloop. cbn [app length] in Hloop.
  rewrite Hloop. rewrite drop_takeWhile.
  destruct (strings.takeWhile isDigitByte line) as [|d ds] eqn:Htake.
  - cbn. destruct (strings.dropWhile isDigitByte line) as [|c1 [|c2 rest]];
      by rewrite ?andb_false_r.
  - rewrite streq_cons_nil. cbn [negb andb length].
    destruct (strings.dropWhile isDigitByte line) as [|c1 [|c2 rest]];
      [done|done|].
    unfold strings.HasPrefix. cbn.
    destruct (decide (c1 = "."%char)) as [->|Hc1],
             (decide (c2 = " "%char)) as [->|Hc2];
      rewrite ?bool_decide_eq_true_2, ?(bool_decide_eq_false_2 (_ = "."%char)),
        ?(bool_decide_eq_false_2 (_ = " "%char)) by done; cbn;
      try done; symmetry; apply streq_false; congruence.
Qed.

Lemma take_drop_length_takeWhile_aux (p : ascii -> bool) (s : gostring) :
  strings.takeWhile p s ++ drop (length (strings.takeWhile p s)) s = s.
Proof. rewrite drop_takeWhile. apply takeWhile_dropWhile. Qed.

Lemma HasPrefix_iff (s p : gostring) :
  strings.HasPrefix s p = true <-> exists rest, s = p ++ rest.
Proof.
  unfold strings.HasPrefix. rewrite andb_true_iff, Nat.leb_le, streq_true. split.
  - intros [_ Htake]. exists (drop (length p) s).
    rewrite <- Htake at 1. by rewrite take_drop.
  - intros [rest ->]. rewrite length_app, take_app_length. split; [lia|done].
Qed.

Lemma HasPrefix_cons_ne (c d : ascii) (t p : gostring) :
  c <> d -> strings.HasPrefix (c :: t) (d :: p) = false.
Proof.
  intros Hne. destruct (strings.HasPrefix (c :: t) (d :: p)) eqn:Hp; [|done].
  apply HasPrefix_iff in Hp as [rest [= ? _]]. done.
Qed.

Lemma isDigitByte_in (c : ascii) :
  isDigitByte c = true <-> c ∈ str "0123456789".
Proof. apply bool_decide_eq_true. Qed.

(** What it is to begin with a list marker. *)
Lemma beginsWithMarker_iff (line : gostring) :
  beginsWithMarker line = true <->
  (exists rest, line = str "- " ++ rest)
  \/ (exists rest, line = str "* " ++ rest)
  \/ (exists digits rest,
        digits <> [] /\ Forall (fun c => c ∈ str "0123456789") digits
        /\ line = digits ++ str ". " ++ rest).
Proof.
  unfold beginsWithMarker.
  rewrite !orb_true_iff, andb_true_iff, negb_true_iff, streq_false, !HasPrefix_iff.
  split.
  - intros [[H|H]|[Hne [rest Hrest]]]; [by left|by right; left|].
    right; right. exists (strings.takeWhile isDigitByte line), rest.
    split; [done|]. split.
    + eapply Forall_impl; [apply takeWhile_Forall|].
      intros c Hc. by apply isDigitByte_in.
    + rewrite <- Hrest. by rewrite take_drop_length_takeWhile_aux.
  - intros [H|[H|(digits & rest & Hne & Hdig & ->)]]; [by left; left|by left; right|].
    right.
    assert (Htake : strings.takeWhile isDigitByte (digits ++ str ". " ++ rest) = digits).
    { apply takeWhile_app_stop; [|done].
      eapply Forall_impl; [apply Hdig|]. intros c Hc. by apply isDigitByte_in. }
    rewrite Htake. split; [done|]. exists rest. by rewrite drop_app_length.
Qed.

(** A line that starts with a space or a tab begins with no marker. *)
Lemma beginsWithMarker_blank (c : ascii) (t : gostring) :
  strings.inCutset [" "%char; tab] c = true -> beginsWithMarker (c :: t) = false.
Proof.
  intros Hc. apply bool_decide_eq_true in Hc.
  assert (Hcases : c = " "%char \/ c = tab).
  { apply elem_of_cons in Hc as [->|Hc]; [by left|right].
    by apply list_elem_of_singleton in Hc. }
  unfold beginsWithMarker, str. cbn [list_ascii_of_string].
  rewrite !HasPrefix_cons_ne by (destruct Hcases as [->| ->]; done).
  cbn [orb strings.takeWhile].
  replace (isDigitByte c) with false by (destruct Hcases as [->| ->]; done).
  done.
Qed.

(** [formatListItem] indents the lines that begin with a marker, and
    only those. *)
Lemma formatListItem_indent (line : gostring) :
  progress.formatListItem line = indentListItem line.
Proof.
  unfold progress.formatListItem, indentListItem, strings.TrimLeft.
  destruct (streq (strings.dropWhile (strings.inCutset [" "%char; tab]) line) line)
    eqn:Htrim.
  - apply streq_true in Htrim. rewrite Htrim.
    by rewrite isListItem_beginsWithMarker.
  - apply streq_false in Htrim.
    destruct line as [|c t]; [done|]. cbn [strings.dropWhile] in Htrim.
    destruct (strings.inCutset [" "%char; tab] c) eqn:Hc; [|done].
    by rewrite beginsWithMarker_blank.
Qed.

Lemma numberedLoop_mirrored (line : gostring) (its : list (nat * rune)) :
  tui.numberedLoop line its = progress.numberedLoop line its.
Proof.
  induction its as [|[i r] rest IH]; [done|].
  cbn [tui.numberedLoop progress.numberedLoop]. by rewrite IH.
Qed.

Lemma tui_formatListItem_indent (line : gostring) :
  tui.formatListItem line = indentListItem line.
Proof.
  rewrite <- formatListItem_indent.
  unfold tui.formatListItem, progress.formatListItem,
    tui.isListItem, progress.isListItem.
  by rewrite numberedLoop_mirrored.
Qed.

(** *** Lines *)

Lemma Split_nonempty (s : gostring) (sep : ascii) : strings.Split s sep <> [].
Proof.
  induction s as [|c t IH]; [done|]. cbn [strings.Split].
  case_bool_decide; [done|]. by destruct (strings.Split t sep).
Qed.

Lemma Split_snoc_sep (s : gostring) (sep : ascii) :
  strings.Split (s ++ [sep]) sep = strings.Split s sep ++ [[]].
Proof.
  induction s as [|c t IH]; cbn [app strings.Split].
  - by rewrite bool_decide_eq_true_2.
  - rewrite IH. case_bool_decide; [done|].
    pose proof (Split_nonempty t sep).
    by destruct (strings.Split t sep).
Qed.

Lemma filter_app_bool {A} (f : A -> bool) (l k : list A) :
  List.filter f (l ++ k) = List.filter f l ++ List.filter f k.
Proof. induction l as [|x l IH]; cbn; [done|]. destruct (f x); cbn; by rewrite IH. Qed.

(** Newlines at the end of a text add no line that is not empty. *)
Lemma nonEmptyLines_newlines (s ns : gostring) :
  Forall (fun c => c = nl) ns -> nonEmptyLines (s ++ ns) = nonEmptyLines s.
Proof.
  induction ns as [|c ns IH] using rev_ind; intros Hns.
  - by rewrite app_nil_r.
  - apply Forall_app in Hns as [Hns Hc]. apply Forall_inv in Hc as ->.
    unfold nonEmptyLines in *.
    rewrite app_assoc, Split_snoc_sep, filter_app_bool, IH by done.
    cbn. by rewrite app_nil_r.
Qed.

Lemma TrimRight_newlines (text : gostring) :
  exists ns, Forall (fun c => c = nl) ns
             /\ text = strings.TrimRight text [nl] ++ ns.
Proof.
  exists (reverse (strings.takeWhile (strings.inCutset [nl]) (reverse text))).
  split.
  - apply Forall_reverse. eapply Forall_impl; [apply takeWhile_Forall|].
    intros c Hc. apply bool_decide_eq_true in Hc.
    by apply list_elem_of_singleton in Hc.
  - unfold strings.TrimRight.
    rewrite <- reverse_app, takeWhile_dropWhile. by rewrite reverse_involutive.
Qed.

(** The lines of the text with its last newlines trimmed are the lines
    of the text. *)
Lemma nonEmptyLines_TrimRight (text : gostring) :
  nonEmptyLines (strings.TrimRight text [nl]) = nonEmptyLines text.
Proof.
  destruct (TrimRight_newlines text) as (ns & Hns & Htext).
  rewrite Htext at 2. symmetry. by apply nonEmptyLines_newlines.
Qed.

(** *** The loggers' writes *)

Lemma bind_run {S A B} (m : M S A) (k : A -> M S B) (s : S) :
  (m ≫= k) s = let '(a, s') := m s in k a s'.
Proof. reflexivity. Qed.

Lemma File_write_nil (f : File) : File_write [] f = f.
Proof.
  unfold File_write. destruct f as [n d l o]; cbn.
  destruct o; [|done]. by rewrite app_nil_r.
Qed.

Lemma File_write_app (a b : gostring) (f : File) :
  File_write b (File_write a f) = File_write (a ++ b) f.
Proof.
  unfold File_write. destruct f as [n d l o]; cbn.
  destruct o; cbn; [|done]. by rewrite app_assoc.
Qed.

Lemma tick_0 (e : Env) : tick 0 e = e.
Proof. destruct e. unfold tick; cbn. by rewrite Nat.add_0_r. Qed.

Lemma tick_tick (n m : nat) (e : Env) : tick m (tick n e) = tick (n + m) e.
Proof. unfold tick; cbn. by rewrite Nat.add_assoc. Qed.

Lemma time_Now_run {L} (l : L) (e : Env) :
  time_Now (mkSt l e) = (wall e (ticks e), mkSt l (tick 1 e)).
Proof. unfold time_Now, tick; cbn. by rewrite Nat.add_1_r. Qed.

Lemma progress_withFile_id (l : progress.Logger) :
  progress_withFile (File_write []) l = l.
Proof.
  destruct l as [[f|] st ph]; unfold progress_withFile; cbn; [|done].
  by rewrite File_write_nil.
Qed.

Lemma progress_withFile_write (a b : gostring) (l : progress.Logger) :
  progress_withFile (File_write b) (progress_withFile (File_write a) l)
  = progress_withFile (File_write (a ++ b)) l.
Proof.
  destruct l as [[f|] st ph]; unfold progress_withFile; cbn; [|done].
  by rewrite File_write_app.
Qed.

Lemma progress_writeFile_run (s : gostring) (l : progress.Logger) (e : Env) :
  progress.writeFile s (mkSt l e)
  = (tt, mkSt (progress_withFile (File_write s) l) e).
Proof.
  unfold progress.writeFile, modify, progress_withFile; cbn.
  by destruct l as [[f|] st ph].
Qed.

(** The loop of [PrintAligned]: every line that is not empty is written
    with the time of one more reading of the clock. *)
Lemma progress_printLoop (lines : list gostring) (l : progress.Logger) (e : Env) :
  let kept := List.filter (fun line => negb (streq line [])) lines in
  let out := imap (fun j line =>
                     stampedLine progress.timestampFormat (wall e)
                                 (ticks e + j) line) kept in
  forEach lines (fun line =>
    if streq line [] then mret tt
    else
      now ← time_Now;
      progress.writeFile
        (str "[" ++ time.Format now progress.timestampFormat ++ str "] "
         ++ progress.formatListItem line ++ [nl])) (mkSt l e)
  = (tt, mkSt (progress_withFile (File_write (withNewlines out)) l)
              (tick (length kept) e)).
Proof.
  cbv zeta. revert l e. induction lines as [|line rest IH]; intros l e.
  - cbn. by rewrite progress_withFile_id, tick_0.
  - cbn [forEach List.filter]. rewrite bind_run.
    destruct (streq line []) eqn:Hline; cbn [negb].
    + cbn. apply IH.
    + rewrite bind_run, time_Now_run, progress_writeFile_run, IH.
      rewrite progress_withFile_write, tick_tick. cbn [length imap].
      rewrite formatListItem_indent.
      rewrite (imap_ext
                 (fun j line0 => stampedLine progress.timestampFormat
                                   (wall (tick 1 e)) (ticks (tick 1 e) + j) line0)
                 ((fun j line0 => stampedLine progress.timestampFormat
                                    (wall e) (ticks e + j) line0) ∘ S))
        by (intros j x _; unfold compose, tick; cbn [wall ticks];
            replace (ticks e + 1 + j)%nat with (ticks e + S j)%nat by lia; done).
      unfold withNewlines. cbn [List.map List.concat].
      unfold stampedLine at 2. rewrite Nat.add_0_r, <- !app_assoc. done.
Qed.

(** [PrintAligned] of package [progress]. *)
Lemma progress_PrintAligned_run (text : gostring) (l : progress.Logger) (e : Env) :
  let out := alignedLines progress.timestampFormat (wall e) (ticks e) text in
  progress.PrintAligned text (mkSt l e)
  = (tt, mkSt (progress_withFile (File_write (withNewlines out)) l)
              (tick (length out) e)).
Proof.
  cbv zeta. unfold progress.PrintAligned, alignedLines.
  rewrite <- nonEmptyLines_TrimRight.
  destruct (streq text []) eqn:Htext.
  { apply streq_true in Htext as ->. cbn.
    by rewrite progress_withFile_id, tick_0. }
  destruct (streq (strings.TrimRight text [nl]) []) eqn:Htrim.
  { apply streq_true in Htrim as ->. cbn.
    by rewrite progress_withFile_id, tick_0. }
  rewrite progress_printLoop. by rewrite length_imap.
Qed.

Section TuiLoggerRuns.

Context {T : Type} `{tui.Sender T}.

Lemma tui_withFile_id (l : tui.teaLogger T) :
  tui_withFile (File_write []) l = l.
Proof.
  destruct l as [[f|] sn st ph]; unfold tui_withFile; cbn; [|done].
  by rewrite File_write_nil.
Qed.

Lemma tui_withFile_write (a b : gostring) (l : tui.teaLogger T) :
  tui_withFile (File_write b) (tui_withFile (File_write a) l)
  = tui_withFile (File_write (a ++ b)) l.
Proof.
  destruct l as [[f|] sn st ph]; unfold tui_withFile; cbn; [|done].
  by rewrite File_write_app.
Qed.

Lemma tui_writeFile_run (s : gostring) (l : tui.teaLogger T) (e : Env) :
  tui.writeFile s (mkSt l e) = (tt, mkSt (tui_withFile (File_write s) l) e).
Proof.
  unfold tui.writeFile, modify, tui_withFile; cbn.
  by destruct l as [[f|] sn st ph].
Qed.

Lemma tui_send_run (msg : tui.Msg) (l : tui.teaLogger T) (e : Env) :
  tui.send msg (mkSt l e) = (tt, mkSt (tui_withSender (tui.Send msg) l) e).
Proof. reflexivity. Qed.

(** The loop of the TUI logger's [PrintAligned]: the lines written to
    the file are gathered, without their newlines, in [outputLines]. *)
Lemma tui_printLines_run (lines acc : list gostring)
  (l : tui.teaLogger T) (e : Env) :
  let kept := List.filter (fun line => negb (streq line [])) lines in
  let out := imap (fun j line =>
                     stampedLine tui.timestampFormat (wall e)
                                 (ticks e + j) line) kept in
  tui.printLines lines acc (mkSt l e)
  = (acc ++ out,
     mkSt (tui_withFile (File_write (withNewlines out)) l)
          (tick (length kept) e)).
Proof.
  cbv zeta. revert acc l e. induction lines as [|line rest IH]; intros acc l e.
  - cbn. by rewrite app_nil_r, tui_withFile_id, tick_0.
  - cbn [tui.printLines List.filter].
    destruct (streq line []) eqn:Hline; cbn [negb]; [apply IH|].
    rewrite bind_run, time_Now_run, bind_run, tui_writeFile_run, IH.
    rewrite tui_withFile_write, tick_tick. cbn [length imap].
    rewrite tui_formatListItem_indent.
    rewrite (imap_ext
               (fun j line0 => stampedLine tui.timestampFormat
                                 (wall (tick 1 e)) (ticks (tick 1 e) + j) line0)
               ((fun j line0 => stampedLine tui.timestampFormat
                                  (wall e) (ticks e + j) line0) ∘ S))
      by (intros j x _; unfold compose, tick; cbn [wall ticks];
          replace (ticks e + 1 + j)%nat with (ticks e + S j)%nat by lia; done).
    unfold withNewlines, stampedLine. cbn [List.map List.concat].
    rewrite Nat.add_0_r, <- !app_assoc. done.
Qed.

(** [PrintAligned] of the TUI logger. *)
Lemma tui_PrintAligned_run (text : gostring) (l : tui.teaLogger T) (e : Env) :
  let out := alignedLines tui.timestampFormat (wall e) (ticks e) text in
  tui.PrintAligned text (mkSt l e)
  = (tt, mkSt (tui_notify out
                 (tui_withFile (File_write (withNewlines out)) l))
              (tick (length out) e)).
Proof.
  cbv zeta. unfold tui.PrintAligned, alignedLines.
  rewrite <- nonEmptyLines_TrimRight.
  destruct (streq text []) eqn:Htext.
  { apply streq_true in Htext as ->. cbn.
    by rewrite tui_withFile_id, tick_0. }
  destruct (streq (strings.TrimRight text [nl]) []) eqn:Htrim.
  { apply streq_true in Htrim as ->. cbn.
    by rewrite tui_withFile_id, tick_0. }
  rewrite bind_run, tui_printLines_run. cbn [app].
  fold (nonEmptyLines (strings.TrimRight text [nl])).
  rewrite length_imap.
  destruct (imap _ (nonEmptyLines (strings.TrimRight text [nl]))) as [|o os] eqn:Hout.
  - apply (f_equal length) in Hout. rewrite length_imap in Hout.
    rewrite Hout. done.
  - apply (f_equal length) in Hout. rewrite length_imap in Hout.
    rewrite Hout. cbn [length tui_notify Nat.ltb Nat.leb].
    by rewrite tui_send_run.
Qed.

End TuiLoggerRuns.

(** C4: for every text, [PrintAligned] of either logger splits the text
    on newlines, leaves the empty lines out, and writes each remaining
    line to the file after [[stamp] ], the stamp being the time of one
    more reading of the clock in the layout YY-MM-DD HH:MM:SS, with two
    spaces before the line exactly when it begins with [- ], with [* ],
    or with one or more digits followed by [. ]; the TUI logger also sends
    the lines, joined by newlines, as one [OutputMsg], when there is a
    line.  [PrintAligned("")] writes nothing, reads no clock and sends
    nothing. *)
Theorem PrintAligned_spec {T : Type} `{tui.Sender T} :
  (forall text (l : progress.Logger) (e : Env),
     let out := alignedLines progress.timestampFormat (wall e) (ticks e) text in
     progress.PrintAligned text (mkSt l e)
     = (tt, mkSt (progress_withFile (File_write (withNewlines out)) l)
                 (tick (length out) e)))
  /\ (forall text (l : tui.teaLogger T) (e : Env),
        let out := alignedLines tui.timestampFormat (wall e) (ticks e) text in
        tui.PrintAligned text (mkSt l e)
        = (tt, mkSt (tui_notify out
                       (tui_withFile (File_write (withNewlines out)) l))
                    (tick (length out) e)))
  /\ (forall (l : progress.Logger) (e : Env),
        progress.PrintAligned [] (mkSt l e) = (tt, mkSt l e))
  /\ (forall (l : tui.teaLogger T) (e : Env),
        tui.PrintAligned [] (mkSt l e) = (tt, mkSt l e))
  /\ (forall line,
        progress.formatListItem line = indentListItem line
        /\ tui.formatListItem line = indentListItem line
        /\ (beginsWithMarker line = true <->
            (exists rest, line = str "- " ++ rest)
            \/ (exists rest, line = str "* " ++ rest)
            \/ (exists digits rest,
                  digits <> []
                  /\ Forall (fun c => c ∈ str "0123456789") digits
                  /\ line = digits ++ str ". " ++ rest))).
Proof.
  split; [|split; [|split; [|split]]].
  - intros text l e. apply progress_PrintAligned_run.
  - intros text l e. apply tui_PrintAligned_run.
  - reflexivity.
  - reflexivity.
  - intros line. split; [apply formatListItem_indent|].
    split; [apply tui_formatListItem_indent|apply beginsWithMarker_iff].
Qed.

(** [PrintAligned] on the text of the example: four lines, two of them
    indented, stamped at the readings 3, 4, 5 and 6 of the clock. *)
Lemma PrintAligned_example :
  let '(_, st) := tui.PrintAligned text_example (mkSt teaLogger_example env_example) in
  (fdata <$> tui.file (self st))
  = Some (str "# Ralphex Progress Log" ++ [nl]
          ++ str "[26-01-02 03:04:03] hello" ++ [nl]
          ++ str "[26-01-02 03:04:04]   - item" ++ [nl]
          ++ str "[26-01-02 03:04:05]   12. twelve" ++ [nl]
          ++ str "[26-01-02 03:04:06]  - no" ++ [nl])
  /\ tui.lsender (self st)
     = [tui.OutputMsg (str "[26-01-02 03:04:03] hello" ++ [nl]
                       ++ str "[26-01-02 03:04:04]   - item" ++ [nl]
                       ++ str "[26-01-02 03:04:05]   12. twelve" ++ [nl]
                       ++ str "[26-01-02 03:04:06]  - no")]
  /\ ticks (env st) = 7%nat.
Proof. vm_compute. repeat split. Qed.

(** ** The footer (C5) *)

Lemma byteZ_Zbyte (z : Z) : 0 <= z < 256 -> byteZ (Zbyte z) = z.
Proof.
  intros Hz. unfold byteZ, Zbyte. rewrite Z.mod_small by done.
  rewrite N_ascii_embedding by lia. lia.
Qed.

Lemma isDigitByte_digit (z : Z) : isDigitByte (time.digit z) = true.
Proof.
  rewrite isDigitByte_byteZ. unfold time.digit.
  pose proof (Z.mod_pos_bound z 10 ltac:(lia)).
  rewrite byteZ_Zbyte by lia. lia.
Qed.

Lemma appendInt_2 (x : Z) :
  0 <= x < 100 -> time.appendInt x 2 = [time.digit (x / 10); time.digit x].
Proof.
  intros Hx. unfold time.appendInt.
  replace (x <? 0) with false by lia. rewrite Z.abs_eq by lia.
  cbn [Nat.eqb andb app]. by replace (x <? 100) with true by lia.
Qed.

Lemma appendInt_4 (x : Z) :
  0 <= x < 10000 ->
  time.appendInt x 4
  = [time.digit (x / 1000); time.digit (x / 100); time.digit (x / 10);
     time.digit x].
Proof.
  intros Hx. unfold time.appendInt.
  replace (x <? 0) with false by lia. rewrite Z.abs_eq by lia.
  cbn [Nat.eqb andb app]. by replace (x <? 10000) with true by lia.
Qed.

(** A time of a four-digit year is written as YYYY-MM-DD HH:MM:SS. *)
Lemma Format_DateTime_form (t : time.Time) :
  time.wf t -> hasForm dateTimeForm (time.Format t time.DateTime) = true.
Proof.
  intros (Hy & Hmo & Hd & Hh & Hmi & Hs).
  unfold time.Format, time.DateTime. cbn [flat_map time.appendChunk].
  rewrite appendInt_4 by lia. rewrite !appendInt_2 by lia.
  cbn [app hasForm dateTimeForm]. rewrite !isDigitByte_digit. reflexivity.
Qed.

Lemma hasForm_length (form : list cls) (s : gostring) :
  hasForm form s = true -> length s = length form.
Proof.
  revert s. induction form as [|k form IH]; intros [|c s]; try done.
  - by destruct k.
  - destruct k; cbn; intros [_ Hrest]%andb_true_iff; f_equal; by apply IH.
Qed.

Lemma hasForm_Lit_app (p : gostring) (form : list cls) (s : gostring) :
  hasForm (List.map Lit p ++ form) (p ++ s) = hasForm form s.
Proof.
  induction p as [|c p IH]; [done|]. cbn. by rewrite bool_decide_eq_true_2.
Qed.

(** The completion line of the TUI logger has the form; that of package
    [progress], which goes on after the time, has not. *)
Lemma completion_line_tui (t : time.Time) :
  time.wf t ->
  hasForm completionForm (str "Completed: " ++ time.Format t time.DateTime)
  = true.
Proof.
  intros Ht. unfold completionForm. rewrite hasForm_Lit_app.
  by apply Format_DateTime_form.
Qed.

Lemma completion_line_progress (t : time.Time) (elapsed : gostring) :
  time.wf t ->
  hasForm completionForm
          (str "Completed: " ++ time.Format t time.DateTime
           ++ str " (" ++ elapsed ++ str ")")
  = false.
Proof.
  intros Ht. unfold completionForm. rewrite hasForm_Lit_app.
  destruct (hasForm dateTimeForm _) eqn:Hform; [|done].
  apply hasForm_length in Hform.
  pose proof (hasForm_length _ _ (Format_DateTime_form t Ht)) as Hlen.
  rewrite !length_app, Hlen in Hform. cbn in Hform. lia.
Qed.

Section CloseRuns.

Variable humanize_RelTime :
  time.Time -> time.Time -> gostring -> gostring -> gostring.
Variable filepath_Abs : gostring -> option gostring.
Variable filepath_Clean : gostring -> gostring.

Context {T : Type} `{tui.Sender T}.

(** [Close] of the TUI logger on an open file. *)
Lemma tui_Close_run (l : tui.teaLogger T) (e : Env) (f : File) :
  tui.file l = Some f -> fopen f = true ->
  tui.Close filepath_Abs filepath_Clean (mkSt l e)
  = (None,
     mkSt (tui.mkTeaLogger
             (Some (mkFile (fname f)
                      (fdata f ++ ([nl] ++ rule ++ [nl])
                       ++ (str "Completed: "
                           ++ time.Format (wall e (ticks e)) time.DateTime
                           ++ [nl]))
                      false false))
             (tui.lsender l) (tui.startTime l) (tui.phase l))
          (mkEnv (wall e) (S (ticks e))
             (activeLocks e
              ∖ {[ progress.canonicalPath filepath_Abs filepath_Clean (fname f) ]}))).
Proof.
  intros Hf Ho. destruct l as [fl sn st ph]. cbn in Hf. subst fl.
  destruct f as [name data locked opened]. cbn in Ho. subst opened.
  destruct e as [w n al]. cbn [fdata fname wall ticks activeLocks].
  rewrite (app_assoc data). reflexivity.
Qed.

(** [Close] of the logger of package [progress] on an open file. *)
Lemma progress_Close_run (l : progress.Logger) (e : Env) (f : File) :
  progress.file l = Some f -> fopen f = true ->
  progress.Close humanize_RelTime filepath_Abs filepath_Clean (mkSt l e)
  = (None,
     mkSt (progress.mkLogger
             (Some (mkFile (fname f)
                      (fdata f ++ ([nl] ++ rule ++ [nl])
                       ++ (str "Completed: "
                           ++ time.Format (wall e (ticks e)) time.DateTime
                           ++ str " ("
                           ++ humanize_RelTime (progress.startTime l)
                                (wall e (S (ticks e))) [] []
                           ++ str ")" ++ [nl]))
                      false false))
             (progress.startTime l) (progress.phase l))
          (mkEnv (wall e) (S (S (ticks e)))
             (activeLocks e
              ∖ {[ progress.canonicalPath filepath_Abs filepath_Clean (fname f) ]}))).
Proof.
  intros Hf Ho. destruct l as [fl st ph]. cbn in Hf. subst fl.
  destruct f as [name data locked opened]. cbn in Ho. subst opened.
  destruct e as [w n al]. cbn [fdata fname wall ticks activeLocks].
  rewrite (app_assoc data). reflexivity.
Qed.

End CloseRuns.

(** C5, as stated, fails for the logger of package [progress]: its
    completion line goes on after the time with the elapsed time in
    brackets.  Here the clock stands still, so that go-humanize says
    [now]. *)
Lemma progress_Close_writes_elapsed :
  let '(err, st) :=
    progress.Close humanize_RelTime_now filepath_Abs_id filepath_Clean_id
                   (mkSt logger_example env_frozen) in
  err = None
  /\ (fdata <$> progress.file (self st))
     = Some (str "# Ralphex Progress Log" ++ [nl] ++ [nl] ++ rule ++ [nl]
             ++ str "Completed: 2026-01-02 03:04:00 (now)" ++ [nl])
  /\ hasForm completionForm (str "Completed: 2026-01-02 03:04:00 (now)") = false
  /\ hasForm completionForm (str "Completed: 2026-01-02 03:04:00") = true.
Proof. vm_compute. repeat split. Qed.

(** C5 (amended): for a logger with an open progress file and a clock
    that shows a four-digit year, [Close] returns no error after it has
    appended the footer to the file: an empty line, the rule of sixty
    dashes, and the completion line, which for the TUI logger has exactly
    the form [Completed: YYYY-MM-DD HH:MM:SS] and for the logger of package
    [progress] goes on with the elapsed time in brackets; after it the
    lock on the file is released, its path is no longer among the active
    locks, and the file is closed. *)
Theorem Close_writes_footer {T : Type} `{tui.Sender T}
  (humanize_RelTime : time.Time -> time.Time -> gostring -> gostring -> gostring)
  (filepath_Abs : gostring -> option gostring)
  (filepath_Clean : gostring -> gostring)
  (lt : tui.teaLogger T) (lp : progress.Logger) (e : Env) (f : File) :
  tui.file lt = Some f ->
  progress.file lp = Some f ->
  fopen f = true ->
  time.wf (wall e (ticks e)) ->
  let stamp := time.Format (wall e (ticks e)) time.DateTime in
  let elapsed := humanize_RelTime (progress.startTime lp)
                                  (wall e (S (ticks e))) [] [] in
  let path := progress.canonicalPath filepath_Abs filepath_Clean (fname f) in
  (exists st',
     tui.Close filepath_Abs filepath_Clean (mkSt lt e) = (None, st')
     /\ tui.file (self st')
        = Some (mkFile (fname f)
                  (fdata f ++ [nl] ++ rule ++ [nl]
                   ++ str "Completed: " ++ stamp ++ [nl])
                  false false)
     /\ hasForm completionForm (str "Completed: " ++ stamp) = true
     /\ (path ∉ activeLocks (env st'))
     /\ tui.lsender (self st') = tui.lsender lt)
  /\ (exists st',
        progress.Close humanize_RelTime filepath_Abs filepath_Clean (mkSt lp e)
        = (None, st')
        /\ progress.file (self st')
           = Some (mkFile (fname f)
                     (fdata f ++ [nl] ++ rule ++ [nl]
                      ++ str "Completed: " ++ stamp
                      ++ str " (" ++ elapsed ++ str ")" ++ [nl])
                     false false)
        /\ hasForm completionForm
             (str "Completed: " ++ stamp ++ str " (" ++ elapsed ++ str ")")
           = false
        /\ (path ∉ activeLocks (env st'))).
Proof.
  intros Hlt Hlp Hopen Hwf. cbv zeta. split.
  - eexists. split; [by apply tui_Close_run|]. cbn [self env tui.file tui.lsender].
    split; [by rewrite <- !app_assoc|]. split; [by apply completion_line_tui|].
    split; [|done]. cbn [activeLocks].
    apply not_elem_of_difference. right. by apply elem_of_singleton.
  - eexists. split; [by apply progress_Close_run|]. cbn [self env progress.file].
    split; [by rewrite <- !app_assoc|].
    split; [by apply completion_line_progress|]. cbn [activeLocks].
    apply not_elem_of_difference. right. by apply elem_of_singleton.
Qed.

Lemma Close_writes_footer_witness :
  (exists st',
     tui.Close filepath_Abs_id filepath_Clean_id (mkSt teaLogger_example env_example)
     = (None, st')
     /\ tui.file (self st')
        = Some (mkFile (str "progress.txt")
                  (fdata file_example ++ [nl] ++ rule ++ [nl]
                   ++ str "Completed: "
                   ++ time.Format (clock_example 3) time.DateTime ++ [nl])
                  false false)
     /\ hasForm completionForm
          (str "Completed: " ++ time.Format (clock_example 3) time.DateTime)
        = true
     /\ (progress.canonicalPath filepath_Abs_id filepath_Clean_id
           (str "progress.txt") ∉ activeLocks (env st'))
     /\ tui.lsender (self st') = [])
  /\ (exists st',
        progress.Close humanize_RelTime_now filepath_Abs_id filepath_Clean_id
                       (mkSt logger_example env_example)
        = (None, st')
        /\ progress.file (self st')
           = Some (mkFile (str "progress.txt")
                     (fdata file_example ++ [nl] ++ rule ++ [nl]
                      ++ str "Completed: "
                      ++ time.Format (clock_example 3) time.DateTime
                      ++ str " ("
                      ++ humanize_RelTime_now (clock_example 0) (clock_example 4) [] []
                      ++ str ")" ++ [nl])
                     false false)
        /\ hasForm completionForm
             (str "Completed: "
              ++ time.Format (clock_example 3) time.DateTime
              ++ str " ("
              ++ humanize_RelTime_now (clock_example 0) (clock_example 4) [] []
              ++ str ")")
           = false
        /\ (progress.canonicalPath filepath_Abs_id filepath_Clean_id
              (str "progress.txt") ∉ activeLocks (env st'))).
Proof.
  apply (Close_writes_footer humanize_RelTime_now filepath_Abs_id
           filepath_Clean_id teaLogger_example logger_example env_example
           file_example); try reflexivity.
  unfold time.wf; cbn; lia.
Defined.

(** ** The question bridge (C8) *)

Section QuestionBridge.

Context {T : Type} `{tui.Sender T} {V : Type} `{tui.Viewport V}.

(** A receive that would wait finds the channel open and empty. *)
Lemma chan_recv_None (ch : tui.chanref) (σ : tui.Chans) (c : tui.Chan) :
  σ !! ch = Some c -> tui.chan_recv ch σ = None ->
  tui.buf c = [] /\ tui.closed c = false.
Proof.
  unfold tui.chan_recv. intros ->.
  destruct (tui.buf c); [|done]. by destruct (tui.closed c).
Qed.

(** The drain of a stale answer leaves the channel in the store. *)
Lemma chan_recv_keeps (ch : tui.chanref) (σ σ' : tui.Chans) v ok :
  is_Some (σ !! ch) -> tui.chan_recv ch σ = Some (v, ok, σ') ->
  is_Some (σ' !! ch).
Proof.
  unfold tui.chan_recv. intros [c Hc]. rewrite Hc.
  destruct (tui.buf c) as [|x rest].
  - destruct (tui.closed c); [|done]. intros [= _ _ <-]. by exists c.
  - intros [= _ _ <-]. rewrite lookup_insert_eq. by eexists.
Qed.

(** A call that has published its question has sent one [QuestionMsg]
    with its own answer channel, which is still in the store. *)
Lemma AskQuestion_publish_AtSelect (question : gostring)
  (options : list gostring) (c c1 : tui.teaCollector T) (σ σ1 : tui.Chans) :
  is_Some (σ !! tui.answerCh c) ->
  tui.AskQuestion_publish question options c σ = (tui.AtSelect, c1, σ1) ->
  options <> []
  /\ tui.answerCh c1 = tui.answerCh c
  /\ tui.csender c1
     = tui.Send (tui.QuestionMsg question options (tui.answerCh c)) (tui.csender c)
  /\ is_Some (σ1 !! tui.answerCh c).
Proof.
  intros Hch. unfold tui.AskQuestion_publish.
  destruct options as [|o os]; [done|]. cbn [length Nat.eqb].
  intros [= <- <-]. cbn. repeat split; [done|].
  destruct (tui.chan_recv (tui.answerCh c) σ) as [[[v ok] σ']|] eqn:Hrecv; [|done].
  by eapply chan_recv_keeps.
Qed.

Lemma updateQuestion_ctrl_c (m : tui.Model V) (σ : tui.Chans) :
  tui.updateQuestion (str "ctrl+c") m σ
  = match tui.questionCh m with
    | Some ch =>
      match tui.chan_close ch σ with
      | tui.Ok σ' => tui.Ok (tui.setQuestionCh None m, tui.Quit, σ')
      | tui.Panics msg => tui.Panics msg
      | tui.Blocks => tui.Blocks
      end
    | None => tui.Ok (m, tui.Quit, σ)
    end.
Proof. reflexivity. Qed.

End QuestionBridge.

(** C8: a call of [AskQuestion] has published its question and is parked
    in its select, the context not done and no answer there; the model
    has taken the question up.  When the user then presses ctrl+c, the
    model closes the answer channel and quits, and the parked call,
    woken by the channel, returns no answer and the error
    [question canceled].  The same is returned when a select reaches the closed
    channel with the context not done. *)
Theorem AskQuestion_canceled_on_close
  {T : Type} `{tui.Sender T} {V : Type} `{tui.Viewport V}
  (question : gostring) (options : list gostring)
  (c c1 : tui.teaCollector T) (σ σ1 σ1' : tui.Chans)
  (m0 : tui.Model V) (coin : bool) :
  is_Some (σ !! tui.answerCh c) ->
  tui.AskQuestion_publish question options c σ = (tui.AtSelect, c1, σ1) ->
  tui.AskQuestion_select coin None c1 σ1 = (tui.Parked, σ1') ->
  let m := tui.handleQuestion question options (tui.answerCh c1) m0 in
  exists (m' : tui.Model V) (σ2 : tui.Chans),
    tui.updateQuestion (str "ctrl+c") m σ1' = tui.Ok (m', tui.Quit, σ2)
    /\ tui.questionCh m' = None
    /\ tui.AskQuestion_wakeRecv c1 σ2
       = (tui.Returned [] (Some (str "question canceled")), σ2)
    /\ tui.AskQuestion_select coin None c1 σ2
       = (tui.Returned [] (Some (str "question canceled")), σ2).
Proof.
  intros Hch Hpub Hsel. cbv zeta.
  apply AskQuestion_publish_AtSelect in Hpub as (Hopts & Ha & _ & [ch1 Hch1]);
    [|done].
  unfold tui.AskQuestion_select in Hsel. rewrite Ha in *.
  destruct (tui.chan_recv (tui.answerCh c) σ1) as [[[v ok] σ']|] eqn:Hrecv.
  { by destruct ok. }
  injection Hsel as <-.
  destruct (chan_recv_None _ _ _ Hch1 Hrecv) as [Hbuf Hopen].
  set (σ2 := <[tui.answerCh c := tui.mkChan (tui.buf ch1) (tui.cap ch1) true]> σ1).
  assert (Hrecv2 : tui.chan_recv (tui.answerCh c) σ2 = Some ([], false, σ2)).
  { unfold tui.chan_recv, σ2. rewrite lookup_insert_eq. cbn. by rewrite Hbuf. }
  eexists _, σ2. split; [|split; [|split]].
  - rewrite updateQuestion_ctrl_c. cbn [tui.handleQuestion tui.questionCh].
    unfold tui.chan_close. by rewrite Hch1, Hopen.
  - reflexivity.
  - unfold tui.AskQuestion_wakeRecv. by rewrite ?Ha, Hrecv2.
  - unfold tui.AskQuestion_select. by rewrite ?Ha, Hrecv2.
Qed.

Lemma AskQuestion_canceled_on_close_witness :
  let '(c, σ) := collector_example in
  let '(_, c1, σ1) :=
    tui.AskQuestion_publish (str "continue?") [str "Yes"; str "No"] c σ in
  exists (m' : tui.Model (gostring * bool)) (σ2 : tui.Chans),
    tui.updateQuestion (str "ctrl+c")
      (tui.handleQuestion (str "continue?") [str "Yes"; str "No"]
         (tui.answerCh c1) model_example) σ1
    = tui.Ok (m', tui.Quit, σ2)
    /\ tui.questionCh m' = None
    /\ tui.AskQuestion_wakeRecv c1 σ2
       = (tui.Returned [] (Some (str "question canceled")), σ2)
    /\ tui.AskQuestion_select true None c1 σ2
       = (tui.Returned [] (Some (str "question canceled")), σ2).
Proof.
  destruct collector_example as [c σ] eqn:Hc.
  destruct (tui.AskQuestion_publish (str "continue?") [str "Yes"; str "No"] c σ)
    as [[ph c1] σ1] eqn:Hpub.
  injection Hc as <- <-.
  apply (AskQuestion_canceled_on_close (str "continue?") [str "Yes"; str "No"]
           {| tui.csender := ([] : tui.mockSender);
              tui.answerCh := fresh (dom (∅ : tui.Chans)) |}
           c1 (<[fresh (dom (∅ : tui.Chans)) := tui.mkChan [] 1 false]> ∅)
           σ1 σ1 model_example true).
  - cbn. rewrite lookup_insert_eq. by eexists.
  - rewrite Hpub. f_equal. f_equal.
    by destruct ph; vm_compute in Hpub.
  - vm_compute in Hpub. injection Hpub as _ <- <-. reflexivity.
Defined.

(** ** Calls on the safe sender that run at the same time *)

Section Interleavings.

Context {T : Type} `{tui.Sender T}.

Lemma total_insert (f : Goroutine -> nat) (gs : list Goroutine) (i : nat)
  (g g' : Goroutine) :
  gs !! i = Some g ->
  (total f (<[i := g']> gs) + f g = total f gs + f g')%nat.
Proof.
  revert i. induction gs as [|a gs IH]; intros [|i] Hi; try done.
  - injection Hi as ->. cbn [total]. change (<[0%nat:=g']> (g :: gs)) with (g' :: gs).
    cbn [total]. lia.
  - pose proof (IH i Hi) as E.
    change (<[S i:=g']> (a :: gs)) with (a :: <[i:=g']> gs).
    cbn [total]. lia.
Qed.

Lemma total_lookup (f : Goroutine -> nat) (gs : list Goroutine) (i : nat)
  (g : Goroutine) :
  gs !! i = Some g -> (f g <= total f gs)%nat.
Proof.
  revert i. induction gs as [|a gs IH]; intros [|i] Hi; try done.
  - injection Hi as ->. cbn [total]. lia.
  - pose proof (IH i Hi). cbn [total]. lia.
Qed.

Lemma total_app (f : Goroutine -> nat) (gs hs : list Goroutine) :
  total f (gs ++ hs) = (total f gs + total f hs)%nat.
Proof. induction gs as [|a gs IH]; cbn [total app]; [done|]. rewrite IH. lia. Qed.

Lemma total_pos (f : Goroutine -> nat) (gs : list Goroutine) :
  (0 < total f gs)%nat -> exists i g, gs !! i = Some g /\ (0 < f g)%nat.
Proof.
  induction gs as [|a gs IH]; cbn [total]; [lia|]. intros Hpos.
  destruct (f a) as [|n] eqn:Hfa.
  - destruct IH as (i & x & Hi & Hx); [lia|]. by exists (S i), x.
  - exists 0%nat, a. split; [done|lia].
Qed.

Lemma total_zero (f : Goroutine -> nat) (gs : list Goroutine) :
  total f gs = 0%nat -> Forall (fun g => f g = 0%nat) gs.
Proof.
  induction gs as [|a gs IH]; cbn [total]; [constructor|]. intros Hz.
  constructor; [lia|apply IH; lia].
Qed.

Lemma forwarding_readLocks (g : Goroutine) :
  readLocks g = 0%nat -> forwarding g = false.
Proof. by destruct g as [msg []|[]]. Qed.

Ltac conc_simpl :=
  unfold setMu, tui.RUnlock, tui.Unlock in *;
  cbn [shared pool tui.mu tui.readers tui.writer tui.stopped tui.sender
       readLocks writeLocks Nat.pred] in *.

Lemma consistent_init (inner : T) : consistent (conc_init inner).
Proof. repeat split; intros; constructor. Qed.

(** A goroutine at a step sees the mutex as its own hold on it
    demands. *)
Lemma consistent_holder (c : Conc T) (i : nat) (g : Goroutine) :
  consistent c -> pool c !! i = Some g ->
  (readLocks g = 1%nat -> tui.writer (tui.mu (shared c)) = false
                          /\ (0 < tui.readers (tui.mu (shared c)))%nat)
  /\ (writeLocks g = 1%nat -> tui.writer (tui.mu (shared c)) = true)
  /\ (hasStopped g = true -> tui.stopped (shared c) = true).
Proof.
  intros (Hr & Hw & _ & Hs) Hi.
  pose proof (total_lookup readLocks _ i g Hi) as Hr1.
  pose proof (total_lookup writeLocks _ i g Hi) as Hw1.
  split; [|split].
  - intros Hg. destruct (tui.writer (tui.mu (shared c))); [lia|]. split; [done|lia].
  - intros Hg. destruct (tui.writer (tui.mu (shared c))); [done|lia].
  - intros Hg. destruct (tui.stopped (shared c)) eqn:Hst; [done|].
    specialize (Hs eq_refl). rewrite Forall_lookup in Hs.
    specialize (Hs i g Hi). congruence.
Qed.

(** Every step keeps the state consistent. *)
Lemma consistent_step (c c' : Conc T) :
  consistent c -> cstep c c' -> consistent c'.
Proof.
  intros Hc Hstep.
  destruct Hstep as [c i g g' s' Hi Hgo|c g Hent].
  - pose proof (consistent_holder c i g Hc Hi) as (Hhr & Hhw & Hhs).
    destruct Hc as (Hr & Hw & Hf & Hs).
    pose proof (total_insert readLocks _ i g g' Hi) as Hsr.
    pose proof (total_insert writeLocks _ i g g' Hi) as Hsw.
    destruct c as [[snd [rd wr] st] gs]; unfold consistent;
      cbn [shared pool tui.mu tui.readers tui.writer tui.stopped tui.sender]
      in *.
    destruct g as [msg pc|pc]; destruct pc; cbn in Hgo; try done.
    + (* RLock *)
      unfold tui.RLock in Hgo. cbn in Hgo. destruct wr; [done|].
      injection Hgo as <- <-. conc_simpl.
      split; [lia|]. split; [lia|].
      split; intros Hst; (apply Forall_insert; [auto|done]).
    + (* the check of the flag *)
      injection Hgo as <- <-. destruct (Hhr eq_refl) as [-> Hpos].
      destruct st; conc_simpl;
        (split; [lia|]; split; [lia|];
         split; intros Hst; (apply Forall_insert; [auto|done])).
    + (* the forward *)
      injection Hgo as <- <-. conc_simpl.
      destruct (Hhr eq_refl) as [-> Hpos].
      split; [lia|]. split; [lia|].
      split; intros Hst; [|apply Forall_insert; [auto|done]].
      specialize (Hf Hst). rewrite Forall_lookup in Hf.
      by specialize (Hf i _ Hi).
    + (* RUnlock *)
      injection Hgo as <- <-. conc_simpl.
      destruct (Hhr eq_refl) as [-> Hpos].
      split; [lia|]. split; [lia|].
      split; intros Hst; (apply Forall_insert; [auto|done]).
    + (* Lock *)
      unfold tui.Lock in Hgo. cbn in Hgo. destruct wr; [done|].
      destruct rd; [|done]. injection Hgo as <- <-. conc_simpl.
      split; [lia|]. split; [lia|].
      split; intros Hst; (apply Forall_insert; [auto|done]).
    + (* the flag is set *)
      injection Hgo as <- <-. conc_simpl.
      rewrite (Hhw eq_refl) in *. destruct Hw as [Hone Hzero].
      split; [lia|]. split; [lia|].
      split; [|done]. intros _.
      assert (Hz' : total readLocks (<[i:=Stopping tUnlock]> gs) = 0%nat)
        by lia.
      apply total_zero in Hz'.
      eapply Forall_impl; [apply Hz'|]. apply forwarding_readLocks.
    + (* Unlock *)
      injection Hgo as <- <-. conc_simpl.
      rewrite (Hhw eq_refl) in *. rewrite (Hhs eq_refl) in *.
      destruct Hw as [Hone Hzero].
      split; [lia|]. split; [lia|].
      split; [|done]. intros _. apply Forall_insert; [auto|done].
  - destruct Hc as (Hr & Hw & Hf & Hs). unfold consistent. cbn [shared pool].
    assert (Hg : readLocks g = 0%nat /\ writeLocks g = 0%nat
                 /\ forwarding g = false /\ hasStopped g = false).
    { destruct Hent as [[msg ->]| ->]; done. }
    destruct Hg as (Hg1 & Hg2 & Hg3 & Hg4).
    rewrite !total_app. cbn [total]. rewrite Hg1, Hg2.
    split; [lia|]. split; [destruct (tui.writer (tui.mu (shared c))); lia|].
    split; intros Hst; (apply Forall_app; split; [auto|by constructor]).
Qed.

Lemma consistent_reachable (inner : T) (c : Conc T) :
  rtc cstep (conc_init inner) c -> consistent c.
Proof.
  intros Hrtc. eapply (rtc_ind_r (fun c => consistent c) (conc_init inner));
    [apply consistent_init| |done].
  intros y z _ Hstep Hy. by eapply consistent_step.
Qed.

(** Once the flag is set, a step forwards nothing and leaves the flag
    set. *)
Lemma stopped_step (c c' : Conc T) :
  consistent c -> tui.stopped (shared c) = true -> cstep c c' ->
  tui.sender (shared c') = tui.sender (shared c)
  /\ tui.stopped (shared c') = true.
Proof.
  intros (_ & _ & Hf & _) Hst Hstep. specialize (Hf Hst).
  destruct Hstep as [c i g g' s' Hi Hgo|c g Hent]; [|done].
  rewrite Forall_lookup in Hf. specialize (Hf i g Hi).
  destruct c as [[snd m st] gs]; cbn in *. subst st.
  destruct g as [msg pc|pc]; destruct pc; cbn in Hgo; try done;
    try (injection Hgo as <- <-; done).
  - destruct (tui.RLock m); [|done]. cbn in Hgo. by injection Hgo as <- <-.
  - destruct (tui.Lock m); [|done]. cbn in Hgo. by injection Hgo as <- <-.
Qed.

Lemma stopped_run (c c' : Conc T) :
  consistent c -> tui.stopped (shared c) = true -> rtc cstep c c' ->
  tui.sender (shared c') = tui.sender (shared c)
  /\ tui.stopped (shared c') = true.
Proof.
  intros Hc Hst Hrun. induction Hrun as [c|c c1 c2 Hstep Hrun IH]; [done|].
  destruct (stopped_step c c1 Hc Hst Hstep) as [Hsnd Hst1].
  destruct IH as [Hsnd2 Hst2]; [by eapply consistent_step|done|].
  split; [congruence|done].
Qed.

(** A goroutine that is not at a lock steps, whatever the others do. *)
Lemma goStep_inside (g : Goroutine) (s : tui.SafeSender T) :
  (0 < readLocks g + writeLocks g)%nat -> is_Some (goStep g s).
Proof. destruct g as [msg []|[]]; cbn; intros Hpos; by (lia || eexists). Qed.

(** Safety of [SafeSender] under every interleaving of calls of [Send]
    and [Stop]: once one call of [Stop] has returned, nothing that
    happens later reaches the wrapped sender, whatever calls of [Send]
    are in flight or begin afterwards. *)
Theorem SafeSender_nothing_forwarded_after_Stop (inner : T) (c c' : Conc T)
  (i : nat) :
  rtc cstep (conc_init inner) c ->
  pool c !! i = Some (Stopping tReturned) ->
  rtc cstep c c' ->
  tui.sender (shared c') = tui.sender (shared c)
  /\ tui.stopped (shared c') = true.
Proof.
  intros Hreach Hi Hrun.
  pose proof (consistent_reachable inner c Hreach) as Hc.
  destruct (consistent_holder c i _ Hc Hi) as (_ & _ & Hst).
  apply stopped_run; [done|by apply Hst|done].
Qed.

(** A send concurrent with a stop completes or is dropped: when the
    flag is set, no call of [Send] stands between its check of the flag
    and its forward. *)
Theorem SafeSender_no_forward_in_flight_when_stopped (inner : T) (c : Conc T)
  (i : nat) (g : Goroutine) :
  rtc cstep (conc_init inner) c ->
  tui.stopped (shared c) = true ->
  pool c !! i = Some g ->
  forwarding g = false.
Proof.
  intros Hreach Hst Hi.
  destruct (consistent_reachable inner c Hreach) as (_ & _ & Hf & _).
  specialize (Hf Hst). rewrite Forall_lookup in Hf. by apply (Hf i).
Qed.

(** No deadlock: as long as one call has not returned, some goroutine
    can take a step. *)
Theorem SafeSender_no_deadlock (inner : T) (c : Conc T) (i : nat)
  (g : Goroutine) :
  rtc cstep (conc_init inner) c ->
  pool c !! i = Some g -> returned g = false ->
  exists j h h' s', pool c !! j = Some h /\ goStep h (shared c) = Some (h', s').
Proof.
  intros Hreach Hi Hret.
  destruct (consistent_reachable inner c Hreach) as (Hr & Hw & _ & _).
  assert (Hinside : (0 < total readLocks (pool c) + total writeLocks (pool c))%nat
                    -> exists j h h' s', pool c !! j = Some h
                                         /\ goStep h (shared c) = Some (h', s')).
  { intros Hpos.
    assert (Hsome : exists j h, pool c !! j = Some h
                                /\ (0 < readLocks h + writeLocks h)%nat).
    { destruct (total readLocks (pool c)) as [|n] eqn:Hn.
      - destruct (total_pos writeLocks (pool c)) as (j & h & Hj & Hh); [lia|].
        exists j, h. split; [done|lia].
      - destruct (total_pos readLocks (pool c)) as (j & h & Hj & Hh); [lia|].
        exists j, h. split; [done|lia]. }
    destruct Hsome as (j & h & Hj & Hh).
    destruct (goStep_inside h (shared c) Hh) as [[h' s'] Hgo].
    by exists j, h, h', s'. }
  destruct (goStep g (shared c)) as [[g' s']|] eqn:Hgo;
    [by exists i, g, g', s'|].
  apply Hinside.
  destruct (shared c) as [snd [rd wr] st]; cbn in *.
  destruct g as [msg []|[]]; cbn in Hgo, Hret; try done.
  - unfold tui.RLock in Hgo. cbn in Hgo. destruct wr; [lia|done].
  - unfold tui.Lock in Hgo. cbn in Hgo. destruct wr; [lia|].
    destruct rd; [done|lia].
Qed.

End Interleavings.

(** The runs of the examples: one call of [Stop], then a call of [Send]
    that begins after it. *)
Lemma conc_stopped_reached : rtc cstep (conc_init []) conc_stopped.
Proof.
  eapply rtc_l; [apply (cstep_call _ (Stopping tLock)); by right|].
  eapply rtc_l; [by eapply (cstep_go _ 0%nat)|].
  eapply rtc_l; [by eapply (cstep_go _ 0%nat)|].
  eapply rtc_l; [by eapply (cstep_go _ 0%nat)|].
  apply rtc_refl.
Qed.

Lemma conc_stopped_sent_reached : rtc cstep conc_stopped conc_stopped_sent.
Proof.
  eapply rtc_l;
    [apply (cstep_call _ (Sending (tui.OutputMsg (str "late")) sRLock));
     left; by eexists|].
  eapply rtc_l; [by eapply (cstep_go _ 1%nat)|].
  eapply rtc_l; [by eapply (cstep_go _ 1%nat)|].
  eapply rtc_l; [by eapply (cstep_go _ 1%nat)|].
  apply rtc_refl.
Qed.

Lemma conc_stopped_sent_reached_init :
  rtc cstep (conc_init []) conc_stopped_sent.
Proof.
  etrans; [apply conc_stopped_reached|apply conc_stopped_sent_reached].
Qed.

(** A call of [Send] reads the flag as unset and a call of [Stop] begins
    before the forward. *)
Lemma conc_waiting_reached : rtc cstep (conc_init []) conc_waiting.
Proof.
  eapply rtc_l;
    [apply (cstep_call _ (Sending (tui.OutputMsg (str "early")) sRLock));
     left; by eexists|].
  eapply rtc_l; [by eapply (cstep_go _ 0%nat)|].
  eapply rtc_l; [by eapply (cstep_go _ 0%nat)|].
  eapply rtc_l; [apply (cstep_call _ (Stopping tLock)); by right|].
  apply rtc_refl.
Qed.

Lemma SafeSender_nothing_forwarded_after_Stop_witness :
  rtc cstep (conc_init []) conc_stopped
  /\ pool conc_stopped !! 0%nat = Some (Stopping tReturned)
  /\ rtc cstep conc_stopped conc_stopped_sent
  /\ tui.sender (shared conc_stopped_sent) = tui.sender (shared conc_stopped)
  /\ tui.stopped (shared conc_stopped_sent) = true.
Proof.
  split; [exact conc_stopped_reached|]. split; [reflexivity|].
  split; [exact conc_stopped_sent_reached|].
  exact (SafeSender_nothing_forwarded_after_Stop [] conc_stopped
           conc_stopped_sent 0 conc_stopped_reached eq_refl
           conc_stopped_sent_reached).
Defined.

Lemma SafeSender_no_forward_in_flight_when_stopped_witness :
  rtc cstep (conc_init []) conc_stopped_sent
  /\ tui.stopped (shared conc_stopped_sent) = true
  /\ pool conc_stopped_sent !! 1%nat
     = Some (Sending (tui.OutputMsg (str "late")) sReturned)
  /\ forwarding (Sending (tui.OutputMsg (str "late")) sReturned) = false.
Proof.
  split; [exact conc_stopped_sent_reached_init|].
  split; [reflexivity|]. split; [reflexivity|].
  exact (SafeSender_no_forward_in_flight_when_stopped [] conc_stopped_sent
           1 _ conc_stopped_sent_reached_init eq_refl eq_refl).
Defined.

Lemma SafeSender_no_deadlock_witness :
  rtc cstep (conc_init []) conc_waiting
  /\ pool conc_waiting !! 1%nat = Some (Stopping tLock)
  /\ returned (Stopping tLock) = false
  /\ exists j h h' s', pool conc_waiting !! j = Some h
                       /\ goStep h (shared conc_waiting) = Some (h', s').
Proof.
  split; [exact conc_waiting_reached|]. split; [reflexivity|].
  split; [reflexivity|].
  exact (SafeSender_no_deadlock [] conc_waiting 1 _ conc_waiting_reached
           eq_refl eq_refl).
Defined.

(** ** The answer to a question *)

Section QuestionAnswers.

Context {T : Type} `{tui.Sender T} {V : Type} `{tui.Viewport V}.

(** A receive leaves the capacity of the channel as it was. *)
Lemma chan_recv_cap (ch : tui.chanref) (σ σ' : tui.Chans) (c : tui.Chan) v ok :
  σ !! ch = Some c -> tui.chan_recv ch σ = Some (v, ok, σ') ->
  exists c', σ' !! ch = Some c' /\ tui.cap c' = tui.cap c.
Proof.
  unfold tui.chan_recv. intros Hc. rewrite Hc.
  destruct (tui.buf c) as [|x rest].
  - destruct (tui.closed c); [|done]. intros [= _ _ <-]. by exists c.
  - intros [= _ _ <-]. rewrite lookup_insert_eq. by eexists.
Qed.

Lemma AskQuestion_publish_cap (question : gostring) (options : list gostring)
  (c c1 : tui.teaCollector T) (σ σ1 : tui.Chans) (ch : tui.Chan) :
  σ !! tui.answerCh c = Some ch ->
  tui.AskQuestion_publish question options c σ = (tui.AtSelect, c1, σ1) ->
  tui.answerCh c1 = tui.answerCh c
  /\ exists ch1, σ1 !! tui.answerCh c = Some ch1 /\ tui.cap ch1 = tui.cap ch.
Proof.
  intros Hch. unfold tui.AskQuestion_publish.
  destruct options as [|o os]; [done|]. cbn [length Nat.eqb].
  intros [= <- <-]. split; [done|].
  destruct (tui.chan_recv (tui.answerCh c) σ) as [[[v ok] σ']|] eqn:Hrecv.
  - by eapply chan_recv_cap.
  - by exists ch.
Qed.

(** The answer reaches the caller: a call of [AskQuestion] is parked in
    its select and the model shows the question with the cursor on an
    option; on Enter the model sends that option on the answer channel,
    goes back to the state it had before the question and forgets the
    channel, and the parked call returns the option and no error. *)
Theorem AskQuestion_answered_on_enter
  (question : gostring) (options : list gostring)
  (c c1 : tui.teaCollector T) (σ σ1 σ1' : tui.Chans) (ch : tui.Chan)
  (m0 : tui.Model V) (coin : bool) (k : nat) (answer : gostring) :
  σ !! tui.answerCh c = Some ch -> (0 < tui.cap ch)%nat ->
  tui.AskQuestion_publish question options c σ = (tui.AtSelect, c1, σ1) ->
  tui.AskQuestion_select coin None c1 σ1 = (tui.Parked, σ1') ->
  options !! k = Some answer ->
  let m := tui.setCursor (Z.of_nat k)
             (tui.handleQuestion question options (tui.answerCh c1) m0) in
  exists (m' : tui.Model V) (σ2 σ3 : tui.Chans),
    tui.updateQuestion (str "enter") m σ1' = tui.Ok (m', tui.CmdNil, σ2)
    /\ tui.state m' = tui.state m0
    /\ tui.questionCh m' = None
    /\ tui.AskQuestion_wakeRecv c1 σ2 = (tui.Returned answer None, σ3).
Proof.
  intros Hch Hcap Hpub Hsel Hk. cbv zeta.
  apply AskQuestion_publish_cap with (ch := ch) in Hpub
    as (Ha & ch1 & Hch1 & Hcap1); [|done].
  unfold tui.AskQuestion_select in Hsel. rewrite Ha in *.
  destruct (tui.chan_recv (tui.answerCh c) σ1) as [[[v ok] σ']|] eqn:Hrecv.
  { by destruct ok. }
  injection Hsel as <-.
  destruct (chan_recv_None _ _ _ Hch1 Hrecv) as [Hbuf Hopen].
  set (σ2 := <[tui.answerCh c := tui.mkChan [answer] (tui.cap ch1) false]> σ1).
  assert (Hlen : (0 <? length options)%nat = true).
  { destruct options; [done|]. reflexivity. }
  eexists _, σ2, _. split; [|split; [|split]].
  - unfold tui.updateQuestion.
    cbn [tui.setCursor tui.handleQuestion tui.questionCh tui.questionOpts
         tui.questionCursor].
    replace (streq (str "enter") (str "up") || streq (str "enter") (str "k"))
      with false by reflexivity.
    replace (streq (str "enter") (str "down") || streq (str "enter") (str "j"))
      with false by reflexivity.
    replace (streq (str "enter") (str "enter")) with true by reflexivity.
    rewrite Hlen. replace (Z.of_nat k <? 0) with false
      by (symmetry; apply Z.ltb_ge; lia).
    rewrite Nat2Z.id, Hk. unfold tui.chan_send.
    rewrite Hch1, Hopen, Hbuf. cbn [length app].
    replace (0 <? tui.cap ch1)%nat with true by (symmetry; apply Nat.ltb_lt; lia).
    reflexivity.
  - reflexivity.
  - reflexivity.
  - unfold tui.AskQuestion_wakeRecv, tui.chan_recv, σ2.
    rewrite Ha, lookup_insert_eq. reflexivity.
Qed.

End QuestionAnswers.

Lemma AskQuestion_answered_on_enter_witness :
  let '(c, σ) := collector_example in
  let '(_, c1, σ1) :=
    tui.AskQuestion_publish (str "continue?") [str "Yes"; str "No"] c σ in
  exists (m' : tui.Model (gostring * bool)) (σ2 σ3 : tui.Chans),
    tui.updateQuestion (str "enter")
      (tui.setCursor 1
         (tui.handleQuestion (str "continue?") [str "Yes"; str "No"]
            (tui.answerCh c1) model_example)) σ1
    = tui.Ok (m', tui.CmdNil, σ2)
    /\ tui.state m' = tui.StateExecuting
    /\ tui.questionCh m' = None
    /\ tui.AskQuestion_wakeRecv c1 σ2 = (tui.Returned (str "No") None, σ3).
Proof.
  destruct collector_example as [c σ] eqn:Hc.
  destruct (tui.AskQuestion_publish (str "continue?") [str "Yes"; str "No"] c σ)
    as [[ph c1] σ1] eqn:Hpub.
  injection Hc as <- <-.
  apply (AskQuestion_answered_on_enter (str "continue?") [str "Yes"; str "No"]
           {| tui.csender := ([] : tui.mockSender);
              tui.answerCh := fresh (dom (∅ : tui.Chans)) |}
           c1 (<[fresh (dom (∅ : tui.Chans)) := tui.mkChan [] 1 false]> ∅)
           σ1 σ1 (tui.mkChan [] 1 false) model_example true 1 (str "No")).
  - cbn. by rewrite lookup_insert_eq.
  - cbn. lia.
  - rewrite Hpub. f_equal. f_equal.
    by destruct ph; vm_compute in Hpub.
  - vm_compute in Hpub. injection Hpub as _ <- <-. reflexivity.
  - reflexivity.
Defined.

(** An answer left in the channel by a question that was canceled is
    not taken for the answer to the next question: the call drains it
    before it publishes, and then waits. *)
Theorem AskQuestion_drains_stale_answer {T : Type} `{tui.Sender T}
  (question o : gostring) (os : list gostring) (c : tui.teaCollector T)
  (σ : tui.Chans) (stale : gostring) (coin : bool) :
  σ !! tui.answerCh c = Some (tui.mkChan [stale] 1 false) ->
  exists (c1 : tui.teaCollector T) (σ1 : tui.Chans),
    tui.AskQuestion_publish question (o :: os) c σ = (tui.AtSelect, c1, σ1)
    /\ σ1 !! tui.answerCh c1 = Some (tui.mkChan [] 1 false)
    /\ tui.AskQuestion_select coin None c1 σ1 = (tui.Parked, σ1).
Proof.
  intros Hch. eexists _, _. split; [reflexivity|].
  unfold tui.AskQuestion_select, tui.chan_recv.
  cbn [tui.answerCh]. rewrite Hch. cbn [tui.buf tui.cap tui.closed].
  rewrite lookup_insert_eq. done.
Qed.

Lemma AskQuestion_drains_stale_answer_witness :
  let c := tui.mkTeaCollector ([] : tui.mockSender) 0%nat in
  let σ : tui.Chans := {[ 0%nat := tui.mkChan [str "Yes"] 1 false ]} in
  exists (c1 : tui.teaCollector tui.mockSender) (σ1 : tui.Chans),
    tui.AskQuestion_publish (str "again?") [str "Yes"; str "No"] c σ
    = (tui.AtSelect, c1, σ1)
    /\ σ1 !! tui.answerCh c1 = Some (tui.mkChan [] 1 false)
    /\ tui.AskQuestion_select true None c1 σ1 = (tui.Parked, σ1).
Proof.
  cbv zeta.
  apply (AskQuestion_drains_stale_answer (str "again?") (str "Yes") [str "No"]
           (tui.mkTeaCollector ([] : tui.mockSender) 0%nat)
           {[ 0%nat := tui.mkChan [str "Yes"] 1 false ]} (str "Yes") true).
  reflexivity.
Defined.

(** ** The loggers' other methods *)

Lemma fmap_File_write_nil (fo : option File) : File_write [] <$> fo = fo.
Proof. destruct fo as [f|]; [|done]. cbn. by rewrite File_write_nil. Qed.

Lemma fmap_File_write_app (a b : gostring) (fo : option File) :
  File_write b <$> (File_write a <$> fo) = File_write (a ++ b) <$> fo.
Proof. destruct fo as [f|]; [|done]. cbn. by rewrite File_write_app. Qed.

(** A write leaves a file that is closed as it is. *)
Lemma File_write_closed (s : gostring) (f : File) :
  fopen f = false -> File_write s f = f.
Proof. unfold File_write. by intros ->. Qed.

Ltac logger_done :=
  unfold progress_withFile, tui_withFile, tui_withSender, stamp;
  cbn [progress.file progress.startTime progress.phase
       tui.file tui.lsender tui.startTime tui.phase sendAll fold_left];
  rewrite <- ?app_assoc; try done.

Lemma progress_call_run (op : LogOp) (l : progress.Logger) (e : Env) :
  progress_call op (mkSt l e)
  = (tt, mkSt (progress.mkLogger (File_write (logBytes op e) <$> progress.file l)
                 (progress.startTime l) (logPhase op (progress.phase l)))
              (tick (logReads op e) e)).
Proof.
  destruct l as [fo st ph].
  destruct op as [ph'|msg|msg|s|text|q opts|a];
    cbn [progress_call logBytes logReads logPhase progress.file
         progress.startTime progress.phase].
  - unfold progress.SetPhase, modify. cbn.
    by rewrite fmap_File_write_nil, tick_0.
  - unfold progress.Print.
    rewrite bind_run, time_Now_run, progress_writeFile_run. logger_done.
  - unfold progress.PrintRaw. rewrite progress_writeFile_run, tick_0.
    logger_done.
  - unfold progress.PrintSection. rewrite progress_writeFile_run, tick_0.
    logger_done.
  - rewrite progress_PrintAligned_run. logger_done.
  - unfold progress.LogQuestion.
    rewrite bind_run, time_Now_run, bind_run, progress_writeFile_run,
      progress_writeFile_run, progress_withFile_write. logger_done.
  - unfold progress.LogAnswer.
    rewrite bind_run, time_Now_run, progress_writeFile_run. logger_done.
Qed.

Lemma progress_calls_run (ops : list LogOp) (l : progress.Logger) (e : Env) :
  forEach ops progress_call (mkSt l e)
  = (tt, mkSt (progress.mkLogger
                 (File_write (logBytesAll ops e) <$> progress.file l)
                 (progress.startTime l) (logPhaseAll ops (progress.phase l)))
              (tick (logReadsAll ops e) e)).
Proof.
  revert l e. induction ops as [|op ops IH]; intros l e.
  - destruct l. cbn. by rewrite fmap_File_write_nil, tick_0.
  - cbn [forEach]. rewrite bind_run, progress_call_run, IH.
    cbn [progress.file progress.startTime progress.phase logBytesAll
         logReadsAll logPhaseAll fold_left].
    by rewrite fmap_File_write_app, tick_tick.
Qed.

Section TuiLoggerCalls.

Context {T : Type} `{tui.Sender T}.

Lemma sendAll_app (a b : list tui.Msg) (s : T) :
  sendAll (a ++ b) s = sendAll b (sendAll a s).
Proof. apply fold_left_app. Qed.

Lemma tui_call_run (op : LogOp) (l : tui.teaLogger T) (e : Env) :
  tui_call op (mkSt l e)
  = (tt, mkSt (tui.mkTeaLogger (File_write (logBytes op e) <$> tui.file l)
                 (sendAll (logMsgs op e) (tui.lsender l))
                 (tui.startTime l) (logPhase op (tui.phase l)))
              (tick (logReads op e) e)).
Proof.
  destruct l as [fo sn st ph].
  destruct op as [ph'|msg|msg|s|text|q opts|a];
    cbn [tui_call logBytes logReads logPhase logMsgs tui.file tui.lsender
         tui.startTime tui.phase].
  - unfold tui.SetPhase, modify. cbn.
    by rewrite fmap_File_write_nil, tick_0.
  - unfold tui.Print.
    rewrite bind_run, time_Now_run, bind_run, tui_writeFile_run, tui_send_run.
    logger_done.
  - unfold tui.PrintRaw.
    rewrite bind_run, tui_writeFile_run, tui_send_run, tick_0. logger_done.
  - unfold tui.PrintSection.
    rewrite bind_run, tui_writeFile_run, tui_send_run, tick_0. logger_done.
  - rewrite tui_PrintAligned_run.
    change tui.timestampFormat with progress.timestampFormat.
    destruct (alignedLines _ _ _ _); logger_done.
  - unfold tui.LogQuestion.
    rewrite bind_run, time_Now_run, !bind_run, !tui_writeFile_run,
      !bind_run, !tui_writeFile_run, !bind_run, !tui_send_run.
    rewrite tui_withFile_write. logger_done.
  - unfold tui.LogAnswer.
    rewrite bind_run, time_Now_run, bind_run, tui_writeFile_run, tui_send_run.
    logger_done.
Qed.

Lemma tui_calls_run (ops : list LogOp) (l : tui.teaLogger T) (e : Env) :
  forEach ops tui_call (mkSt l e)
  = (tt, mkSt (tui.mkTeaLogger
                 (File_write (logBytesAll ops e) <$> tui.file l)
                 (sendAll (logMsgsAll ops e) (tui.lsender l))
                 (tui.startTime l) (logPhaseAll ops (tui.phase l)))
              (tick (logReadsAll ops e) e)).
Proof.
  revert l e. induction ops as [|op ops IH]; intros l e.
  - destruct l. cbn. by rewrite fmap_File_write_nil, tick_0.
  - cbn [forEach]. rewrite bind_run, tui_call_run, IH.
    cbn [tui.file tui.lsender tui.startTime tui.phase logBytesAll
         logReadsAll logMsgsAll logPhaseAll fold_left].
    by rewrite fmap_File_write_app, tick_tick, sendAll_app.
Qed.

End TuiLoggerCalls.


(** *** Opening a logger *)

Section OpenLogger.

Variable caseLower : rune -> rune.
Variable humanize_RelTime :
  time.Time -> time.Time -> gostring -> gostring -> gostring.
Variable filepath_Abs : gostring -> option gostring.
Variable filepath_Clean : gostring -> gostring.
Variable filepath_Dir : gostring -> gostring.

Context {T : Type} `{tui.Sender T}.

Let canonical := progress.canonicalPath filepath_Abs filepath_Clean.
Let tuiNewLogger := @tui.NewLogger caseLower filepath_Abs filepath_Clean T filepath_Dir.
Let progressNewLogger :=
  progress.NewLogger caseLower filepath_Abs filepath_Clean filepath_Dir.
Let tuiClose := @tui.Close filepath_Abs filepath_Clean T.

Lemma tui_writeHeader_run (cfg : tui.LoggerConfig) (l : tui.teaLogger T)
  (e : Env) :
  tui.writeHeader cfg (mkSt l e)
  = (tt, mkSt (tui_withFile
                 (File_write (headerText (tui.PlanFile cfg) (tui.Branch cfg)
                                (tui.Mode cfg) (wall e (ticks e)))) l)
              (tick 1 e)).
Proof.
  unfold tui.writeHeader, headerText.
  repeat (progress (rewrite ?bind_run, ?tui_writeFile_run, ?time_Now_run;
                    cbv beta iota)).
  by rewrite !tui_withFile_write, <- !app_assoc.
Qed.

Lemma progress_writeHeader_run (cfg : progress.Config) (l : progress.Logger)
  (e : Env) :
  progress.writeHeader cfg (mkSt l e)
  = (tt, mkSt (progress_withFile
                 (File_write (headerText (progress.PlanFile cfg)
                                (progress.Branch cfg) (progress.Mode cfg)
                                (wall e (ticks e)))) l)
              (tick 1 e)).
Proof.
  unfold progress.writeHeader, headerText.
  repeat (progress (rewrite ?bind_run, ?progress_writeFile_run, ?time_Now_run;
                    cbv beta iota)).
  by rewrite !progress_withFile_write, <- !app_assoc.
Qed.

(** [NewLogger] when the operating system lets it open the file. *)
Lemma tui_NewLogger_opens (cfg : tui.LoggerConfig) (sender : T)
  (sys : Syscalls) (e : Env) :
  let path := tui.progressFilename caseLower (tui.PlanFile cfg)
                (tui.PlanDescription cfg) (tui.Mode cfg) in
  opens (filepath_Dir path) sys = true ->
  tuiNewLogger cfg sender sys e
  = (inl (tui.mkTeaLogger
            (Some (mkFile path
                     (headerText (tui.PlanFile cfg) (tui.Branch cfg)
                        (tui.Mode cfg) (wall e (S (ticks e))))
                     true true))
            sender (wall e (ticks e)) PhaseTask),
     mkEnv (wall e) (S (S (ticks e))) ({[ canonical path ]} ∪ activeLocks e)).
Proof.
  cbv zeta. unfold opens, tuiNewLogger, tui.NewLogger.
  rewrite !andb_true_iff, !bool_decide_eq_true. intros [[-> ->] ->].
  rewrite time_Now_run, tui_writeHeader_run.
  destruct e as [w n al]. unfold tick. cbn.
  by rewrite !Nat.add_1_r.
Qed.

Lemma progress_NewLogger_opens (cfg : progress.Config) (sys : Syscalls)
  (e : Env) :
  let path := progress.progressFilename caseLower (progress.PlanFile cfg)
                (progress.PlanDescription cfg) (progress.Mode cfg) in
  opens (filepath_Dir path) sys = true ->
  progressNewLogger cfg sys e
  = (inl (progress.mkLogger
            (Some (mkFile path
                     (headerText (progress.PlanFile cfg) (progress.Branch cfg)
                        (progress.Mode cfg) (wall e (S (ticks e))))
                     true true))
            (wall e (ticks e)) PhaseTask),
     mkEnv (wall e) (S (S (ticks e))) ({[ canonical path ]} ∪ activeLocks e)).
Proof.
  cbv zeta. unfold opens, progressNewLogger, progress.NewLogger.
  rewrite !andb_true_iff, !bool_decide_eq_true. intros [[-> ->] ->].
  rewrite time_Now_run, progress_writeHeader_run.
  destruct e as [w n al]. unfold tick. cbn.
  by rewrite !Nat.add_1_r.
Qed.

(** [NewLogger] when one of its calls to the operating system fails:
    the error names the call, and the process is as it was. *)
Lemma tui_NewLogger_fails (cfg : tui.LoggerConfig) (sender : T)
  (sys : Syscalls) (e : Env) :
  let path := tui.progressFilename caseLower (tui.PlanFile cfg)
                (tui.PlanDescription cfg) (tui.Mode cfg) in
  opens (filepath_Dir path) sys = false ->
  exists err, tuiNewLogger cfg sender sys e = (inr err, e)
    /\ (err ∈ [str "create progress dir: " ++ default [] (mkdirErr sys);
               str "create progress file: " ++ default [] (createErr sys);
               str "acquire file lock: " ++ default [] (flockErr sys)]).
Proof.
  cbv zeta. unfold opens, tuiNewLogger, tui.NewLogger.
  destruct (if negb _ then mkdirErr sys else None) as [err|] eqn:Hmk.
  { intros _. exists (str "create progress dir: " ++ err). split; [done|].
    destruct (negb _); [|done]. rewrite Hmk. cbn [default]. set_solver. }
  destruct (createErr sys) as [err|].
  { intros _. eexists. split; [done|]. cbn [default]. set_solver. }
  destruct (flockErr sys) as [err|]; [|done].
  intros _. eexists. split; [done|]. cbn [default]. set_solver.
Qed.

Lemma progressFilename_same (planFile planDescription mode : gostring) :
  tui.progressFilename caseLower planFile planDescription mode
  = progress.progressFilename caseLower planFile planDescription mode.
Proof.
  unfold tui.progressFilename, progress.progressFilename.
  by rewrite sanitizePlanName_mirrored.
Qed.

(** [Close] of the TUI logger when its file is closed already: the
    clock is read and the path is taken off the registry once more, the
    file is as it was, and the error of the second [close] comes back. *)
Lemma tui_Close_closed_run (l : tui.teaLogger T) (e : Env) (f : File) :
  tui.file l = Some f -> fopen f = false ->
  tuiClose (mkSt l e)
  = (Some (str "close progress file: "
           ++ (str "close " ++ fname f ++ str ": file already closed")),
     mkSt l (mkEnv (wall e) (S (ticks e))
               (activeLocks e ∖ {[ canonical (fname f) ]}))).
Proof.
  intros Hf Ho. destruct l as [fl sn st ph]. cbn in Hf. subst fl.
  destruct f as [name data locked opened]. cbn in Ho. subst opened.
  destruct e as [w n al]. reflexivity.
Qed.

(** The two loggers write the same progress file.  Opened with the same
    configuration, by a process in the same state, [progress.NewLogger]
    and [tui.NewLogger] fail with the same error or make loggers with
    the same file, start time and phase; and after the same calls of
    [SetPhase], [Print], [PrintRaw], [PrintSection], [PrintAligned],
    [LogQuestion] and [LogAnswer], in any number and order, the files,
    the phases and the state of the process are still the same. *)
Theorem loggers_write_the_same_file (cfg : tui.LoggerConfig) (sender : T)
  (sys : Syscalls) (ops : list LogOp) (e : Env) :
  match progressNewLogger (toConfig cfg) sys e, tuiNewLogger cfg sender sys e with
  | (inl l, e1), (inl tl, e2) =>
    let '(_, st1) := forEach ops progress_call (mkSt l e1) in
    let '(_, st2) := forEach ops tui_call (mkSt tl e2) in
    l = forget tl /\ e1 = e2
    /\ self st1 = forget (self st2) /\ env st1 = env st2
  | (inr err1, e1), (inr err2, e2) => err1 = err2 /\ e1 = e2
  | _, _ => False
  end.
Proof.
  destruct (opens (filepath_Dir
                     (tui.progressFilename caseLower (tui.PlanFile cfg)
                        (tui.PlanDescription cfg) (tui.Mode cfg))) sys)
    eqn:Hopen.
  - rewrite tui_NewLogger_opens by done.
    rewrite progress_NewLogger_opens
      by (cbn [toConfig progress.PlanFile progress.PlanDescription
               progress.Mode]; by rewrite <- progressFilename_same).
    rewrite progress_calls_run, tui_calls_run.
    cbn [toConfig progress.PlanFile progress.PlanDescription progress.Mode
         progress.Branch forget tui.file tui.startTime tui.phase self env
         progress.file progress.startTime progress.phase].
    rewrite <- (progressFilename_same (tui.PlanFile cfg)
                  (tui.PlanDescription cfg) (tui.Mode cfg)).
    done.
  - unfold progressNewLogger, tuiNewLogger, progress.NewLogger, tui.NewLogger.
    unfold opens in Hopen.
    cbn [toConfig progress.PlanFile progress.PlanDescription progress.Mode
         progress.Branch].
    rewrite <- progressFilename_same.
    destruct (if negb _ then mkdirErr sys else None) as [err|]; [done|].
    destruct (createErr sys) as [err|]; [done|].
    destruct (flockErr sys) as [err|]; [done|].
    by rewrite !bool_decide_eq_true_2 in Hopen.
Qed.

(** What the TUI logger sends does not depend on its file.  Whatever
    the file is (nil, closed, or open with any content), the same calls
    send the same messages in the same order and read the clock as
    often; and a logger without a file stays without one. *)
Theorem teaLogger_sends_whatever_the_file (ops : list LogOp)
  (l : tui.teaLogger T) (fo : option File) (e : Env) :
  let l' := tui.mkTeaLogger fo (tui.lsender l) (tui.startTime l) (tui.phase l) in
  let '(_, st) := forEach ops tui_call (mkSt l e) in
  let '(_, st') := forEach ops tui_call (mkSt l' e) in
  let '(_, st0) :=
    forEach ops tui_call
      (mkSt (tui.mkTeaLogger None (tui.lsender l) (tui.startTime l) (tui.phase l)) e) in
  tui.lsender (self st') = tui.lsender (self st)
  /\ tui.phase (self st') = tui.phase (self st)
  /\ env st' = env st
  /\ tui.lsender (self st0) = tui.lsender (self st)
  /\ tui.file (self st0) = None.
Proof.
  cbv zeta. by rewrite !tui_calls_run.
Qed.

(** The lock of a session.  When [NewLogger] returns a logger, the
    path of its file is the progress file name and the registry has it
    as locked by this process; it stays so through every call on the
    logger; [Close] then returns no error, takes the path off the
    registry, and leaves the file unlocked and closed, holding the
    header, what the calls wrote, and the footer. *)
Theorem session_holds_lock_until_Close (cfg : tui.LoggerConfig) (sender : T)
  (sys : Syscalls) (ops : list LogOp) (e e1 : Env) (tl : tui.teaLogger T) :
  tuiNewLogger cfg sender sys e = (inl tl, e1) ->
  let path := tui.progressFilename caseLower (tui.PlanFile cfg)
                (tui.PlanDescription cfg) (tui.Mode cfg) in
  let locked := progress.IsPathLockedByCurrentProcess filepath_Abs filepath_Clean in
  let '(_, st) := forEach ops tui_call (mkSt tl e1) in
  let '(err, st') := tuiClose st in
  tui.Path tl = path
  /\ locked path e1 = true
  /\ tui.Path (self st) = path
  /\ locked path (env st) = true
  /\ err = None
  /\ locked path (env st') = false
  /\ tui.file (self st')
     = Some (mkFile path
               (headerText (tui.PlanFile cfg) (tui.Branch cfg) (tui.Mode cfg)
                  (wall e (S (ticks e)))
                ++ logBytesAll ops e1
                ++ ([nl] ++ rule ++ [nl])
                ++ (str "Completed: "
                    ++ time.Format (wall (env st) (ticks (env st))) time.DateTime
                    ++ [nl]))
               false false).
Proof.
  intros Hnew. cbv zeta.
  destruct (opens (filepath_Dir
                     (tui.progressFilename caseLower (tui.PlanFile cfg)
                        (tui.PlanDescription cfg) (tui.Mode cfg))) sys)
    eqn:Hopen.
  2:{ destruct (tui_NewLogger_fails cfg sender sys e Hopen) as (err & Hf & _).
      unfold tuiNewLogger in *. congruence. }
  rewrite tui_NewLogger_opens in Hnew by done. injection Hnew as <- <-.
  rewrite tui_calls_run. unfold tuiClose.
  erewrite tui_Close_run; [|reflexivity|reflexivity].
  unfold progress.IsPathLockedByCurrentProcess, tick.
  cbn [tui.Path tui.file fname fdata self env activeLocks wall ticks
       File_write fopen flocked fmap option_fmap option_map].
  fold canonical.
  split; [done|].
  split; [by apply bool_decide_eq_true_2, elem_of_union_l, elem_of_singleton|].
  split; [done|].
  split; [by apply bool_decide_eq_true_2, elem_of_union_l, elem_of_singleton|].
  split; [done|].
  split; [apply bool_decide_eq_false_2, not_elem_of_difference; right;
          by apply elem_of_singleton|].
  by rewrite <- !app_assoc.
Qed.


(** [Close] is not to be called twice.  The first [Close] of a logger
    with an open file returns no error.  Whatever is logged after it
    is lost to the file, and a second [Close] returns the error
    [close progress file: close NAME: file already closed], with the
    file and the registry as the first [Close] left them. *)
Theorem Close_again_fails_and_writes_nothing (ops : list LogOp)
  (l : tui.teaLogger T) (e : Env) (f : File) :
  tui.file l = Some f -> fopen f = true ->
  let '(err1, st1) := tuiClose (mkSt l e) in
  let '(_, st2) := forEach ops tui_call st1 in
  let '(err2, st3) := tuiClose st2 in
  err1 = None
  /\ err2 = Some (str "close progress file: close " ++ fname f
                  ++ str ": file already closed")
  /\ tui.file (self st2) = tui.file (self st1)
  /\ tui.file (self st3) = tui.file (self st1)
  /\ activeLocks (env st3) = activeLocks (env st1).
Proof.
  intros Hf Ho. unfold tuiClose.
  rewrite (tui_Close_run _ _ _ e f Hf Ho), tui_calls_run.
  cbn [tui.file fmap option_fmap option_map].
  rewrite File_write_closed by done.
  erewrite tui_Close_closed_run; [|reflexivity|reflexivity].
  cbn [self env tui.file activeLocks fname tick].
  split; [done|]. split; [done|]. split; [done|]. split; [done|].
  apply set_eq. intros x.
  rewrite !elem_of_difference. tauto.
Qed.

End OpenLogger.

Lemma progress_stamped_run (tag msg : gostring) (l : progress.Logger) (e : Env) :
  (now ← time_Now;
   progress.writeFile
     (str "[" ++ time.Format now progress.timestampFormat ++ tag ++ msg ++ [nl]))
    (mkSt l e)
  = (tt, mkSt (progress_withFile
                 (File_write (str "[" ++ time.Format (wall e (ticks e))
                                           progress.timestampFormat
                              ++ tag ++ msg ++ [nl])) l)
              (tick 1 e)).
Proof. by rewrite bind_run, time_Now_run, progress_writeFile_run. Qed.

(** The logger of package [progress] only appends.  After any calls
    of its logging methods, [Error] and [Warn] among them, the file is
    the file it was with some bytes added at its end if it is open (and
    as it was if it is closed or nil): its name, its lock and whether it
    is open are as they were; the registry of locks is untouched, and
    the clock has only been read. *)
Theorem progress_Logger_only_appends (ops : list ProgressOp)
  (l : progress.Logger) (e : Env) :
  let '(_, st) := forEach ops progress_call' (mkSt l e) in
  exists (s : gostring) (n : nat),
    progress.file (self st) = File_write s <$> progress.file l
    /\ progress.startTime (self st) = progress.startTime l
    /\ env st = tick n e.
Proof.
  revert l e. induction ops as [|op ops IH]; intros l e.
  - exists [], 0%nat. cbn. by rewrite fmap_File_write_nil, tick_0.
  - cbn [forEach]. rewrite bind_run.
    assert (Hop : exists s n ph,
               progress_call' op (mkSt l e)
               = (tt, mkSt (progress.mkLogger (File_write s <$> progress.file l)
                              (progress.startTime l) ph) (tick n e))).
    { destruct op as [op|msg|msg]; cbn [progress_call'].
      - rewrite progress_call_run. by eexists _, _, _.
      - unfold progress.Error.
        rewrite (progress_stamped_run (str "] ERROR: ")).
        destruct l. by eexists _, _, _.
      - unfold progress.Warn.
        rewrite (progress_stamped_run (str "] WARN: ")).
        destruct l. by eexists _, _, _. }
    destruct Hop as (s & n & ph & ->).
    specialize (IH (progress.mkLogger (File_write s <$> progress.file l)
                      (progress.startTime l) ph) (tick n e)).
    destruct (forEach ops progress_call' _) as [[] st].
    destruct IH as (s' & n' & Hfile & Hstart & Henv).
    cbn [progress.file progress.startTime] in Hfile, Hstart.
    exists (s ++ s'), (n + n')%nat.
    by rewrite Hfile, Hstart, Henv, fmap_File_write_app, tick_tick.
Qed.


Lemma session_holds_lock_until_Close_witness :
  exists (tl : tui.teaLogger tui.mockSender) (e1 : Env),
    tui.NewLogger unicode.caseLower_excerpt filepath_Abs_id filepath_Clean_id
      filepath_Dir_here loggerConfig_example [] syscalls_ok env_start
    = (inl tl, e1)
    /\ let path := tui.progressFilename unicode.caseLower_excerpt
                     (tui.PlanFile loggerConfig_example)
                     (tui.PlanDescription loggerConfig_example)
                     (tui.Mode loggerConfig_example) in
       let locked := progress.IsPathLockedByCurrentProcess
                       filepath_Abs_id filepath_Clean_id in
       let '(_, st) := forEach calls_example tui_call (mkSt tl e1) in
       let '(err, st') := tui.Close filepath_Abs_id filepath_Clean_id st in
       tui.Path tl = path
       /\ locked path e1 = true
       /\ tui.Path (self st) = path
       /\ locked path (env st) = true
       /\ err = None
       /\ locked path (env st') = false
       /\ tui.file (self st')
          = Some (mkFile path
                    (headerText (tui.PlanFile loggerConfig_example)
                       (tui.Branch loggerConfig_example)
                       (tui.Mode loggerConfig_example)
                       (wall env_start (S (ticks env_start)))
                     ++ logBytesAll calls_example e1
                     ++ ([nl] ++ rule ++ [nl])
                     ++ (str "Completed: "
                         ++ time.Format (wall (env st) (ticks (env st)))
                              time.DateTime
                         ++ [nl]))
                    false false).
Proof.
  eexists _, _. split; [reflexivity|].
  apply (session_holds_lock_until_Close unicode.caseLower_excerpt
           filepath_Abs_id filepath_Clean_id filepath_Dir_here
           loggerConfig_example [] syscalls_ok calls_example env_start).
  reflexivity.
Defined.


Lemma Close_again_fails_and_writes_nothing_witness :
  tui.file teaLogger_example = Some file_example
  /\ fopen file_example = true
  /\ let '(err1, st1) :=
       tui.Close filepath_Abs_id filepath_Clean_id
         (mkSt teaLogger_example env_example) in
     let '(_, st2) := forEach calls_example tui_call st1 in
     let '(err2, st3) := tui.Close filepath_Abs_id filepath_Clean_id st2 in
     err1 = None
     /\ err2 = Some (str "close progress file: close " ++ fname file_example
                     ++ str ": file already closed")
     /\ tui.file (self st2) = tui.file (self st1)
     /\ tui.file (self st3) = tui.file (self st1)
     /\ activeLocks (env st3) = activeLocks (env st1).
Proof.
  split; [reflexivity|]. split; [reflexivity|].
  apply (Close_again_fails_and_writes_nothing filepath_Abs_id filepath_Clean_id
           calls_example teaLogger_example env_example file_example);
    reflexivity.
Defined.


(** ** The registry of locks *)

Section Registry.

Variable filepath_Abs : gostring -> option gostring.
Variable filepath_Clean : gostring -> gostring.

Let canonical := progress.canonicalPath filepath_Abs filepath_Clean.
Let locked := progress.IsPathLockedByCurrentProcess filepath_Abs filepath_Clean.
Let register := progress.RegisterActiveLock filepath_Abs filepath_Clean.
Let unregister := progress.UnregisterActiveLock filepath_Abs filepath_Clean.

(** The registry goes by canonical paths, and it is a set.  After
    [RegisterActiveLock(p)] a path is locked exactly when it has the
    canonical path of [p] or was locked before; after
    [UnregisterActiveLock(p)], exactly when it has another canonical
    path and was locked before.  So a path registered twice is not
    locked any more once it is unregistered a single time. *)
Theorem lock_registry_goes_by_canonical_path (p q : gostring) (e : Env) :
  locked q (register p e)
  = bool_decide (canonical q = canonical p) || locked q e
  /\ locked q (unregister p e)
     = negb (bool_decide (canonical q = canonical p)) && locked q e
  /\ locked p (unregister p (register p (register p e))) = false.
Proof.
  unfold locked, register, unregister, progress.IsPathLockedByCurrentProcess,
    progress.RegisterActiveLock, progress.UnregisterActiveLock.
  cbn [activeLocks]. fold canonical.
  split; [|split].
  - destruct (decide (canonical q = canonical p)) as [Heq|Hne].
    + rewrite (bool_decide_eq_true_2 (canonical q = canonical p)) by done.
      apply bool_decide_eq_true_2, elem_of_union_l, elem_of_singleton. done.
    + rewrite (bool_decide_eq_false_2 (canonical q = canonical p)) by done.
      cbn [orb]. apply bool_decide_ext.
      rewrite elem_of_union, elem_of_singleton. tauto.
  - destruct (decide (canonical q = canonical p)) as [Heq|Hne].
    + rewrite (bool_decide_eq_true_2 (canonical q = canonical p)) by done.
      apply bool_decide_eq_false_2, not_elem_of_difference. right.
      by apply elem_of_singleton.
    + rewrite (bool_decide_eq_false_2 (canonical q = canonical p)) by done.
      cbn [negb andb]. apply bool_decide_ext.
      rewrite elem_of_difference, elem_of_singleton. tauto.
  - apply bool_decide_eq_false_2, not_elem_of_difference. right.
    by apply elem_of_singleton.
Qed.

End Registry.

(** ** The progress file is in the working directory *)

Lemma Base_slashFree_or_root (path : gostring) :
  slashFree (filepath.Base path) \/ filepath.Base path = str "/".
Proof.
  unfold filepath.Base. destruct path as [|c0 p0]; [left; repeat constructor|].
  set (path := c0 :: p0).
  set (trimmed := reverse (strings.dropWhile filepath.isSep (reverse path))).
  pose proof (takeWhile_Forall (fun c => negb (filepath.isSep c))
                (reverse trimmed)) as Hall.
  destruct (reverse (strings.takeWhile _ (reverse trimmed))) as [|c l] eqn:Hl;
    [by right|].
  left. rewrite <- Hl. unfold slashFree. rewrite Forall_forall in *.
  intros c' Hc'. rewrite elem_of_reverse in Hc'.
  specialize (Hall c' Hc'). by destruct (filepath.isSep c').
Qed.

Lemma TrimSuffix_slashFree (s suffix : gostring) :
  slashFree s -> slashFree (strings.TrimSuffix s suffix).
Proof.
  unfold strings.TrimSuffix, slashFree. intros Hs.
  destruct (strings.HasSuffix s suffix); [|done].
  rewrite <- (take_drop (length s - length suffix) s) in Hs.
  by apply Forall_app in Hs as [? _].
Qed.

Lemma isSlug_slashFree (s : gostring) : isSlug s -> slashFree s.
Proof.
  intros (_ & _ & Hall & _). unfold slashFree.
  eapply Forall_impl; [apply Hall|]. intros c Hc. cbn beta in Hc.
  unfold filepath.isSep. apply bool_decide_eq_false_2. intros ->.
  assert (Hno : bool_decide ("/"%char ∈ slugChars) = false) by by vm_compute.
  by apply bool_decide_eq_false_1 in Hno.
Qed.

Ltac str_eq := cbn; rewrite <- ?app_assoc; cbn; reflexivity.

(** The progress file is always a file of the working directory.  For
    every plan file, description and mode, the name that
    [progressFilename] returns begins with [progress] and ends with
    [.txt]; and it has no slash in it, unless the plan file is a path
    of slashes only, whose base name is a slash: then the name is
    [progress-/.txt], [progress-/-review.txt] or
    [progress-/-codex.txt]. *)
Theorem progressFilename_names_a_file_here (caseLower : rune -> rune)
  (planFile planDescription mode : gostring) :
  let name := progress.progressFilename caseLower planFile planDescription mode in
  (exists middle, name = str "progress" ++ middle ++ str ".txt")
  /\ (slashFree name
      \/ (filepath.Base planFile = str "/"
          /\ name ∈ [str "progress-/.txt"; str "progress-/-review.txt";
                     str "progress-/-codex.txt"])).
Proof.
  cbv zeta. unfold progress.progressFilename.
  destruct (streq mode (str "plan") && negb (streq planDescription [])).
  { split.
    { exists (str "-plan-" ++ progress.sanitizePlanName caseLower planDescription).
      generalize (progress.sanitizePlanName caseLower planDescription).
      intros slug. str_eq. }
    left. apply slashFree_app; [repeat constructor|].
    apply slashFree_app; [|repeat constructor].
    apply isSlug_slashFree. rewrite sanitizePlanName_amended.
    apply slug_amended_isSlug. }
  destruct (negb (streq planFile [])).
  - set (stem := strings.TrimSuffix (filepath.Base planFile) (str ".md")).
    assert (Hstem : slashFree stem
                    \/ (filepath.Base planFile = str "/" /\ stem = str "/")).
    { destruct (Base_slashFree_or_root planFile) as [Hsf|Hroot].
      - left. by apply TrimSuffix_slashFree.
      - right. split; [done|]. unfold stem. by rewrite Hroot. }
    clearbody stem.
    destruct (streq mode (str "codex-only"));
      [|destruct (streq mode (str "review"))].
    + split; [exists (str "-" ++ stem ++ str "-codex"); str_eq|].
      destruct Hstem as [Hsf|[Hroot ->]].
      * left. apply slashFree_app; [repeat constructor|].
        apply slashFree_app; [done|repeat constructor].
      * right. split; [done|]. apply (bool_decide_unpack _). by vm_compute.
    + split; [exists (str "-" ++ stem ++ str "-review"); str_eq|].
      destruct Hstem as [Hsf|[Hroot ->]].
      * left. apply slashFree_app; [repeat constructor|].
        apply slashFree_app; [done|repeat constructor].
      * right. split; [done|]. apply (bool_decide_unpack _). by vm_compute.
    + split; [exists (str "-" ++ stem); str_eq|].
      destruct Hstem as [Hsf|[Hroot ->]].
      * left. apply slashFree_app; [repeat constructor|].
        apply slashFree_app; [done|repeat constructor].
      * right. split; [done|]. apply (bool_decide_unpack _). by vm_compute.
  - destruct (streq mode (str "codex-only"));
      [|destruct (streq mode (str "review"));
        [|destruct (streq mode (str "plan"))]].
    + split; [by exists (str "-codex")|left; repeat constructor].
    + split; [by exists (str "-review")|left; repeat constructor].
    + split; [by exists (str "-plan")|left; repeat constructor].
    + split; [by exists []|left; repeat constructor].
Qed.


(** ** Keys in the question state *)

Section QuestionKeys.

Context {V : Type}.

(** A model that shows no question, or has answered it: no key touches
    a channel. *)
Lemma updateQuestion_idle (key : gostring) (m : tui.Model V) (σ : tui.Chans) :
  tui.questionCh m = None -> 0 <= tui.questionCursor m ->
  exists m' cmd,
    tui.updateQuestion key m σ = tui.Ok (m', cmd, σ)
    /\ tui.questionCh m' = None /\ 0 <= tui.questionCursor m'.
Proof.
  intros Hch Hcur. unfold tui.updateQuestion. rewrite Hch.
  destruct (streq key (str "up") || streq key (str "k")).
  { destruct (tui.questionCursor m >? 0) eqn:Hgt; eexists _, _;
      (split; [reflexivity|]); cbn; (split; [done|]); lia. }
  destruct (streq key (str "down") || streq key (str "j")).
  { destruct (tui.questionCursor m <? _); eexists _, _;
      (split; [reflexivity|]); cbn; (split; [done|]); lia. }
  destruct (streq key (str "enter")); [by eexists _, _|].
  destruct (streq key (str "ctrl+c")); by eexists _, _.
Qed.

Lemma pressKeys_idle (keys : list gostring) (m : tui.Model V) (σ : tui.Chans) :
  tui.questionCh m = None -> 0 <= tui.questionCursor m ->
  exists m' cmd,
    pressKeys keys m σ = tui.Ok (m', cmd, σ)
    /\ tui.questionCh m' = None /\ 0 <= tui.questionCursor m'.
Proof.
  revert m. induction keys as [|key keys IH]; intros m Hch Hcur;
    [by eexists _, _|].
  cbn [pressKeys].
  destruct (tui.state m); try by eexists _, _.
  destruct (updateQuestion_idle key m σ Hch Hcur) as (m' & cmd & -> & Hch' & Hcur').
  destruct cmd; [by apply IH|by eexists _, _].
Qed.

(** The cursor of a model that shows a question stands on an option. *)
Definition onAnOption (m : tui.Model V) : Prop :=
  0 <= tui.questionCursor m
  /\ (tui.questionCursor m < Z.of_nat (length (tui.questionOpts m))
      \/ tui.questionOpts m = []).

(** One key while a question is pending on an open, empty channel with
    room: the cursor moves within the options, or one option is sent,
    or the channel is closed and the model quits. *)
Lemma updateQuestion_pending (key : gostring) (m : tui.Model V)
  (σ : tui.Chans) (ch : nat) (c : tui.Chan) :
  tui.questionCh m = Some ch -> σ !! ch = Some c ->
  tui.closed c = false -> tui.buf c = [] -> (0 < tui.cap c)%nat ->
  onAnOption m ->
  (exists m',
     tui.updateQuestion key m σ = tui.Ok (m', tui.CmdNil, σ)
     /\ tui.questionCh m' = Some ch
     /\ tui.questionOpts m' = tui.questionOpts m
     /\ onAnOption m')
  \/ (exists m' answer,
        tui.updateQuestion key m σ
        = tui.Ok (m', tui.CmdNil, <[ch := tui.mkChan [answer] (tui.cap c) false]> σ)
        /\ answer ∈ tui.questionOpts m
        /\ tui.questionCh m' = None /\ 0 <= tui.questionCursor m')
  \/ (exists m',
        tui.updateQuestion key m σ
        = tui.Ok (m', tui.Quit, <[ch := tui.mkChan [] (tui.cap c) true]> σ)
        /\ tui.questionCh m' = None /\ 0 <= tui.questionCursor m').
Proof.
  intros Hch Hc Hopen Hbuf Hcap [Hcur Hin]. unfold tui.updateQuestion.
  rewrite Hch.
  destruct (streq key (str "up") || streq key (str "k")).
  { left. destruct (tui.questionCursor m >? 0) eqn:Hgt; eexists;
      (split; [reflexivity|]); cbn; (split; [done|]); (split; [done|]);
      unfold onAnOption; cbn; (split; [lia|]);
      (destruct Hin as [Hin|Hin]; [left; lia|by right]). }
  destruct (streq key (str "down") || streq key (str "j")).
  { left. destruct (tui.questionCursor m <? _) eqn:Hlt; eexists;
      (split; [reflexivity|]); cbn; (split; [done|]); (split; [done|]);
      unfold onAnOption; cbn; (split; [lia|]); [left; lia|done]. }
  destruct (streq key (str "enter")).
  { destruct (0 <? length (tui.questionOpts m))%nat eqn:Hlen.
    - apply Nat.ltb_lt in Hlen.
      destruct Hin as [Hin|Hnil]; [|rewrite Hnil in Hlen; cbn in Hlen; lia].
      replace (tui.questionCursor m <? 0) with false
        by (symmetry; apply Z.ltb_ge; lia).
      destruct (tui.questionOpts m !! Z.to_nat (tui.questionCursor m))
        as [answer|] eqn:Hans.
      2:{ apply lookup_ge_None in Hans. lia. }
      right. left. unfold tui.chan_send. rewrite Hc, Hopen, Hbuf.
      cbn [length app].
      replace (0 <? tui.cap c)%nat with true
        by (symmetry; apply Nat.ltb_lt; lia).
      eexists _, answer. split; [reflexivity|].
      split; [by eapply list_elem_of_lookup_2|]. by cbn.
    - left. eexists. split; [reflexivity|]. by repeat split. }
  destruct (streq key (str "ctrl+c")).
  { right. right. unfold tui.chan_close. rewrite Hc, Hopen, Hbuf.
    eexists. split; [reflexivity|]. by cbn. }
  left. eexists. split; [reflexivity|]. by repeat split.
Qed.

(** The question state is safe for every key.  A model takes up a
    question on an answer channel that is open and empty and has room
    (as [AskQuestion] leaves it); then keys are pressed, any keys, in
    any number.  The event loop never panics (no index out of range, no
    send on a closed channel, no second close) and never blocks; the
    cursor never goes below zero; and when the run is over either
    nothing has been sent, or exactly one answer has been sent and it
    is one of the options, or the channel has been closed, empty, and
    the model has quit. *)
Theorem question_state_is_safe (keys : list gostring)
  (question : gostring) (options : list gostring) (ch : nat) (c : tui.Chan)
  (m0 : tui.Model V) (σ : tui.Chans) :
  σ !! ch = Some c ->
  tui.closed c = false -> tui.buf c = [] -> (0 < tui.cap c)%nat ->
  exists m' cmd σ',
    pressKeys keys (tui.handleQuestion question options ch m0) σ
    = tui.Ok (m', cmd, σ')
    /\ 0 <= tui.questionCursor m'
    /\ ((σ' = σ /\ tui.questionCh m' = Some ch /\ cmd = tui.CmdNil)
        \/ (exists answer, answer ∈ options
              /\ σ' = <[ch := tui.mkChan [answer] (tui.cap c) false]> σ
              /\ tui.questionCh m' = None)
        \/ (σ' = <[ch := tui.mkChan [] (tui.cap c) true]> σ
            /\ tui.questionCh m' = None /\ cmd = tui.Quit)).
Proof.
  intros Hc Hopen Hbuf Hcap.
  assert (Hgen : forall m,
             tui.questionCh m = Some ch -> tui.questionOpts m = options ->
             onAnOption m ->
             exists m' cmd σ',
               pressKeys keys m σ = tui.Ok (m', cmd, σ')
               /\ 0 <= tui.questionCursor m'
               /\ ((σ' = σ /\ tui.questionCh m' = Some ch /\ cmd = tui.CmdNil)
                   \/ (exists answer, answer ∈ options
                         /\ σ' = <[ch := tui.mkChan [answer] (tui.cap c) false]> σ
                         /\ tui.questionCh m' = None)
                   \/ (σ' = <[ch := tui.mkChan [] (tui.cap c) true]> σ
                       /\ tui.questionCh m' = None /\ cmd = tui.Quit))).
  { induction keys as [|key keys IH]; intros m Hch Hopts Hon.
    { eexists _, _, _. split; [reflexivity|]. split; [apply Hon|]. by left. }
    cbn [pressKeys].
    destruct (tui.state m);
      try (eexists _, _, _; split; [reflexivity|]; split; [apply Hon|]; by left).
    destruct (updateQuestion_pending key m σ ch c Hch Hc Hopen Hbuf Hcap Hon)
      as [(m' & -> & Hch' & Hopts' & Hon')
         |[(m' & answer & -> & Hans & Hch' & Hcur')
          |(m' & -> & Hch' & Hcur')]].
    - apply IH; [done|congruence|done].
    - destruct (pressKeys_idle keys m'
                  (<[ch := tui.mkChan [answer] (tui.cap c) false]> σ) Hch' Hcur')
        as (m'' & cmd & -> & Hch'' & Hcur'').
      eexists _, _, _. split; [reflexivity|]. split; [done|].
      right. left. exists answer. by rewrite <- Hopts.
    - eexists _, _, _. split; [reflexivity|]. split; [done|]. by right; right. }
  apply Hgen; [done|done|].
  unfold onAnOption. cbn. split; [done|]. destruct options; [by right|left].
  cbn [length]. lia.
Qed.

End QuestionKeys.

Lemma question_state_is_safe_witness :
  let σ : tui.Chans := {[ 0%nat := tui.mkChan [] 1 false ]} in
  let keys := [str "down"; str "down"; str "up"; str "x"; str "enter"; str "q"] in
  σ !! 0%nat = Some (tui.mkChan [] 1 false)
  /\ exists (m' : tui.Model (gostring * bool)) cmd σ',
      pressKeys keys
        (tui.handleQuestion (str "continue?") [str "Yes"; str "No"] 0%nat
           model_example) σ
      = tui.Ok (m', cmd, σ')
      /\ 0 <= tui.questionCursor m'
      /\ ((σ' = σ /\ tui.questionCh m' = Some 0%nat /\ cmd = tui.CmdNil)
          \/ (exists answer, answer ∈ [str "Yes"; str "No"]
                /\ σ' = <[0%nat := tui.mkChan [answer] 1 false]> σ
                /\ tui.questionCh m' = None)
          \/ (σ' = <[0%nat := tui.mkChan [] 1 true]> σ
              /\ tui.questionCh m' = None /\ cmd = tui.Quit)).
Proof.
  cbv zeta. split; [reflexivity|].
  apply (question_state_is_safe
           [str "down"; str "down"; str "up"; str "x"; str "enter"; str "q"]
           (str "continue?") [str "Yes"; str "No"] 0%nat
           (tui.mkChan [] 1 false) model_example
           {[ 0%nat := tui.mkChan [] 1 false ]});
    [reflexivity|reflexivity|reflexivity|cbn; lia].
Defined.


(** ** Yes or no *)

Section YesNo.

Context {T : Type} `{tui.Sender T} {V : Type} `{tui.Viewport V}.

(** Enter, while a question is pending on an open and empty channel
    with room, sends the option under the cursor. *)
Lemma updateQuestion_enter (m : tui.Model V) (σ : tui.Chans) (ch : nat)
  (c : tui.Chan) (k : nat) (answer : gostring) :
  tui.questionCh m = Some ch -> σ !! ch = Some c ->
  tui.closed c = false -> tui.buf c = [] -> (0 < tui.cap c)%nat ->
  tui.questionCursor m = Z.of_nat k -> tui.questionOpts m !! k = Some answer ->
  exists m',
    tui.updateQuestion (str "enter") m σ
    = tui.Ok (m', tui.CmdNil, <[ch := tui.mkChan [answer] (tui.cap c) false]> σ)
    /\ tui.state m' = tui.prevState m /\ tui.questionCh m' = None.
Proof.
  intros Hch Hc Hopen Hbuf Hcap Hcur Hk. unfold tui.updateQuestion.
  replace (streq (str "enter") (str "up") || streq (str "enter") (str "k"))
    with false by reflexivity.
  replace (streq (str "enter") (str "down") || streq (str "enter") (str "j"))
    with false by reflexivity.
  replace (streq (str "enter") (str "enter")) with true by reflexivity.
  rewrite Hch, Hcur.
  replace (0 <? length (tui.questionOpts m))%nat with true
    by (symmetry; apply Nat.ltb_lt; apply lookup_lt_Some in Hk; lia).
  replace (Z.of_nat k <? 0) with false by (symmetry; apply Z.ltb_ge; lia).
  rewrite Nat2Z.id, Hk. unfold tui.chan_send. rewrite Hc, Hopen, Hbuf.
  cbn [length app].
  replace (0 <? tui.cap c)%nat with true by (symmetry; apply Nat.ltb_lt; lia).
  by eexists.
Qed.

(** [AskYesNo] answers with what the user chose.  The call always
    publishes its question, with the options [Yes] and [No] (it never
    fails for want of options).  When it is parked and the model shows
    the question with the cursor on the first or the second option,
    Enter makes it return [true] for the first and [false] for the
    second, with no error. *)
Theorem AskYesNo_returns_the_choice (question : gostring)
  (c : tui.teaCollector T) (σ σ1' : tui.Chans) (ch : tui.Chan)
  (m0 : tui.Model V) (coin : bool) (k : nat) :
  σ !! tui.answerCh c = Some ch -> (0 < tui.cap ch)%nat ->
  (k < 2)%nat ->
  exists (c1 : tui.teaCollector T) (σ1 : tui.Chans),
    tui.AskYesNo_publish question c σ = (tui.AtSelect, c1, σ1)
    /\ (tui.AskQuestion_select coin None c1 σ1 = (tui.Parked, σ1') ->
        let m := tui.setCursor (Z.of_nat k)
                   (tui.handleQuestion question [str "Yes"; str "No"]
                      (tui.answerCh c1) m0) in
        exists (m' : tui.Model V) (σ2 σ3 : tui.Chans) (answer : gostring),
          tui.updateQuestion (str "enter") m σ1' = tui.Ok (m', tui.CmdNil, σ2)
          /\ tui.AskQuestion_wakeRecv c1 σ2 = (tui.Returned answer None, σ3)
          /\ tui.AskYesNo_return answer None = (bool_decide (k = 0%nat), None)).
Proof.
  intros Hch Hcap Hk.
  destruct (tui.AskYesNo_publish question c σ) as [[ph c1] σ1] eqn:Hpub.
  assert (Hph : ph = tui.AtSelect).
  { unfold tui.AskYesNo_publish, tui.AskQuestion_publish in Hpub.
    cbn [length Nat.eqb] in Hpub. by injection Hpub as <- _ _. }
  subst ph. exists c1, σ1. split; [done|]. intros Hsel. cbv zeta.
  apply AskQuestion_publish_cap with (ch := ch) in Hpub
    as (Ha & ch1 & Hch1 & Hcap1); [|done].
  unfold tui.AskQuestion_select in Hsel. rewrite Ha in *.
  destruct (tui.chan_recv (tui.answerCh c) σ1) as [[[v ok] σ']|] eqn:Hrecv.
  { by destruct ok. }
  injection Hsel as <-.
  destruct (chan_recv_None _ _ _ Hch1 Hrecv) as [Hbuf Hopen].
  assert (Hans : exists answer,
             [str "Yes"; str "No"] !! k = Some answer
             /\ streq answer (str "Yes") = bool_decide (k = 0%nat)).
  { destruct k as [|[|k]]; [by eexists|by eexists|lia]. }
  destruct Hans as (answer & Hans & Hyes).
  destruct (updateQuestion_enter
              (tui.setCursor (Z.of_nat k)
                 (tui.handleQuestion question [str "Yes"; str "No"]
                    (tui.answerCh c) m0))
              σ1 (tui.answerCh c) ch1 k answer)
    as (m' & Hupd & _ & _); try done; [lia|].
  eexists m', _, _, answer. split; [exact Hupd|]. split.
  - unfold tui.AskQuestion_wakeRecv, tui.chan_recv.
    rewrite Ha, lookup_insert_eq. reflexivity.
  - unfold tui.AskYesNo_return. by rewrite Hyes.
Qed.

End YesNo.

Lemma AskYesNo_returns_the_choice_witness :
  let '(c, σ) := collector_example in
  σ !! tui.answerCh c = Some (tui.mkChan [] 1 false)
  /\ exists (c1 : tui.teaCollector tui.mockSender) (σ1 : tui.Chans),
      tui.AskYesNo_publish (str "create initial commit?") c σ
      = (tui.AtSelect, c1, σ1)
      /\ tui.AskQuestion_select true None c1 σ1 = (tui.Parked, σ1)
      /\ exists (m' : tui.Model (gostring * bool)) (σ2 σ3 : tui.Chans)
           (answer : gostring),
           tui.updateQuestion (str "enter")
             (tui.setCursor 1
                (tui.handleQuestion (str "create initial commit?")
                   [str "Yes"; str "No"] (tui.answerCh c1) model_example)) σ1
           = tui.Ok (m', tui.CmdNil, σ2)
           /\ tui.AskQuestion_wakeRecv c1 σ2 = (tui.Returned answer None, σ3)
           /\ tui.AskYesNo_return answer None = (false, None).
Proof.
  destruct collector_example as [c σ] eqn:Hc. injection Hc as <- <-.
  split; [by vm_compute|].
  destruct (AskYesNo_returns_the_choice (V := gostring * bool)
              (str "create initial commit?")
              {| tui.csender := ([] : tui.mockSender);
                 tui.answerCh := fresh (dom (∅ : tui.Chans)) |}
              (<[fresh (dom (∅ : tui.Chans)) := tui.mkChan [] 1 false]> ∅)
              (<[fresh (dom (∅ : tui.Chans)) := tui.mkChan [] 1 false]> ∅)
              (tui.mkChan [] 1 false) model_example true 1)
    as (c1 & σ1 & Hpub & Hrest); [by vm_compute|cbn; lia|lia|].
  exists c1, σ1. split; [exact Hpub|].
  vm_compute in Hpub. injection Hpub as <- <-.
  split; [reflexivity|]. apply Hrest. reflexivity.
Defined.


(** ** The plan that plan mode has made *)

Section RecentPlan.

Variable stat : gostring -> option time.Instant.
Variable startTime : time.Instant.

Lemma After_irrefl (t : time.Instant) : time.After t t = false.
Proof. destruct t as [s n]. unfold time.After. cbn. lia. Qed.

Lemma After_trans (t u v : time.Instant) :
  time.After t u = true -> time.After u v = true -> time.After t v = true.
Proof.
  destruct t as [s1 n1], u as [s2 n2], v as [s3 n3]. unfold time.After. cbn.
  lia.
Qed.

Lemma not_After_trans (t u v : time.Instant) :
  time.After t u = false -> time.After u v = false -> time.After t v = false.
Proof.
  destruct t as [s1 n1], u as [s2 n2], v as [s3 n3]. unfold time.After. cbn.
  lia.
Qed.

(** The loop keeps the latest of the plans modified since the start
    that it has passed. *)
Lemma recentLoop_latest (plans : list gostring) (recentPlan : gostring)
  (recentTime : time.Instant) :
  [] ∉ plans ->
  (recentPlan = []
   \/ (stat recentPlan = Some recentTime
       /\ time.Before recentTime startTime = false)) ->
  let r := main.recentLoop stat startTime plans recentPlan recentTime in
  (r = [] /\ recentPlan = []
   /\ forall p mt, p ∈ plans -> stat p = Some mt ->
                   time.Before mt startTime = true)
  \/ (exists mt,
        ((r = recentPlan /\ mt = recentTime /\ recentPlan <> []) \/ r ∈ plans)
        /\ stat r = Some mt /\ time.Before mt startTime = false
        /\ (recentPlan <> [] -> time.After recentTime mt = false)
        /\ forall p mt', p ∈ plans -> stat p = Some mt' ->
                         time.Before mt' startTime = false ->
                         time.After mt' mt = false).
Proof.
  cbv zeta. revert recentPlan recentTime.
  induction plans as [|plan rest IH]; intros rp rt Hne Hacc.
  { cbn [main.recentLoop]. destruct Hacc as [->|[Hst Hb]].
    - left. split; [done|]. split; [done|]. intros p mt Hp. by inversion Hp.
    - destruct (decide (rp = [])) as [->|Hrp].
      + left. split; [done|]. split; [done|]. intros p mt Hp. by inversion Hp.
      + right. exists rt. split; [by left|]. split; [done|]. split; [done|].
        split; [intros _; apply After_irrefl|].
        intros p mt' Hp. by inversion Hp. }
  assert (Hplan : plan <> []).
  { intros ->. apply Hne. by left. }
  assert (Hrest : [] ∉ rest).
  { intros Hin. apply Hne. by right. }
  cbn [main.recentLoop].
  assert (Hskip :
            (forall mt, stat plan = Some mt -> time.Before mt startTime = true) ->
            let r := main.recentLoop stat startTime rest rp rt in
            (r = [] /\ rp = []
             /\ forall p mt, p ∈ plan :: rest -> stat p = Some mt ->
                             time.Before mt startTime = true)
            \/ (exists mt,
                  ((r = rp /\ mt = rt /\ rp <> []) \/ r ∈ plan :: rest)
                  /\ stat r = Some mt /\ time.Before mt startTime = false
                  /\ (rp <> [] -> time.After rt mt = false)
                  /\ forall p mt', p ∈ plan :: rest -> stat p = Some mt' ->
                                   time.Before mt' startTime = false ->
                                   time.After mt' mt = false)).
  { intros Hno. cbv zeta.
    destruct (IH rp rt Hrest Hacc)
      as [(Hr & Hrp & Hall)|(mt & Hwhere & Hst & Hb & Hle & Hall)].
    - left. split; [done|]. split; [done|].
      intros p mt' [->|Hp]%elem_of_cons Hs; [by apply Hno|by eapply Hall].
    - right. exists mt. split.
      { destruct Hwhere as [?|?]; [by left|right; by right]. }
      split; [done|]. split; [done|]. split; [done|].
      intros p mt' [->|Hp]%elem_of_cons Hs Hb'; [|by eapply Hall].
      rewrite (Hno mt' Hs) in Hb'. done. }
  destruct (stat plan) as [modTime|] eqn:Hstat; [|by apply Hskip].
  destruct (time.Before modTime startTime) eqn:Hbefore.
  { apply Hskip. by intros mt [= <-]. }
  destruct (streq rp [] || time.After modTime rt) eqn:Htake.
  - destruct (IH plan modTime Hrest) as [(_ & Hnil & _)|
                                         (mt & Hwhere & Hst & Hb & Hle & Hall)];
      [by right|done|].
    right. exists mt. split.
    { right. destruct Hwhere as [(-> & _ & _)|Hin]; [by left|by right]. }
    split; [done|]. split; [done|]. specialize (Hle Hplan). split.
    + intros Hrp. apply orb_true_iff in Htake as [Hnil|Hafter].
      { by apply streq_true in Hnil. }
      destruct (time.After rt mt) eqn:Hrt; [|done].
      by rewrite (After_trans _ _ _ Hafter Hrt) in Hle.
    + intros p mt' [->|Hp]%elem_of_cons Hs Hb'; [|by eapply Hall].
      rewrite Hstat in Hs. by injection Hs as <-.
  - apply orb_false_iff in Htake as [Hrp Hafter].
    apply streq_false in Hrp.
    destruct (IH rp rt Hrest Hacc)
      as [(_ & Hnil & _)|(mt & Hwhere & Hst & Hb & Hle & Hall)]; [done|].
    right. exists mt. split.
    { destruct Hwhere as [?|?]; [by left|right; by right]. }
    split; [done|]. split; [done|]. split; [done|].
    intros p mt' [->|Hp]%elem_of_cons Hs Hb'; [|by eapply Hall].
    rewrite Hstat in Hs. injection Hs as <-.
    eapply not_After_trans; [exact Hafter|by apply Hle].
Qed.

(** [findRecentPlan] finds the latest plan made since the start.
    Of the files that [filepath.Glob] lists, it returns one whose
    modification time [os.Stat] reports and is not before the start
    time, and no such file is later than it; it returns the empty
    string when there is no such file, and when [Glob] fails. *)
Theorem findRecentPlan_finds_the_latest (plans : list gostring) :
  [] ∉ plans ->
  main.findRecentPlan None stat startTime = []
  /\ let r := main.findRecentPlan (Some plans) stat startTime in
     (r = []
      /\ forall p mt, p ∈ plans -> stat p = Some mt ->
                      time.Before mt startTime = true)
     \/ (exists mt,
           r ∈ plans /\ stat r = Some mt /\ time.Before mt startTime = false
           /\ forall p mt', p ∈ plans -> stat p = Some mt' ->
                            time.Before mt' startTime = false ->
                            time.After mt' mt = false).
Proof.
  intros Hne. split; [done|]. cbv zeta. unfold main.findRecentPlan.
  destruct plans as [|plan rest] eqn:Hplans.
  { left. split; [done|]. intros p mt Hp. by inversion Hp. }
  rewrite <- Hplans in *. replace (length plans =? 0)%nat with false
    by (by rewrite Hplans).
  destruct (recentLoop_latest plans [] time.zeroInstant Hne)
    as [(Hr & _ & Hall)|(mt & Hwhere & Hst & Hb & _ & Hall)]; [by left| |].
  - by left.
  - right. exists mt. destruct Hwhere as [(_ & _ & ?)|Hin]; done.
Qed.

End RecentPlan.


Lemma findRecentPlan_finds_the_latest_witness :
  bool_decide ([] ∈ plans_example) = false
  /\ main.findRecentPlan None stat_example started_example = []
  /\ let r := main.findRecentPlan (Some plans_example) stat_example
                started_example in
     (r = []
      /\ forall p mt, p ∈ plans_example -> stat_example p = Some mt ->
                      time.Before mt started_example = true)
     \/ (exists mt,
           r ∈ plans_example /\ stat_example r = Some mt
           /\ time.Before mt started_example = false
           /\ forall p mt', p ∈ plans_example -> stat_example p = Some mt' ->
                            time.Before mt' started_example = false ->
                            time.After mt' mt = false).
Proof.
  split; [by vm_compute|].
  apply (findRecentPlan_finds_the_latest stat_example started_example
           plans_example).
  apply (bool_decide_eq_false_1 _). by vm_compute.
Defined.


(** ** The plan selection reaches the business logic *)

Section PlanSelection.

Context {V : Type}.

(** With no result channel registered, no event touches a channel. *)
Lemma runPlan_idle (evs : list tui.PlanEvent) (pm : tui.PlanModel V)
  (ρ : tui.ResultChans) :
  tui.planResultCh pm = None ->
  Forall (fun ev => isRequest ev = false) evs ->
  exists pm', runPlan evs pm ρ = tui.Ok (pm', ρ) /\ tui.planResultCh pm' = None.
Proof.
  revert pm. induction evs as [|ev evs IH]; intros pm Hch Hevs;
    [by eexists|].
  apply Forall_cons in Hevs as [Hev Hevs]. cbn [runPlan].
  destruct ev as [ch|path|description|e| |]; try done;
    cbn [tui.updatePlan]; unfold tui.deliverPlanResult, tui.deliverPlanError;
    cbn [tui.planResultCh]; rewrite Hch; by apply IH.
Qed.

(** The first event after the request delivers its result, on a
    channel as [waitForPlanSelection] makes it. *)
Lemma updatePlan_first (ev : tui.PlanEvent) (pm : tui.PlanModel V)
  (ρ : tui.ResultChans) (ch : nat) :
  isRequest ev = false ->
  tui.planResultCh pm = Some ch ->
  ρ !! ch = Some (tui.mkResultChan [] 1 false) ->
  exists pm' result,
    tui.updatePlan ev pm ρ
    = tui.Ok (pm', <[ch := tui.mkResultChan [result] 1 false]> ρ)
    /\ tui.planResultCh pm' = None
    /\ main.waitForPlanSelection_received result = choiceOf ev.
Proof.
  intros Hev Hch Hρ.
  destruct ev as [ch'|path|description|e| |]; try done;
    cbn [tui.updatePlan]; unfold tui.deliverPlanResult, tui.deliverPlanError;
    cbn [tui.planResultCh]; rewrite Hch, Hρ; cbn;
    eexists _, _; (split; [reflexivity|]); (split; [done|]); try done.
  by destruct description.
Qed.

(** A plan selection is delivered once, and never holds up the TUI.
    [waitForPlanSelection] makes its channel and the request reaches
    the model; then come selections, new descriptions, failures and
    cancellations, any of them, in any number.  The event loop neither
    blocks nor panics.  If nothing came, no result is there and the
    call goes on waiting; otherwise the channel holds one result, that
    of the first event, whatever came after, and the call that
    receives it returns the path selected, goes into plan mode with
    the description, or returns the error [no plans found],
    [user canceled] or the error of the plan list. *)
Theorem plan_selection_is_delivered_once (evs : list tui.PlanEvent)
  (pm : tui.PlanModel V) (ρ : tui.ResultChans) :
  Forall (fun ev => isRequest ev = false) evs ->
  let '(ch, ρ0) := main.waitForPlanSelection_register ρ in
  exists pm' ρ',
    runPlan (tui.PlanSelectionRequestMsg ch :: evs) pm ρ0 = tui.Ok (pm', ρ')
    /\ match evs with
       | [] =>
         ρ' = ρ0 /\ tui.planResultCh pm' = Some ch /\ result_recv ch ρ' = None
       | ev :: _ =>
         tui.planResultCh pm' = None
         /\ exists result,
              result_recv ch ρ'
              = Some (result, <[ch := tui.mkResultChan [] 1 false]> ρ')
              /\ main.waitForPlanSelection_received result = choiceOf ev
       end.
Proof.
  intros Hevs. unfold main.waitForPlanSelection_register.
  set (ch := fresh (dom ρ)).
  set (ρ0 := <[ch := tui.mkResultChan [] 1 false]> ρ).
  assert (Hρ0 : ρ0 !! ch = Some (tui.mkResultChan [] 1 false))
    by apply lookup_insert_eq.
  cbn [runPlan tui.updatePlan].
  destruct evs as [|ev evs].
  { eexists _, _. split; [reflexivity|]. split; [done|]. split; [done|].
    unfold result_recv. by rewrite Hρ0. }
  apply Forall_cons in Hevs as [Hev Hevs]. cbn [runPlan].
  destruct (updatePlan_first ev (tui.mkPlanModel (tui.pmodel pm) (Some ch))
              ρ0 ch Hev eq_refl Hρ0) as (pm1 & result & -> & Hch1 & Hchoice).
  destruct (runPlan_idle evs pm1
              (<[ch := tui.mkResultChan [result] 1 false]> ρ0) Hch1 Hevs)
    as (pm' & -> & Hch').
  eexists _, _. split; [reflexivity|]. split; [done|].
  exists result. split; [|done].
  unfold result_recv. rewrite lookup_insert_eq. cbn.
  by rewrite insert_insert_eq.
Qed.

End PlanSelection.

Lemma plan_selection_is_delivered_once_witness :
  let evs := [tui.PlanSelected (str "docs/plans/feature.md");
              tui.PlanSelected (str "docs/plans/other.md");
              tui.CancelPlanList] in
  let pm := tui.mkPlanModel (tui.NewModel (V := gostring * bool)
                               tui.StateSelectPlan) None in
  let '(ch, ρ0) := main.waitForPlanSelection_register ∅ in
  forallb (fun ev => negb (isRequest ev)) evs = true
  /\ exists pm' ρ',
      runPlan (tui.PlanSelectionRequestMsg ch :: evs) pm ρ0 = tui.Ok (pm', ρ')
      /\ tui.planResultCh pm' = None
      /\ exists result,
           result_recv ch ρ'
           = Some (result, <[ch := tui.mkResultChan [] 1 false]> ρ')
           /\ main.waitForPlanSelection_received result
              = main.ChoicePath (str "docs/plans/feature.md").
Proof.
  cbv zeta.
  pose proof (plan_selection_is_delivered_once
                [tui.PlanSelected (str "docs/plans/feature.md");
                 tui.PlanSelected (str "docs/plans/other.md");
                 tui.CancelPlanList]
                (tui.mkPlanModel (tui.NewModel (V := gostring * bool)
                                    tui.StateSelectPlan) None) ∅) as Hthm.
  destruct (main.waitForPlanSelection_register ∅) as [ch ρ0].
  split; [reflexivity|]. apply Hthm. repeat constructor.
Defined.


(** ** What is done to the repository *)

Section GitCalls.

Context {G : Type} `{git.Repo G} {T : Type} `{tui.Sender T}.

Variable strconv_Quote : gostring -> gostring.

(** [createBranchIfNeeded] writes the plan's branch and the plan only.
    The commands it gives the repository are the beginning of three: a
    checkout of the branch named after the plan if that branch exists
    and its creation if not; the staging of the plan file; a commit
    with the message [add plan: ] and the branch name.  It gives no
    command, and sends nothing to the TUI, on a branch other than
    [main] and [master] (and returns no error there), when the current
    branch cannot be read, and when files other than the plan have
    uncommitted changes.  When it returns no error it has stopped after
    none, one or all three of the commands, never between the staging
    and the commit. *)
Theorem createBranchIfNeeded_writes_only_the_plan (planFile : gostring)
  (g : G) (s : T) :
  let branch := main.extractBranchName planFile in
  let switch :=
    if git.BranchExists branch g then CallCheckout branch
    else CallCreate branch in
  let full := [switch; CallAdd planFile; CallCommit (str "add plan: " ++ branch)] in
  let '(err, (g', calls), s') :=
    main.createBranchIfNeeded (H := traced) strconv_Quote planFile (g, []) s in
  calls `prefix_of` full
  /\ (calls = [] -> g' = g /\ s' = s)
  /\ (err = None -> calls = [] \/ calls = [switch] \/ calls = full)
  /\ match git.CurrentBranch g with
     | git.Val current =>
       if streq current (str "main") || streq current (str "master")
       then git.HasChangesOtherThan planFile g = git.Val true ->
            calls = [] /\ is_Some err
       else calls = [] /\ err = None
     | git.Fail _ => calls = [] /\ is_Some err
     end.
Proof.
  cbv zeta. unfold main.createBranchIfNeeded.
  cbn [git.CurrentBranch git.HasChangesOtherThan git.FileHasChanges
       git.BranchExists git.CheckoutBranch git.CreateBranch git.Add git.Commit
       traced fst snd].
  destruct (git.CurrentBranch g) as [current|e0].
  2:{ split; [apply prefix_nil|]. repeat split; try done; by left. }
  destruct (streq current (str "main")) eqn:Hmain;
    destruct (streq current (str "master")) eqn:Hmaster; cbn [negb andb orb].
  4:{ split; [apply prefix_nil|]. repeat split; try done; by left. }
  all: destruct (git.HasChangesOtherThan planFile g) as [[|]|e1];
    [split; [apply prefix_nil|]; repeat split; try done; by left
    | |split; [apply prefix_nil|]; repeat split; try done; by left].
  all: destruct (git.FileHasChanges planFile g) as [planHasChanges|e2];
    [|split; [apply prefix_nil|]; repeat split; try done; by left].
  all: destruct (git.BranchExists (main.extractBranchName planFile) g);
    [destruct (git.CheckoutBranch (main.extractBranchName planFile) g)
       as [[e3|] g1]
    |destruct (git.CreateBranch (main.extractBranchName planFile) g)
       as [[e3|] g1]];
    cbn [app fst snd].
  all: try (split; [by eexists|]; repeat split; try done; by right; left).
  all: destruct planHasChanges;
    [|split; [by eexists|]; repeat split; try done; by right; left].
  all: destruct (git.Add planFile g1) as [[e4|] g2]; cbn [app fst snd];
    [split; [by eexists|]; repeat split; done|].
  all: destruct (git.Commit _ g2) as [[e5|] g3]; cbn [app fst snd];
    split; [by eexists| |by eexists|]; repeat split; try done;
    by right; right.
Qed.

(** [ensureRepoHasCommitsTUI] commits only when asked to.  The one
    command it may give the repository is the initial commit, and it
    gives it only when the repository has no commits and the user has
    answered yes without an error.  When the repository has commits it
    sends nothing and returns no error; when the user says no, or the
    question fails, it returns an error and leaves the repository as it
    is. *)
Theorem ensureRepoHasCommitsTUI_commits_only_on_yes
  (ask : bool * option gostring) (g : G) (s : T) :
  let '(err, (g', calls), s') :=
    main.ensureRepoHasCommitsTUI (H := traced) ask (g, []) s in
  (calls = [] /\ g' = g
   \/ (calls = [CallInitialCommit (str "initial commit")]
       /\ git.HasCommits g = git.Val false /\ ask = (true, None)))
  /\ (git.HasCommits g = git.Val true -> err = None /\ calls = [] /\ s' = s)
  /\ (git.HasCommits g = git.Val false -> ask <> (true, None) ->
      is_Some err /\ calls = [])
  /\ (err = None ->
      git.HasCommits g = git.Val true
      \/ calls = [CallInitialCommit (str "initial commit")]).
Proof.
  unfold main.ensureRepoHasCommitsTUI.
  cbn [git.HasCommits git.CreateInitialCommit traced fst snd].
  destruct (git.HasCommits g) as [[|]|e0].
  - repeat split; try done; by left.
  - destruct ask as [[|] [askErr|]]; try (repeat split; try done; by left).
    destruct (git.CreateInitialCommit (str "initial commit") g) as [[e1|] g1];
      cbn [app]; (split; [by right|]); repeat split; try done; by right.
  - repeat split; try done; by left.
Qed.

End GitCalls.


(** ** The description of a plan in the list *)

Section ReadFirstLine.

Variable trim : gostring -> gostring.

Lemma firstLineLoop_body (lines : list gostring) :
  tui.firstLineLoop trim lines false false = firstText trim lines.
Proof.
  induction lines as [|text rest IH]; [done|].
  cbn [tui.firstLineLoop firstText]. unfold headingText. cbn [orb].
  destruct (streq (trim text) []) eqn:Hblank.
  - apply streq_true in Hblank. rewrite Hblank. cbn. exact IH.
  - destruct (streq (trim text) (str "---")); cbn [negb];
      by destruct (streq (trim (strings.TrimLeft (trim text) (str "#"))) []).
Qed.

Lemma firstLineLoop_frontmatter (lines : list gostring) :
  tui.firstLineLoop trim lines true false = firstText trim (afterFence trim lines).
Proof.
  induction lines as [|text rest IH]; [done|].
  cbn [tui.firstLineLoop afterFence]. unfold isFence. cbn [orb].
  destruct (streq (trim text) (str "---")); [apply firstLineLoop_body|exact IH].
Qed.

(** [readFirstLine] skips the front matter and returns the first line
    that has something to say.  The description of a plan is the empty
    string when the file cannot be opened; otherwise, of the lines
    that the scanner yields, the front matter is left out (when the
    first line is [---], everything up to and including the next
    [---]), and the description is the first remaining line that is
    not blank and is more than [#] marks, trimmed, without the marks,
    and trimmed again.  So a plan whose first line is [---] and that
    has no second [---] has the empty description, whatever it
    holds. *)
Theorem readFirstLine_skips_front_matter :
  tui.readFirstLine trim None = []
  /\ (forall data,
        tui.readFirstLine trim (Some data)
        = firstText trim (withoutFrontmatter trim (tui.scanLines data)))
  /\ (forall first rest,
        isFence trim first = true ->
        Forall (fun text => isFence trim text = false) rest ->
        tui.firstLineLoop trim (first :: rest) false true = []).
Proof.
  assert (Hloop : forall lines,
             tui.firstLineLoop trim lines false true
             = firstText trim (withoutFrontmatter trim lines)).
  { intros [|text rest]; [done|].
    cbn [tui.firstLineLoop withoutFrontmatter]. unfold isFence.
    destruct (streq (trim text) (str "---")) eqn:Hfence;
      [apply firstLineLoop_frontmatter|].
    rewrite <- (firstLineLoop_body (text :: rest)).
    cbn [tui.firstLineLoop]. by rewrite Hfence. }
  split; [done|]. split; [intros data; apply Hloop|].
  intros first rest Hfirst Hrest. rewrite Hloop.
  cbn [withoutFrontmatter]. rewrite Hfirst.
  induction Hrest as [|text rest Htext _ IH]; [done|].
  cbn [afterFence]. by rewrite Htext.
Qed.

End ReadFirstLine.


(** The cases of the test of [readFirstLine], and a file cut short
    within its front matter. *)
Lemma readFirstLine_examples :
  let read data := tui.readFirstLine TrimSpace_ascii (Some data) in
  read (str "# My Plan" ++ [nl; nl] ++ str "Some details") = str "My Plan"
  /\ read (str "Simple description" ++ [nl] ++ str "More text")
     = str "Simple description"
  /\ read ([nl; nl; nl] ++ str "Actual content") = str "Actual content"
  /\ read (str "---" ++ [nl] ++ str "title: Plan" ++ [nl] ++ str "---" ++ [nl]
           ++ str "# Real Title") = str "Real Title"
  /\ read [] = []
  /\ read (str "   " ++ [nl] ++ str "   " ++ [nl] ++ str "   ") = []
  /\ read (str "## Sub Heading") = str "Sub Heading"
  /\ read (str "---" ++ [nl] ++ str "title: Plan" ++ [nl] ++ str "# Real Title")
     = [].
Proof. by vm_compute. Qed.


(** ** The flags of the command line *)

(** The ways [run] can take agree with one another.  Of the command
    lines that [validateFlags] accepts, plan mode has no plan file.
    Watch-only mode is never plan mode, has no plan file, is accepted by
    [validateFlags], and is never a reset alone.  A reset alone is
    accepted by [validateFlags], is never watch-only, and is a command
    line that would otherwise run in full mode and open the TUI on the
    plan selection. *)
Theorem run_modes_agree (o : main.opts) (configWatchDirs : list gostring) :
  (main.validateFlags o = None -> main.determineMode o = main.ModePlan ->
   main.PlanFile o = [])
  /\ (main.isWatchOnlyMode o configWatchDirs = true ->
      main.validateFlags o = None
      /\ main.mode_eqb (main.determineMode o) main.ModePlan = false
      /\ main.PlanFile o = []
      /\ main.isResetOnly o = false)
  /\ (main.isResetOnly o = true ->
      main.validateFlags o = None
      /\ main.determineMode o = main.ModeFull
      /\ main.determineInitialTUIState o (main.determineMode o)
         = tui.StateSelectPlan
      /\ main.isWatchOnlyMode o configWatchDirs = false).
Proof.
  unfold main.validateFlags, main.determineMode, main.isWatchOnlyMode,
    main.isResetOnly, main.determineInitialTUIState.
  destruct (streq (main.PlanDescription o) []) eqn:Hd;
    destruct (streq (main.PlanFile o) []) eqn:Hf;
    destruct (main.Review o), (main.CodexOnly o), (main.Serve o);
    cbn; rewrite ?streq_true, ?streq_false in *;
    repeat split; try done; try (intros; discriminate);
    try (by rewrite ?andb_false_r).
Qed.
